(** * Aurelius dashboard: record store, remote mirror, reconciliation and
      caption templates

    A shallow embedding of the state-handling code of the dashboard:
    - [lib/supabase.js]          (module [dbHelpers]): the remote mirror client;
    - [pages/index.tsx]          (module [Home]): the record store;
    - [components/AccountManager.js] (module [AccountManager]): the
      reconciliation run [syncData];
    - [components/CaptionGenerator.js] (module [CaptionGenerator]): the
      caption template engine.

    JavaScript built-ins the code calls ([String.prototype.replace],
    [Array.prototype.join], [Date.prototype.setDate], property lookup on
    plain objects) are modelled in module [Js] after ECMA-262. *)

From Stdlib Require Import ZArith List Ascii String Bool Lia.
From stdpp Require Import base option list strings gmap.
Import ListNotations.

Local Open Scope Z_scope.

(* ===================================================================== *)
(** * JavaScript values used by the code *)
(* ===================================================================== *)

Module Js.

(** A JavaScript string.  The code only ever searches for ASCII text
    ([{key}] placeholders) and inspects ASCII characters ([$]), so a string
    is modelled as the list of the bytes of its UTF-8 spelling: a byte of a
    multi-byte character never equals an ASCII character. *)
Definition jsstring : Type := list ascii.

Definition str (s : string) : jsstring := list_ascii_of_string s.

(** The values a property lookup on the objects of this program can give:
    [undefined], a string, or an object or function (the members every
    plain object inherits from [Object.prototype]). *)
Inductive jsval : Type :=
  | JUndefined
  | JString (s : jsstring)
  | JObject.

(** ToBoolean. *)
Definition truthy (v : jsval) : bool :=
  match v with
  | JUndefined => false
  | JString [] => false
  | JString (_ :: _) => true
  | JObject => true
  end.

(** [a || b]. *)
Definition jsOr (a b : jsval) : jsval := if truthy a then a else b.

(** [s || d] for an optional string field [s] and a string literal [d]. *)
Definition orDefault (s : option jsstring) (d : jsstring) : jsstring :=
  match s with
  | Some (c :: r) => c :: r
  | _ => d
  end.

(** Names every plain object inherits from [Object.prototype]. *)
Definition objectPrototypeNames : list jsstring :=
  map str
    [ "constructor"; "__defineGetter__"; "__defineSetter__"; "hasOwnProperty";
      "__lookupGetter__"; "__lookupSetter__"; "isPrototypeOf";
      "propertyIsEnumerable"; "toString"; "valueOf"; "__proto__";
      "toLocaleString" ]%string.

(** [obj[key]] on a plain object whose own properties are strings. *)
Definition getProp (obj : gmap jsstring jsstring) (key : jsstring) : jsval :=
  match obj !! key with
  | Some s => JString s
  | None =>
      if bool_decide (key ∈ objectPrototypeNames) then JObject else JUndefined
  end.

(** [Array.prototype.join]: [undefined] elements are spelled as the empty
    string. *)
Fixpoint join (sep : jsstring) (l : list (option jsstring)) : jsstring :=
  match l with
  | [] => []
  | [x] => default [] x
  | x :: rest => default [] x ++ sep ++ join sep rest
  end.

(** ** [String.prototype.replace] with a global regular expression *)

Fixpoint isPrefix (p s : jsstring) : bool :=
  match p, s with
  | [], _ => true
  | _ :: _, [] => false
  | a :: p', b :: s' => Ascii.eqb a b && isPrefix p' s'
  end.

(** GetSubstitution (ECMA-262 22.1.3.19.1) for a pattern without capture
    groups: in the replacement text [$$] is a dollar, [$&] the matched
    text, [$`] the text before the match, [$'] the text after it; every
    other [$] stands for itself. *)
Fixpoint getSubstitution (matched before after repl : jsstring) : jsstring :=
  match repl with
  | [] => []
  | c :: rest =>
      if Ascii.eqb c "$" then
        match rest with
        | d :: rest' =>
            if Ascii.eqb d "$" then
              "$"%char :: getSubstitution matched before after rest'
            else if Ascii.eqb d "&" then
              matched ++ getSubstitution matched before after rest'
            else if Ascii.eqb d "`" then
              before ++ getSubstitution matched before after rest'
            else if Ascii.eqb d "'" then
              after ++ getSubstitution matched before after rest'
            else "$"%char :: getSubstitution matched before after rest
        | [] => ["$"%char]
        end
      else c :: getSubstitution matched before after rest
  end.

(** The scan of [caption.replace(new RegExp(pat, 'g'), repl)] for a pattern
    that is literal text: matches are taken left to right and do not
    overlap.  [skip] counts the characters of the current match still to be
    passed over, [before] is the part of the input already scanned. *)
Fixpoint replaceScan (pat repl : jsstring) (skip : nat)
    (before s : jsstring) : jsstring :=
  match s with
  | [] => []
  | c :: s' =>
      match skip with
      | S k => replaceScan pat repl k (before ++ [c]) s'
      | O =>
          if isPrefix pat s then
            getSubstitution pat before (drop (length pat) s) repl
              ++ replaceScan pat repl (pred (length pat)) (before ++ [c]) s'
          else c :: replaceScan pat repl O (before ++ [c]) s'
      end
  end.

(** The pattern text of [new RegExp(`{${key}}`, 'g')].  For the keys of
    this program (letters and underscores) the braces are no quantifier
    and the pattern matches the text [{key}]. *)
Definition placeholder (key : jsstring) : jsstring :=
  "{"%char :: key ++ ["}"%char].

(** [caption.replace(new RegExp(`{${key}}`, 'g'), value)]. *)
Definition replaceAll (key value caption : jsstring) : jsstring :=
  replaceScan (placeholder key) value O [] caption.

(** [Object.entries(variables).forEach(([key, value]) => { caption =
    caption.replace(new RegExp(`{${key}}`, 'g'), value) })]: one pass per
    variable, in the insertion order of the object literal. *)
Definition substitute (variables : list (jsstring * jsstring))
    (caption : jsstring) : jsstring :=
  fold_left (fun cap kv => replaceAll kv.1 kv.2 cap) variables caption.

(** ** Dates (ECMA-262 21.4.1)

    A time value is a number of milliseconds since the epoch; every value
    that occurs is an integer below 2^53, so the arithmetic on doubles is
    exact and [Z] models it.  [None] stands for [NaN] (an invalid date). *)

Definition msPerDay : Z := 86400000.

Definition Day (t : Z) : Z := t / msPerDay.
Definition TimeWithinDay (t : Z) : Z := t mod msPerDay.

Definition isLeapYear (y : Z) : bool :=
  if negb (y mod 4 =? 0) then false
  else if negb (y mod 100 =? 0) then true
  else y mod 400 =? 0.

Definition DayFromYear (y : Z) : Z :=
  365 * (y - 1970) + (y - 1969) / 4 - (y - 1901) / 100 + (y - 1601) / 400.

(** YearFromTime: the largest [y] with [DayFromYear y <= d], searched
    upwards from a year that is not after it (the search is long enough
    for every valid time value). *)
Fixpoint yearScan (fuel : nat) (d y : Z) : Z :=
  match fuel with
  | O => y
  | S f => if DayFromYear (y + 1) <=? d then yearScan f d (y + 1) else y
  end.

Definition YearFromTime (t : Z) : Z :=
  let d := Day t in
  yearScan 1000 d (1970 + d / (if 0 <=? d then 366 else 365)).

Definition InLeapYear (t : Z) : Z :=
  if isLeapYear (YearFromTime t) then 1 else 0.

Definition DayWithinYear (t : Z) : Z := Day t - DayFromYear (YearFromTime t).

Definition MonthFromTime (t : Z) : Z :=
  let d := DayWithinYear t in
  let leap := InLeapYear t in
  if d <? 31 then 0
  else if d <? 59 + leap then 1
  else if d <? 90 + leap then 2
  else if d <? 120 + leap then 3
  else if d <? 151 + leap then 4
  else if d <? 181 + leap then 5
  else if d <? 212 + leap then 6
  else if d <? 243 + leap then 7
  else if d <? 273 + leap then 8
  else if d <? 304 + leap then 9
  else if d <? 334 + leap then 10
  else 11.

(** Days of the year before the first day of month [m] (0 is January). *)
Definition daysBeforeMonth (m leap : Z) : Z :=
  if m =? 0 then 0
  else if m =? 1 then 31
  else if m =? 2 then 59 + leap
  else if m =? 3 then 90 + leap
  else if m =? 4 then 120 + leap
  else if m =? 5 then 151 + leap
  else if m =? 6 then 181 + leap
  else if m =? 7 then 212 + leap
  else if m =? 8 then 243 + leap
  else if m =? 9 then 273 + leap
  else if m =? 10 then 304 + leap
  else 334 + leap.

Definition DateFromTime (t : Z) : Z :=
  DayWithinYear t - daysBeforeMonth (MonthFromTime t) (InLeapYear t) + 1.

(** MakeDay: the day number of the first day of the month, plus
    [date - 1]; months outside 0..11 carry into the year. *)
Definition MakeDay (year month date : Z) : Z :=
  let ym := year + month / 12 in
  let mn := month mod 12 in
  DayFromYear ym + daysBeforeMonth mn (if isLeapYear ym then 1 else 0)
    + date - 1.

Definition MakeDate (day time : Z) : Z := day * msPerDay + time.

Definition TimeClip (time : Z) : option Z :=
  if 8640000000000000 <? Z.abs time then None else Some time.

End Js.

Import Js.

(** The host environment: time zone data and the locale-dependent string
    functions of the browser. *)
Class Host : Type := {
  (** LocalTZA(t, isUTC): the offset of local time, in milliseconds. *)
  LocalTZA : Z -> bool -> Z;
  (** [new Date(iso).toLocaleDateString()], on the time value. *)
  toLocaleDateString : Z -> jsstring;
  toLowerCase : jsstring -> jsstring;
  toUpperCase : jsstring -> jsstring;
  (** [s.replace(/\s+/g, '_')]. *)
  underscoreSpaces : jsstring -> jsstring
}.

Section HostDates.
Context {host : Host}.

Definition LocalTime (t : Z) : Z := t + LocalTZA t true.
Definition UTC (t : Z) : Z := t - LocalTZA t false.

(** [d.getDate()] for a valid date with time value [tv]. *)
Definition getDate (tv : Z) : Z := DateFromTime (LocalTime tv).

(** [d.setDate(dt)] for a valid date with time value [tv]: the new time
    value. *)
Definition setDate (tv dt : Z) : option Z :=
  let t := LocalTime tv in
  let newDate :=
    MakeDate (MakeDay (YearFromTime t) (MonthFromTime t) dt) (TimeWithinDay t) in
  TimeClip (UTC newDate).

End HostDates.

(* ===================================================================== *)
(** * Data model ([interface Stream], [interface StreamItem]) *)
(* ===================================================================== *)

Inductive Status : Type := active | completed | overdue.
Inductive Priority : Type := low | medium | high.

(** A user id of the authentication service. *)
Definition UserId : Type := jsstring.

(** [interface StreamItem], with the further fields the caption generator
    reads from an item.  An optional field that is absent is [None]. *)
Record StreamItem : Type := {
  item_id : Z;
  item_name : jsstring;
  creator_name : jsstring;
  creator_id : option jsstring;
  product_url : option jsstring;
  product_id : option jsstring;
  item_notes : option jsstring;
  creator_imvu_avatar : option jsstring;
  creator_ig_handle : option jsstring;
  creator_ig_shop_handle : option jsstring
}.

(** [interface Stream], with [user_id] (set on rows of the remote table)
    and [model_ig_handle] (read by the caption generator).  [due_date],
    [created_at] and [completed_at] hold ISO strings in the program; a
    valid ISO string is modelled by its time value, an absent or empty
    [due_date] by [None]. *)
Record Stream : Type := {
  id : Z;
  agency_name : option jsstring;
  due_date : option Z;
  status : Status;
  priority : Priority;
  stream_type : option jsstring;
  notes : option jsstring;
  created_at : Z;
  completed_at : option Z;
  items : list StreamItem;
  user_id : option UserId;
  model_ig_handle : option jsstring
}.

(** [{ ...stream, status: 'completed', completed_at: t }]. *)
Definition markCompleted (t : Z) (s : Stream) : Stream :=
  {| id := id s; agency_name := agency_name s; due_date := due_date s;
     status := completed; priority := priority s;
     stream_type := stream_type s; notes := notes s;
     created_at := created_at s; completed_at := Some t; items := items s;
     user_id := user_id s; model_ig_handle := model_ig_handle s |}.

(** [{ ...stream, user_id: userId }]. *)
Definition withUser (userId : UserId) (s : Stream) : Stream :=
  {| id := id s; agency_name := agency_name s; due_date := due_date s;
     status := status s; priority := priority s;
     stream_type := stream_type s; notes := notes s;
     created_at := created_at s; completed_at := completed_at s;
     items := items s; user_id := Some userId;
     model_ig_handle := model_ig_handle s |}.

(** The object handed to [updateStream]: each field of a stream it carries
    is [Some].  Keys that are no field of a stream are not modelled. *)
Record StreamPatch : Type := {
  p_id : option Z;
  p_agency_name : option (option jsstring);
  p_due_date : option (option Z);
  p_status : option Status;
  p_priority : option Priority;
  p_stream_type : option (option jsstring);
  p_notes : option (option jsstring);
  p_items : option (list StreamItem)
}.

(** [{ ...stream, ...streamData }]. *)
Definition applyPatch (p : StreamPatch) (s : Stream) : Stream :=
  {| id := default (id s) (p_id p);
     agency_name := default (agency_name s) (p_agency_name p);
     due_date := default (due_date s) (p_due_date p);
     status := default (status s) (p_status p);
     priority := default (priority s) (p_priority p);
     stream_type := default (stream_type s) (p_stream_type p);
     notes := default (notes s) (p_notes p);
     created_at := created_at s; completed_at := completed_at s;
     items := default (items s) (p_items p);
     user_id := user_id s; model_ig_handle := model_ig_handle s |}.

(** The form data handed to [createStream]. *)
Record StreamDraft : Type := {
  d_agency_name : option jsstring;
  d_due_days : Z;
  d_priority : Priority;
  d_stream_type : option jsstring;
  d_notes : option jsstring;
  d_items : option (list StreamItem)
}.

(* ===================================================================== *)
(** * The remote service and the effects of the program *)
(* ===================================================================== *)

Record PgError : Type := { message : string }.

(** The [{ data, error }] object a supabase query resolves to. *)
Record Response (A : Type) : Type := { data : option A; error : option PgError }.
Arguments data {A} _.
Arguments error {A} _.

(** The remote data service behind the supabase client: each request maps
    the state of the service to a response and a new state. *)
Class Backend (Remote : Type) : Type := {
  (** [from('streams').select('*').eq('user_id', u).order('created_at', ...)] *)
  selectStreams : UserId -> Remote -> Response (list Stream) * Remote;
  (** [from('streams').insert(row).select()] *)
  insertStream : Stream -> Remote -> Response (list Stream) * Remote;
  (** [from('streams').update(updates).eq('id', id).select()] *)
  updateRow : Z -> StreamPatch -> Remote -> Response (list Stream) * Remote;
  (** [from('streams').delete().eq('id', id)] *)
  deleteRow : Z -> Remote -> Response unit * Remote
}.

(** A request sent over the network, with the response it got. *)
Inductive NetCall : Type :=
  | NetSelect (userId : UserId) (resp : Response (list Stream))
  | NetInsert (row : Stream) (resp : Response (list Stream))
  | NetUpdate (rowId : Z) (updates : StreamPatch) (resp : Response (list Stream))
  | NetDelete (rowId : Z) (resp : Response unit).

Inductive Exn : Type :=
  | NotConfiguredError          (* new Error('Supabase not configured') *)
  | RemoteError (e : PgError)   (* the error of a response, thrown *)
  | RangeError                  (* toISOString of an invalid date *)
  | TypeError                   (* calling a method a value does not have *)
  | QuotaExceededError.         (* localStorage.setItem *)

Inductive ConsoleMsg : Type :=
  | ConsoleError (text : string) (e : Exn)
  | ConsoleLog (text : string).

Inductive Toast : Type :=
  | ToastSuccess (text : string)
  | ToastError (text : string).

Inductive Result (A : Type) : Type :=
  | Ok (a : A)
  | Throw (e : Exn).
Arguments Ok {A} a.
Arguments Throw {A} e.

Section World.
Context {Remote : Type}.

(** Everything the handlers read and write. *)
Record World : Type := {
  (** [supabase]: [true] when [createSupabaseClient()] returned a client,
      [false] when it returned [null]. *)
  supabase : bool;
  remote : Remote;
  (** requests sent so far, oldest first *)
  net : list NetCall;
  console : list ConsoleMsg;
  toasts : list Toast;
  (** the [aurelius-streams] slot of localStorage; [None] when not set *)
  storedStreams : option (list Stream);
  (** whether [localStorage.setItem] accepts a value (else it throws) *)
  storageFits : list Stream -> bool;
  (** the reading of the system clock at its n-th use, and the uses so far *)
  clock : nat -> Z;
  ticks : nat;
  (** state of the [Home] page *)
  streams : list Stream;
  user : option UserId;
  editingStream : option Stream
}.

Definition M (A : Type) : Type := World -> Result A * World.

Definition ret {A} (a : A) : M A := fun w => (Ok a, w).

Definition bind {A B} (m : M A) (k : A -> M B) : M B :=
  fun w =>
    match m w with
    | (Ok a, w') => k a w'
    | (Throw e, w') => (Throw e, w')
    end.

Definition throw {A} (e : Exn) : M A := fun w => (Throw e, w).

(** [try { body } catch (error) { handler error }] *)
Definition tryCatch {A} (body : M A) (handler : Exn -> M A) : M A :=
  fun w =>
    match body w with
    | (Ok a, w') => (Ok a, w')
    | (Throw e, w') => handler e w'
    end.

Definition gets {A} (f : World -> A) : M A := fun w => (Ok (f w), w).

Definition modify (f : World -> World) : M unit := fun w => (Ok tt, f w).

End World.
Arguments World Remote : clear implicits.
Arguments M Remote A : clear implicits.


#[global] Instance M_ret {Remote} : MRet (M Remote) := @ret Remote.
#[global] Instance M_bind {Remote} : MBind (M Remote) :=
  fun A B k m => bind m k.

Section Primitives.
Context {Remote : Type} {backend : Backend Remote}.

Definition setRemote (r : Remote) (c : NetCall) (w : World Remote) : World Remote :=
  {| supabase := supabase w; remote := r; net := net w ++ [c];
     console := console w; toasts := toasts w;
     storedStreams := storedStreams w; storageFits := storageFits w;
     clock := clock w; ticks := ticks w; streams := streams w;
     user := user w; editingStream := editingStream w |}.

Definition addConsole (c : ConsoleMsg) (w : World Remote) : World Remote :=
  {| supabase := supabase w; remote := remote w; net := net w;
     console := console w ++ [c]; toasts := toasts w;
     storedStreams := storedStreams w; storageFits := storageFits w;
     clock := clock w; ticks := ticks w; streams := streams w;
     user := user w; editingStream := editingStream w |}.

Definition addToast (t : Toast) (w : World Remote) : World Remote :=
  {| supabase := supabase w; remote := remote w; net := net w;
     console := console w; toasts := toasts w ++ [t];
     storedStreams := storedStreams w; storageFits := storageFits w;
     clock := clock w; ticks := ticks w; streams := streams w;
     user := user w; editingStream := editingStream w |}.

Definition setStored (l : list Stream) (w : World Remote) : World Remote :=
  {| supabase := supabase w; remote := remote w; net := net w;
     console := console w; toasts := toasts w;
     storedStreams := Some l; storageFits := storageFits w;
     clock := clock w; ticks := ticks w; streams := streams w;
     user := user w; editingStream := editingStream w |}.

Definition tick (w : World Remote) : World Remote :=
  {| supabase := supabase w; remote := remote w; net := net w;
     console := console w; toasts := toasts w;
     storedStreams := storedStreams w; storageFits := storageFits w;
     clock := clock w; ticks := S (ticks w); streams := streams w;
     user := user w; editingStream := editingStream w |}.

(** The same world with [u] as the signed-in user. *)
Definition putUser (u : option UserId) (w : World Remote) : World Remote :=
  {| supabase := supabase w; remote := remote w; net := net w;
     console := console w; toasts := toasts w;
     storedStreams := storedStreams w; storageFits := storageFits w;
     clock := clock w; ticks := ticks w; streams := streams w;
     user := u; editingStream := editingStream w |}.

Definition putStreams (l : list Stream) (w : World Remote) : World Remote :=
  {| supabase := supabase w; remote := remote w; net := net w;
     console := console w; toasts := toasts w;
     storedStreams := storedStreams w; storageFits := storageFits w;
     clock := clock w; ticks := ticks w; streams := l;
     user := user w; editingStream := editingStream w |}.

Definition putEditing (e : option Stream) (w : World Remote) : World Remote :=
  {| supabase := supabase w; remote := remote w; net := net w;
     console := console w; toasts := toasts w;
     storedStreams := storedStreams w; storageFits := storageFits w;
     clock := clock w; ticks := ticks w; streams := streams w;
     user := user w; editingStream := e |}.

(** [console.error(text, e)], [console.log(text)], [toast.success(text)],
    [toast.error(text)] *)
Definition consoleError (text : string) (e : Exn) : M Remote unit :=
  modify (addConsole (ConsoleError text e)).
Definition consoleLog (text : string) : M Remote unit :=
  modify (addConsole (ConsoleLog text)).
Definition toastSuccess (text : string) : M Remote unit :=
  modify (addToast (ToastSuccess text)).
Definition toastError (text : string) : M Remote unit :=
  modify (addToast (ToastError text)).

(** [new Date()] and [Date.now()]: the next reading of the clock. *)
Definition now : M Remote Z :=
  fun w => (Ok (clock w (ticks w)), tick w).

(** [localStorage.setItem('aurelius-streams', JSON.stringify(l))]; the
    streams of the model survive [JSON.stringify] and [JSON.parse]
    unchanged. *)
Definition setItem (l : list Stream) : M Remote unit :=
  fun w =>
    if storageFits w l then (Ok tt, setStored l w)
    else (Throw QuotaExceededError, w).

(** [setStreams(l)] of the [Home] page, [setEditingStream(e)] *)
Definition setStreams (l : list Stream) : M Remote unit := modify (putStreams l).
Definition setEditingStream (e : option Stream) : M Remote unit :=
  modify (putEditing e).

(** One request to the remote service, recorded in [net]. *)
Definition request {A} (send : Remote -> Response A * Remote)
    (record : Response A -> NetCall) : M Remote (Response A) :=
  fun w =>
    let '(resp, r) := send (remote w) in
    (Ok resp, setRemote r (record resp) w).

(** [for (const x of l) { await body x }] *)
Fixpoint forOf {A} (l : list A) (body : A -> M Remote unit) : M Remote unit :=
  match l with
  | [] => mret tt
  | x :: rest => body x;; forOf rest body
  end.

(** [l.map(f)] for a callback with effects *)
Fixpoint mapM {A B} (f : A -> M Remote B) (l : list A) : M Remote (list B) :=
  match l with
  | [] => mret []
  | x :: rest => y ← f x; ys ← mapM f rest; mret (y :: ys)
  end.

End Primitives.

(* ===================================================================== *)
(** * lib/supabase.js: the remote mirror client *)
(* ===================================================================== *)

Module dbHelpers.
Section dbHelpers.
Context {Remote : Type} {backend : Backend Remote}.

Definition getStreams (userId : UserId) : M Remote (list Stream) :=
  sb ← gets supabase;
  if negb sb then mret []
  else
    resp ← request (selectStreams userId) (NetSelect userId);
    match error resp with
    | Some e =>
        consoleError "Error fetching streams:" (RemoteError e);;
        mret []
    | None => mret (default [] (data resp))
    end.

Definition createStream (streamData : Stream) : M Remote (option (list Stream)) :=
  sb ← gets supabase;
  if negb sb then throw NotConfiguredError
  else
    resp ← request (insertStream streamData) (NetInsert streamData);
    match error resp with
    | Some e => throw (RemoteError e)
    | None => mret (data resp)
    end.

Definition updateStream (rowId : Z) (updates : StreamPatch)
    : M Remote (option (list Stream)) :=
  sb ← gets supabase;
  if negb sb then throw NotConfiguredError
  else
    resp ← request (updateRow rowId updates) (NetUpdate rowId updates);
    match error resp with
    | Some e => throw (RemoteError e)
    | None => mret (data resp)
    end.

Definition deleteStream (rowId : Z) : M Remote bool :=
  sb ← gets supabase;
  if negb sb then throw NotConfiguredError
  else
    resp ← request (deleteRow rowId) (NetDelete rowId);
    match error resp with
    | Some e => throw (RemoteError e)
    | None => mret true
    end.

(** The body of the loop of [syncLocalData]:
    [if (!dbStreamIds.has(stream.id)) { await this.createStream({
    ...stream, user_id: userId }) }]. *)
Definition uploadIfNew (userId : UserId) (dbStreamIds : gset Z) (stream : Stream)
    : M Remote unit :=
  if bool_decide (id stream ∈ dbStreamIds) then mret tt
  else createStream (withUser userId stream);; mret tt.

Definition syncLocalData (userId : UserId) (localStreams : list Stream)
    : M Remote unit :=
  sb ← gets supabase;
  if negb sb then mret tt
  else
    tryCatch
      (dbStreams ← getStreams userId;
       let dbStreamIds : gset Z := list_to_set (id <$> dbStreams) in
       forOf localStreams (uploadIfNew userId dbStreamIds);;
       consoleLog "Data synced successfully")
      (fun e => consoleError "Error syncing data:" e).

End dbHelpers.
End dbHelpers.

(* ===================================================================== *)
(** * pages/index.tsx: the record store of the [Home] page *)
(* ===================================================================== *)

Module Home.
Section Home.
Context {Remote : Type} {backend : Backend Remote} {host : Host}.

(** [calculateStats] only derives the counters shown on the dashboard; of
    its effects the model keeps the clock reading of [new Date()]. *)
Definition calculateStats (streamData : list Stream) : M Remote unit :=
  now;; mret tt.

(** The handlers run in the browser, where [window] is defined; the slot
    holds what [setItem] wrote, so [JSON.parse] does not throw. *)
Definition loadStreams : M Remote unit :=
  savedStreams ← gets storedStreams;
  match savedStreams with
  | Some parsedStreams =>
      setStreams parsedStreams;;
      calculateStats parsedStreams
  | None => mret tt
  end.

Definition saveStreams (newStreams : list Stream) : M Remote unit :=
  tryCatch
    (setItem newStreams;;
     setStreams newStreams;;
     calculateStats newStreams)
    (fun e =>
       consoleError "Error saving streams:" e;;
       toastError "Failed to save streams").

(** The callback of [streams.map] in [completeStream]:
    [stream.id === streamId ? { ...stream, status: 'completed',
    completed_at: new Date().toISOString() } : stream]. *)
Definition completeOne (streamId : Z) (stream : Stream) : M Remote Stream :=
  if bool_decide (id stream = streamId)
  then t ← now; mret (markCompleted t stream)
  else mret stream.

Definition completeStream (streamId : Z) : M Remote unit :=
  current ← gets streams;
  updatedStreams ← mapM (completeOne streamId) current;
  saveStreams updatedStreams;;
  toastSuccess "Stream completed successfully! ✨".

(** [dueDate.toISOString()]: throws on an invalid date. *)
Definition toISOString (tv : option Z) : M Remote Z :=
  match tv with
  | Some t => mret t
  | None => throw RangeError
  end.

(** The object literal [newStream] of [createStream], from the form data
    and the three values read off the clock. *)
Definition newStreamOf (streamData : StreamDraft) (newId due created : Z) : Stream :=
  {| id := newId;
     agency_name := d_agency_name streamData;
     due_date := Some due;
     priority := d_priority streamData;
     stream_type := d_stream_type streamData;
     notes := d_notes streamData;
     status := active;
     created_at := created;
     completed_at := None;
     items := default [] (d_items streamData);
     user_id := None;
     model_ig_handle := None |}.

Definition createStream (streamData : StreamDraft) : M Remote unit :=
  dueDate ← now;
  let dueDate' := setDate dueDate (getDate dueDate + d_due_days streamData) in
  newId ← now;
  due ← toISOString dueDate';
  created ← now;
  let newStream := newStreamOf streamData newId due created in
  current ← gets streams;
  let updatedStreams := current ++ [newStream] in
  saveStreams updatedStreams;;
  u ← gets user;
  sb ← gets supabase;
  synced ←
    (match u with
     | Some uid =>
         if (sb : bool) then
           tryCatch
             (dbHelpers.createStream (withUser uid newStream);; mret true)
             (fun e =>
                consoleError "Error saving to database:" e;;
                toastError "Saved locally, but failed to sync to cloud";;
                mret false)
         else mret true
     | None => mret true
     end : M Remote bool);
  if (synced : bool) then toastSuccess "Stream created successfully! ✨"
  else mret tt.

Definition updateStream (streamData : StreamPatch) : M Remote unit :=
  current ← gets streams;
  editing ← gets editingStream;
  let updatedStreams :=
    map (fun stream =>
           if bool_decide (Some (id stream) = id <$> editing)
           then applyPatch streamData stream
           else stream) current in
  saveStreams updatedStreams;;
  u ← gets user;
  sb ← gets supabase;
  (match u, editing with
   | Some _, Some e =>
       if (sb : bool) then
         tryCatch
           (dbHelpers.updateStream (id e) streamData;; mret tt)
           (fun err =>
              consoleError "Error updating in database:" err;;
              toastError "Updated locally, but failed to sync to cloud")
       else mret tt
   | _, _ => mret tt
   end : M Remote unit);;
  setEditingStream None;;
  toastSuccess "Stream updated successfully! ✨".

Definition deleteStream (streamId : Z) : M Remote unit :=
  current ← gets streams;
  let updatedStreams :=
    filter (fun stream => id stream ≠ streamId) current in
  saveStreams updatedStreams;;
  u ← gets user;
  sb ← gets supabase;
  (match u with
   | Some _ =>
       if (sb : bool) then
         tryCatch
           (dbHelpers.deleteStream streamId;; mret tt)
           (fun err =>
              consoleError "Error deleting from database:" err;;
              toastError "Deleted locally, but failed to sync to cloud")
       else mret tt
   | None => mret tt
   end : M Remote unit);;
  toastSuccess "Stream deleted successfully! ✨".

Definition handleSync : M Remote unit := loadStreams.

End Home.
End Home.

(* ===================================================================== *)
(** * components/AccountManager.js: reconciliation *)
(* ===================================================================== *)

Module AccountManager.
Section AccountManager.
Context {Remote : Type} {backend : Backend Remote} {host : Host}.

(** [syncData], with the state of the component it reads ([user],
    [localStreams]) as arguments; [onSync] is [Home.handleSync]. *)
Definition syncData (user : option UserId) (localStreams : list Stream)
    : M Remote unit :=
  sb ← gets supabase;
  match user with
  | Some userId =>
      if negb sb then mret tt
      else
        tryCatch
          ((if bool_decide (0 < length localStreams)%nat then
              dbHelpers.syncLocalData userId localStreams;;
              toastSuccess "Data synced successfully!"
            else mret tt);;
           dbStreams ← dbHelpers.getStreams userId;
           (if bool_decide (0 < length dbStreams)%nat then
              setItem dbStreams;;
              toastSuccess "Data downloaded successfully!"
            else mret tt);;
           Home.handleSync)
          (fun e =>
             consoleError "Sync error:" e;;
             toastError "Failed to sync data")
  | None => mret tt
  end.

End AccountManager.
End AccountManager.

(* ===================================================================== *)
(** * components/CaptionGenerator.js: the caption template engine *)
(* ===================================================================== *)

Module CaptionGenerator.

(** An agency profile, as [AgencyTemplates] stores it. *)
Record Agency : Type := {
  agency_id : Z;
  name : jsstring;
  templates : gmap jsstring jsstring
}.

(** The keys of the [generatedCaptions] object: [all_items], or the id of
    an item. *)
Inductive CaptionKey : Type :=
  | all_items
  | itemKey (itemId : Z).

#[global] Instance CaptionKey_eq_dec : EqDecision CaptionKey.
Proof. solve_decision. Defined.

#[global] Instance CaptionKey_countable : Countable CaptionKey :=
  inj_countable'
    (fun k => match k with all_items => None | itemKey i => Some i end)
    (fun o => match o with None => all_items | Some i => itemKey i end)
    (fun k => match k with all_items => eq_refl | itemKey _ => eq_refl end).

(** The props and state of the component.  [selectedAgency] is the value of
    the agency select: [None] for the empty string of the default entry,
    [Some n] for an entry whose value [parseInt] reads as [n]. *)
Record State : Type := {
  selectedPlatform : jsstring;
  selectedAgency : option Z;
  agencies : list Agency;
  streamData : option Stream;
  generatedCaptions : gmap CaptionKey jsval;
  cg_console : list ConsoleMsg;
  cg_toasts : list Toast
}.

(** The ids of the [PLATFORMS] the component offers. *)
Definition PLATFORMS : list jsstring :=
  [str "imvu_feed"; str "ig_feed"; str "request"; str "end_stream"].

Definition nl : jsstring := ["010"%char].

Definition defaultTemplates : gmap jsstring jsstring :=
  list_to_map
    [ (str "imvu_feed",
       str "⚜️{agency_name}⚜️ present Shop Stream @{creator_imvu_avatar}" ++ nl ++ nl
       ++ str "❤️ Product name(s): {item_names}" ++ nl
       ++ str "❤️ Product ID(s): {product_ids}" ++ nl
       ++ str "❤️ Shop ID: {creator_shop_id}");
      (str "ig_feed",
       str "{agency_name} present Shop Stream Creator {creator_imvu_avatar} | @{creator_ig_handle}" ++ nl ++ nl
       ++ str "#shop{creator_imvu_avatar}" ++ nl ++ nl
       ++ str "❤️ Product name: {item_name}" ++ nl
       ++ str "❤️ Product ID: {product_id}" ++ nl
       ++ str "❤️ Shop ID: {creator_shop_id}" ++ nl
       ++ str "❤️ @{agency_ig_handle}" ++ nl
       ++ str "❤️ Model: @{model_ig_handle}" ++ nl ++ nl
       ++ str "#imvu #creator #{agency_hashtag} #imvumodelagency #imvustreamer #imvustreaming #imvumodel #imvumodels #imvucollaboration #imvufashion #imvulifestyle #imvupictureperfect #imvuphoto #imvuinstagram #imvushop #imvuoutfits #imvustyle #imvustudiobeta #imvubeauty #imvudiscover #imvudiscoverfeed #imvuavi #welovecreativity");
      (str "request",
       str "Hi @{creator_imvu_avatar}! I'd love to showcase {item_name} in my next stream. Product ID: {product_id}");
      (str "end_stream",
       str "Thank you for watching! Don't forget to check out {item_name} by @{creator_imvu_avatar} - {product_id}") ].

(** [templates[platform] || ''] *)
Definition getDefaultTemplate (platform : jsstring) : jsval :=
  jsOr (getProp defaultTemplates platform) (JString []).

(** [selectedPlatform === 'imvu_feed' || selectedPlatform === 'ig_feed'] *)
Definition isFeed (platform : jsstring) : bool :=
  bool_decide (platform = str "imvu_feed") || bool_decide (platform = str "ig_feed").

Section Render.
Context {host : Host}.

(** The template of the selected agency, or else the default one (the
    first lines of [generateCaptionForItem] and of
    [generateSingleCaptionForAllItems]). *)
Definition resolveTemplate (st : State) : jsval :=
  let template :=
    match selectedAgency st with
    | Some agencyId =>
        let agency :=
          List.find (fun a => bool_decide (agency_id a = agencyId)) (agencies st) in
        jsOr (match agency with
              | Some a => getProp (templates a) (selectedPlatform st)
              | None => JUndefined
              end) (JString [])
    | None => JString []
    end in
  if truthy template then template
  else getDefaultTemplate (selectedPlatform st).

(** [streamData.due_date ? new Date(streamData.due_date).toLocaleDateString() : ''] *)
Definition dueDateText (sd : Stream) : jsstring :=
  match due_date sd with
  | Some t => toLocaleDateString t
  | None => []
  end.

(** The [variables] object of [generateCaptionForItem], in the order of
    its keys. *)
Definition itemVariables (sd : Stream) (item : StreamItem)
    : list (jsstring * jsstring) :=
  [ (str "item_name", orDefault (Some (item_name item)) (str "Item"));
    (str "creator_name", orDefault (Some (creator_name item)) (str "Creator"));
    (str "creator_imvu_avatar", orDefault (creator_imvu_avatar item) (str "Creator"));
    (str "creator_ig_handle", orDefault (creator_ig_handle item) []);
    (str "creator_ig_shop_handle", orDefault (creator_ig_shop_handle item) []);
    (str "product_id", orDefault (product_id item) []);
    (str "agency_name", orDefault (agency_name sd) (str "Agency"));
    (str "stream_type", orDefault (stream_type sd) (str "showcase"));
    (str "due_date", dueDateText sd) ].

(** A value that is no string has no [replace] method. *)
Definition generateCaptionForItem (st : State) (item : StreamItem)
    : Result jsstring :=
  match resolveTemplate st, streamData st with
  | JString template, Some sd => Ok (substitute (itemVariables sd item) template)
  | _, _ => Throw TypeError
  end.

(** The [basicVariables] object of [generateSingleCaptionForAllItems], in
    the order in which its keys are added. *)
Definition basicVariables (platform : jsstring) (sd : Stream)
    : list (jsstring * jsstring) :=
  let firstItem := head (items sd) in
  [ (str "agency_name", orDefault (agency_name sd) (str "Agency"));
    (str "stream_type", orDefault (stream_type sd) (str "showcase"));
    (str "due_date", dueDateText sd);
    (str "creator_imvu_avatar",
     orDefault (firstItem ≫= creator_imvu_avatar) (str "Creator"));
    (str "creator_ig_handle", orDefault (firstItem ≫= creator_ig_handle) []);
    (str "creator_shop_id", orDefault (firstItem ≫= creator_id) []);
    (str "agency_ig_handle",
     match agency_name sd with
     | Some (c :: r) =>
         str "@" ++ underscoreSpaces (toLowerCase (c :: r)) ++ str "_agency"
     | _ => str "@agency"
     end);
    (str "agency_hashtag",
     match agency_name sd with
     | Some (c :: r) =>
         underscoreSpaces (toUpperCase (c :: r)) ++ str "_MODELING_AGENCY"
     | _ => str "AGENCY"
     end);
    (str "model_ig_handle", orDefault (model_ig_handle sd) (str "@model_handle")) ]
  ++
  (if bool_decide (platform = str "imvu_feed") then
     [ (str "item_names",
        join (str ", ") (map (fun item => Some (item_name item)) (items sd)));
       (str "product_ids",
        join (str ", ") (map (fun item => product_id item) (items sd))) ]
   else
     [ (str "item_name",
        orDefault (item_name <$> firstItem) (str "Item"));
       (str "product_id", orDefault (firstItem ≫= product_id) []) ]).

Definition generateSingleCaptionForAllItems (st : State) : Result jsval :=
  match streamData st with
  | None => Ok (JString [])
  | Some sd =>
      let template := resolveTemplate st in
      if isFeed (selectedPlatform st) then
        match template with
        | JString caption =>
            Ok (JString (substitute (basicVariables (selectedPlatform st) sd) caption))
        | _ => Throw TypeError
        end
      else Ok template
  end.

Definition setGeneratedCaptions (c : gmap CaptionKey jsval) (st : State) : State :=
  {| selectedPlatform := selectedPlatform st;
     selectedAgency := selectedAgency st; agencies := agencies st;
     streamData := streamData st; generatedCaptions := c;
     cg_console := cg_console st; cg_toasts := cg_toasts st |}.

(** The [catch] block of [generateCaptions]. *)
Definition failed (e : Exn) (st : State) : State :=
  {| selectedPlatform := selectedPlatform st;
     selectedAgency := selectedAgency st; agencies := agencies st;
     streamData := streamData st; generatedCaptions := generatedCaptions st;
     cg_console := cg_console st ++ [ConsoleError "Error generating captions:" e];
     cg_toasts := cg_toasts st ++ [ToastError "Failed to generate captions"] |}.

(** The loop [for (const item of streamData.items) { captions[item.id] =
    await generateCaptionForItem(item) }] over the local object
    [captions]. *)
Fixpoint captionLoop (st : State) (l : list StreamItem)
    (captions : gmap CaptionKey jsval) : Result (gmap CaptionKey jsval) :=
  match l with
  | [] => Ok captions
  | item :: rest =>
      match generateCaptionForItem st item with
      | Ok caption =>
          captionLoop st rest (<[itemKey (item_id item) := JString caption]> captions)
      | Throw e => Throw e
      end
  end.

(** [generateCaptions]; the [loading] flag is not modelled. *)
Definition generateCaptions (st : State) : State :=
  match streamData st with
  | None => st
  | Some sd =>
      if isFeed (selectedPlatform st) then
        match generateSingleCaptionForAllItems st with
        | Ok singleCaption => setGeneratedCaptions {[ all_items := singleCaption ]} st
        | Throw e => failed e st
        end
      else
        match captionLoop st (items sd) ∅ with
        | Ok captions => setGeneratedCaptions captions st
        | Throw e => failed e st
        end
  end.

End Render.
End CaptionGenerator.

(* ===================================================================== *)
(** * Reading aids for the statements below *)
(* ===================================================================== *)

(** ** Templates as token lists

    The reading of a template the specification has in mind: text with
    [{name}] placeholders, every placeholder filled in one simultaneous
    pass, nothing scanned twice. *)
Module TemplateSpec.

Inductive Token : Type :=
  | Text (s : jsstring)
  | Hole (name : jsstring).

Definition tokenText (tok : Token) : jsstring :=
  match tok with
  | Text s => s
  | Hole k => placeholder k
  end.

Definition templateText (toks : list Token) : jsstring :=
  concat (map tokenText toks).

(** The value of the first variable named [k]. *)
Fixpoint lookupVar (vars : list (jsstring * jsstring)) (k : jsstring)
    : option jsstring :=
  match vars with
  | [] => None
  | (k', v) :: rest => if bool_decide (k' = k) then Some v else lookupVar rest k
  end.

Definition fillToken (vars : list (jsstring * jsstring)) (tok : Token) : Token :=
  match tok with
  | Text s => Text s
  | Hole k =>
      match lookupVar vars k with
      | Some v => Text v
      | None => Hole k
      end
  end.

(** Simultaneous substitution: every placeholder with a variable becomes
    that variable's value, every other token stays. *)
Definition specRender (vars : list (jsstring * jsstring)) (toks : list Token)
    : jsstring :=
  templateText (map (fillToken vars) toks).

Definition hasChar (c : ascii) (s : jsstring) : bool := existsb (Ascii.eqb c) s.

(** Text without an opening brace; names without braces. *)
Definition wfToken (tok : Token) : bool :=
  match tok with
  | Text s => negb (hasChar "{" s)
  | Hole k => negb (hasChar "{" k) && negb (hasChar "}" k)
  end.

Definition wfTemplate (toks : list Token) : bool := forallb wfToken toks.

(** A variable whose name has no brace and whose value has neither an
    opening brace nor a dollar sign. *)
Definition plainVar (kv : jsstring * jsstring) : bool :=
  negb (hasChar "{" kv.1) && negb (hasChar "}" kv.1)
  && negb (hasChar "{" kv.2) && negb (hasChar "$" kv.2).

Definition plainVars (vars : list (jsstring * jsstring)) : bool :=
  forallb plainVar vars.

End TemplateSpec.

(** ** Traces of requests *)

(** What the caller of [getStreams] gets from a response. *)
Definition rowsOf (resp : Response (list Stream)) : list Stream :=
  match error resp with
  | Some _ => []
  | None => default [] (data resp)
  end.

(** The rows of the [insert] requests of a trace, in order. *)
Definition creates (t : list NetCall) : list Stream :=
  omap (fun c => match c with NetInsert row _ => Some row | _ => None end) t.

(** The results of the [select] requests of a trace, in order. *)
Definition fetches (t : list NetCall) : list (list Stream) :=
  omap (fun c => match c with NetSelect _ resp => Some (rowsOf resp) | _ => None end) t.

(** The remote service accepts the rows [rows], inserted one after the
    other from the state [r]; and the state it is in afterwards. *)
Fixpoint accepts {Remote : Type} {backend : Backend Remote}
    (rows : list Stream) (r : Remote) : Prop :=
  match rows with
  | [] => True
  | row :: rest =>
      error (insertStream row r).1 = None
      /\ accepts rest (insertStream row r).2
  end.


(** The requests of the push phase from the state [r] of the remote
    service, and the state it is in afterwards: the rows are inserted one
    after the other, up to and including the first one that is refused. *)
Fixpoint pushTrace {Remote : Type} {backend : Backend Remote}
    (rows : list Stream) (r : Remote) : list NetCall * Remote :=
  match rows with
  | [] => ([], r)
  | row :: rest =>
      let out := insertStream row r in
      match error out.1 with
      | Some _ => ([NetInsert row out.1], out.2)
      | None =>
          (NetInsert row out.1 :: (pushTrace rest out.2).1, (pushTrace rest out.2).2)
      end
  end.

(** Two worlds that differ at most in the remote service, the requests
    sent and the console. *)
Definition sameApp {Remote : Type} (w w' : World Remote) : Prop :=
  supabase w' = supabase w /\ toasts w' = toasts w
  /\ storedStreams w' = storedStreams w /\ storageFits w' = storageFits w
  /\ clock w' = clock w /\ ticks w' = ticks w /\ streams w' = streams w
  /\ user w' = user w /\ editingStream w' = editingStream w.

(* ===================================================================== *)
(** * Strings: white space, [trim] and searches for digits

    Strings are UTF-8 bytes.  The patterns searched for below are ASCII,
    and an ASCII byte is never part of the encoding of another character,
    so a search byte by byte finds what the search of the engine finds. *)
(* ===================================================================== *)

Module JsText.

(** WhiteSpace and LineTerminator of ECMA-262 (12.2, 12.3), in UTF-8: TAB,
    LF, VT, FF, CR, SP, U+00A0, U+1680, U+2000 to U+200A, U+2028, U+2029,
    U+202F, U+205F, U+3000, U+FEFF. *)
Definition whiteSpace : list jsstring :=
  [ ["009"]; ["010"]; ["011"]; ["012"]; ["013"]; ["032"];
    ["194"; "160"];
    ["225"; "154"; "128"];
    ["226"; "128"; "128"]; ["226"; "128"; "129"]; ["226"; "128"; "130"];
    ["226"; "128"; "131"]; ["226"; "128"; "132"]; ["226"; "128"; "133"];
    ["226"; "128"; "134"]; ["226"; "128"; "135"]; ["226"; "128"; "136"];
    ["226"; "128"; "137"]; ["226"; "128"; "138"];
    ["226"; "128"; "168"]; ["226"; "128"; "169"];
    ["226"; "128"; "175"];
    ["226"; "129"; "159"];
    ["227"; "128"; "128"];
    ["239"; "187"; "191"] ]%char.

(** The text after the white space character [s] starts with, if it starts
    with one; [spaces] are the encodings to look for. *)
Definition afterSpace (spaces : list jsstring) (s : jsstring) : option jsstring :=
  (fun ws => drop (length ws) s) <$> List.find (fun ws => isPrefix ws s) spaces.

Fixpoint dropSpaces (fuel : nat) (spaces : list jsstring) (s : jsstring) : jsstring :=
  match fuel with
  | O => s
  | S fuel' =>
      match afterSpace spaces s with
      | Some rest => dropSpaces fuel' spaces rest
      | None => s
      end
  end.

Definition trimStart (s : jsstring) : jsstring := dropSpaces (length s) whiteSpace s.

Definition trimEnd (s : jsstring) : jsstring :=
  rev (dropSpaces (length s) (map (@rev ascii) whiteSpace) (rev s)).

(** [String.prototype.trim] *)
Definition trim (s : jsstring) : jsstring := trimEnd (trimStart s).

(** [\d] *)
Definition isDigit (c : ascii) : bool :=
  (Nat.leb 48 (nat_of_ascii c) && Nat.leb (nat_of_ascii c) 57)%bool.

(** The longest run of digits [s] starts with. *)
Fixpoint takeDigits (s : jsstring) : jsstring :=
  match s with
  | c :: r => if isDigit c then c :: takeDigits r else []
  | [] => []
  end.

(** [s.match(/lit(\d+)/)], for a literal [lit] that is not empty: the
    capture of the leftmost match. *)
Fixpoint searchDigits (lit s : jsstring) : option jsstring :=
  match s with
  | [] => None
  | _ :: r =>
      if isPrefix lit s then
        match takeDigits (drop (length lit) s) with
        | [] => searchDigits lit r
        | d => Some d
        end
      else searchDigits lit r
  end.

(** [s] starts with a line terminator: the characters [.] does not
    match. *)
Definition lineTerminatorAt (s : jsstring) : bool :=
  existsb (fun t => isPrefix t s)
    [ ["010"]; ["013"]; ["226"; "128"; "168"]; ["226"; "128"; "169"] ]%char.

(** [.*lit(\d+)] matched from the start of [s]: the star is greedy, so the
    capture is the one of the last place the literal and a digit can be
    reached without crossing a line terminator. *)
Fixpoint greedyTail (lit s : jsstring) : option jsstring :=
  let here :=
    if isPrefix lit s then
      match takeDigits (drop (length lit) s) with
      | [] => None
      | d => Some d
      end
    else None in
  match s with
  | [] => here
  | _ :: r =>
      match (if lineTerminatorAt s then None else greedyTail lit r) with
      | Some d => Some d
      | None => here
      end
  end.

(** [s.match(/first.*lit(\d+)/)]: the capture of the leftmost match. *)
Fixpoint searchAfter (first lit s : jsstring) : option jsstring :=
  match s with
  | [] => None
  | _ :: r =>
      if isPrefix first s then
        match greedyTail lit (drop (length first) s) with
        | Some d => Some d
        | None => searchAfter first lit r
        end
      else searchAfter first lit r
  end.

End JsText.

(* ===================================================================== *)
(** * A browser in UTC and a remote table in memory

    Concrete instances of [Host] and [Backend], used to run the handlers
    on examples. *)
(* ===================================================================== *)

Module Instances.

(** [s.replace(/\s+/g, '_')]: every run of white space ([\s] is the
    white space and the line terminators of [JsText.whiteSpace]) becomes
    one underscore. *)
Fixpoint underscoreFrom (fuel : nat) (inRun : bool) (s : jsstring) : jsstring :=
  match fuel with
  | O => s
  | S fuel' =>
      match JsText.afterSpace JsText.whiteSpace s with
      | Some rest =>
          if inRun then underscoreFrom fuel' true rest
          else "_"%char :: underscoreFrom fuel' true rest
      | None =>
          match s with
          | [] => []
          | c :: r => c :: underscoreFrom fuel' false r
          end
      end
  end.

Definition underscoreRuns (s : jsstring) : jsstring :=
  underscoreFrom (S (length s)) false s.

(** [toLowerCase] and [toUpperCase] on ASCII text, where the letters A to
    Z and a to z are the only characters with another case; the names of
    the examples are ASCII. *)
Definition asciiLower (c : ascii) : ascii :=
  let n := nat_of_ascii c in
  if (Nat.leb 65 n && Nat.leb n 90)%bool then ascii_of_nat (n + 32) else c.

Definition asciiUpper (c : ascii) : ascii :=
  let n := nat_of_ascii c in
  if (Nat.leb 97 n && Nat.leb n 122)%bool then ascii_of_nat (n - 32) else c.

Definition digit (n : Z) : ascii := ascii_of_nat (48 + Z.to_nat n).

Fixpoint decimalDigits (fuel : nat) (n : Z) (acc : jsstring) : jsstring :=
  match fuel with
  | O => acc
  | S f =>
      if n <? 10 then digit n :: acc
      else decimalDigits f (n / 10) (digit (n mod 10) :: acc)
  end.

Definition decimal (n : Z) : jsstring := decimalDigits 20 n [].

(** The en-US date of a time value, in UTC: month/day/year. *)
Definition usDate (t : Z) : jsstring :=
  decimal (MonthFromTime t + 1) ++ str "/" ++ decimal (DateFromTime t)
    ++ str "/" ++ decimal (YearFromTime t).

#[local] Instance utcHost : Host := {|
  LocalTZA := fun _ _ => 0;
  toLocaleDateString := usDate;
  toLowerCase := map asciiLower;
  toUpperCase := map asciiUpper;
  underscoreSpaces := underscoreRuns
|}.

(** The remote table: its rows, newest [created_at] first. *)
Fixpoint insertRow (row : Stream) (table : list Stream) : list Stream :=
  match table with
  | [] => [row]
  | x :: rest =>
      if created_at x <? created_at row then row :: x :: rest
      else x :: insertRow row rest
  end.

Definition ownedBy (u : UserId) (row : Stream) : bool :=
  bool_decide (user_id row = Some u).

Definition hasId (i : Z) (row : Stream) : bool := bool_decide (id row = i).

(** [id] is the primary key of the table: a second row with the id of an
    existing one is refused. *)
#[local] Instance memoryBackend : Backend (list Stream) := {|
  selectStreams := fun u table =>
    ({| data := Some (List.filter (ownedBy u) table); error := None |}, table);
  insertStream := fun row table =>
    if existsb (hasId (id row)) table then
      ({| data := None;
          error := Some {| message := "duplicate key value violates unique constraint" |} |},
       table)
    else ({| data := Some [row]; error := None |}, insertRow row table);
  updateRow := fun i p table =>
    ({| data := Some (map (applyPatch p) (List.filter (hasId i) table)); error := None |},
     map (fun row => if hasId i row then applyPatch p row else row) table);
  deleteRow := fun i table =>
    ({| data := Some tt; error := None |},
     List.filter (fun row => negb (hasId i row)) table)
|}.

(** A signed-out page with nothing stored, whose clock shows
    [start], [start + 1], ... *)
Definition emptyWorld (configured : bool) (table : list Stream) (start : Z)
    : World (list Stream) :=
  {| supabase := configured; remote := table; net := [];
     console := []; toasts := [];
     storedStreams := None; storageFits := fun _ => true;
     clock := fun n => start + Z.of_nat n; ticks := 0;
     streams := []; user := None; editingStream := None |}.

Definition mkItem (i : Z) (itemName creatorName : string) : StreamItem :=
  {| item_id := i; item_name := str itemName; creator_name := str creatorName;
     creator_id := None; product_url := None; product_id := None;
     item_notes := None; creator_imvu_avatar := None;
     creator_ig_handle := None; creator_ig_shop_handle := None |}.

Definition mkStream (i created : Z) (owner : option UserId)
    (its : list StreamItem) : Stream :=
  {| id := i; agency_name := None; due_date := None; status := active;
     priority := medium; stream_type := None; notes := None;
     created_at := created; completed_at := None; items := its;
     user_id := owner; model_ig_handle := None |}.

(** An agency with one template, and a caption generator opened on a
    record. *)
Definition agencyWith (i : Z) (platform template : string)
    : CaptionGenerator.Agency :=
  {| CaptionGenerator.agency_id := i;
     CaptionGenerator.name := str "Aurelius";
     CaptionGenerator.templates := {[ str platform := str template ]} |}.

Definition openOn (platform : string) (agency : option Z)
    (ags : list CaptionGenerator.Agency) (sd : Stream) : CaptionGenerator.State :=
  {| CaptionGenerator.selectedPlatform := str platform;
     CaptionGenerator.selectedAgency := agency;
     CaptionGenerator.agencies := ags;
     CaptionGenerator.streamData := Some sd;
     CaptionGenerator.generatedCaptions := ∅;
     CaptionGenerator.cg_console := [];
     CaptionGenerator.cg_toasts := [] |}.

(** A record with the items "A" and "B" and an empty [stream_type]. *)
Definition recordAB : Stream :=
  {| id := 10; agency_name := None; due_date := None; status := active;
     priority := medium; stream_type := Some []; notes := None;
     created_at := 0; completed_at := None;
     items := [mkItem 1 "A" "Ann"; mkItem 2 "B" "Bob"];
     user_id := None; model_ig_handle := None |}.

(** The same record with the item "A" only. *)
Definition recordA : Stream :=
  {| id := 10; agency_name := None; due_date := None; status := active;
     priority := medium; stream_type := Some []; notes := None;
     created_at := 0; completed_at := None;
     items := [mkItem 1 "A" "Ann"];
     user_id := None; model_ig_handle := None |}.



(** A draft due in [n] days. *)
Definition draftDue (n : Z) : StreamDraft :=
  {| d_agency_name := None; d_due_days := n; d_priority := medium;
     d_stream_type := None; d_notes := None; d_items := None |}.

(** Three records [a], [b], [c] with the ids 1, 2, 3, and a page of a
    configured client whose remote table holds [b] and [c] for "user-1". *)
Definition recA : Stream := mkStream 1 10 None [].
Definition recB : Stream := mkStream 2 20 None [].
Definition recC : Stream := mkStream 3 30 None [].

Definition remoteBC : World (list Stream) :=
  emptyWorld true
    [withUser (str "user-1") recC; withUser (str "user-1") recB] 0.


End Instances.

(* ===================================================================== *)
(** * pages/index.tsx: the sign-in listener, and [createStream] on the
      data the stream form submits *)
(* ===================================================================== *)

(** [streamData.due_days] as [createStream] can receive it: the number the
    form starts with, or the string a [select] reports once the user has
    picked an option.  [DueString n] is the string of decimal digits that
    spells the natural number [n]. *)
Inductive DueDays : Type :=
  | DueNumber (n : Z)
  | DueString (n : N).

(** The number of decimal digits of [n]. *)
Definition decimalLength (n : N) : Z :=
  Z.of_nat (Decimal.nb_digits (N.to_uint n)).

(** The data [StreamForm] hands to [onSubmit]. *)
Record FormData : Type := {
  f_agency_name : option jsstring;
  f_due_days : DueDays;
  f_priority : Priority;
  f_stream_type : option jsstring;
  f_notes : option jsstring;
  f_items : option (list StreamItem)
}.

Module HomeMore.
Section HomeMore.
Context {Remote : Type} {backend : Backend Remote} {host : Host}.

(** [setUser(u)] of the [Home] page *)
Definition setUser (u : option UserId) : M Remote unit := modify (putUser u).

(** The callback given to [supabase.auth.onAuthStateChange]; [session] is
    the id of [session?.user]. *)
Definition onAuthStateChange (session : option UserId) : M Remote unit :=
  setUser session;;
  match session with
  | Some userId =>
      tryCatch
        (dbStreams ← dbHelpers.getStreams userId;
         if bool_decide (0 < length dbStreams)%nat then
           setStreams dbStreams;;
           Home.calculateStats dbStreams
         else mret tt)
        (fun e => consoleError "Error loading streams from database:" e)
  | None => mret tt
  end.

(** [dueDate.getDate() + streamData.due_days] as [setDate] reads it: a sum
    of numbers, or, for a string, the number spelled by the digits of the
    day of the month followed by the digits of the string. *)
Definition plusDueDays (date : Z) (v : DueDays) : Z :=
  match v with
  | DueNumber n => date + n
  | DueString n => date * 10 ^ decimalLength n + Z.of_N n
  end.

(** The object literal [newStream] of [createStream]. *)
Definition newStreamOf (streamData : FormData) (newId due created : Z) : Stream :=
  {| id := newId;
     agency_name := f_agency_name streamData;
     due_date := Some due;
     priority := f_priority streamData;
     stream_type := f_stream_type streamData;
     notes := f_notes streamData;
     status := active;
     created_at := created;
     completed_at := None;
     items := default [] (f_items streamData);
     user_id := None;
     model_ig_handle := None |}.

(** [createStream] of the page, on the data of the form. *)
Definition createStream (streamData : FormData) : M Remote unit :=
  dueDate ← now;
  let dueDate' := setDate dueDate (plusDueDays (getDate dueDate) (f_due_days streamData)) in
  newId ← now;
  due ← Home.toISOString dueDate';
  created ← now;
  let newStream := newStreamOf streamData newId due created in
  current ← gets streams;
  let updatedStreams := current ++ [newStream] in
  Home.saveStreams updatedStreams;;
  u ← gets user;
  sb ← gets supabase;
  synced ←
    (match u with
     | Some uid =>
         if (sb : bool) then
           tryCatch
             (dbHelpers.createStream (withUser uid newStream);; mret true)
             (fun e =>
                consoleError "Error saving to database:" e;;
                toastError "Saved locally, but failed to sync to cloud";;
                mret false)
         else mret true
     | None => mret true
     end : M Remote bool);
  if (synced : bool) then toastSuccess "Stream created successfully! ✨"
  else mret tt.

End HomeMore.
End HomeMore.

(* ===================================================================== *)
(** * components/AccountManager.js: clearing the local data *)
(* ===================================================================== *)

Module AccountManagerMore.
Section AccountManagerMore.
Context {Remote : Type}.

(** [localStorage.removeItem('aurelius-streams')] *)
Definition removeStored (w : World Remote) : World Remote :=
  {| supabase := supabase w; remote := remote w; net := net w;
     console := console w; toasts := toasts w;
     storedStreams := None; storageFits := storageFits w;
     clock := clock w; ticks := ticks w; streams := streams w;
     user := user w; editingStream := editingStream w |}.

(** [clearLocalData]; [confirmed] is the answer to the [confirm] dialog,
    the result is the new [localStreams] of the component. *)
Definition clearLocalData (confirmed : bool) (localStreams : list Stream)
    : M Remote (list Stream) :=
  if confirmed then
    modify removeStored;;
    toastSuccess "Local data cleared";;
    mret []
  else mret localStreams.

End AccountManagerMore.
End AccountManagerMore.

(** The local set is in step: the stored slot holds the list the page
    shows. *)
Definition inStep {Remote : Type} (w : World Remote) : Prop :=
  storedStreams w = Some (streams w).

(** Two worlds with the same local store and session: they differ at most
    in the remote service, the requests, the console, the toasts and the
    stream being edited. *)
Definition sameStore {Remote : Type} (w w' : World Remote) : Prop :=
  streams w' = streams w /\ storedStreams w' = storedStreams w
  /\ storageFits w' = storageFits w /\ user w' = user w
  /\ supabase w' = supabase w /\ clock w' = clock w /\ ticks w' = ticks w.

(** The rows of the [update] and [delete] requests of a trace. *)
Definition deletes (t : list NetCall) : list Z :=
  omap (fun c => match c with NetDelete i _ => Some i | _ => None end) t.

Definition updates (t : list NetCall) : list (Z * StreamPatch) :=
  omap (fun c => match c with NetUpdate i p _ => Some (i, p) | _ => None end) t.

(** A request of the trace is an [insert] the remote service answered
    without an error. *)
Definition acceptedInsert (c : NetCall) : bool :=
  match c with
  | NetInsert _ resp => match error resp with None => true | Some _ => false end
  | _ => false
  end.

(** The form data of a draft whose [due_days] is a number. *)
Definition formOf (d : StreamDraft) : FormData :=
  {| f_agency_name := d_agency_name d; f_due_days := DueNumber (d_due_days d);
     f_priority := d_priority d; f_stream_type := d_stream_type d;
     f_notes := d_notes d; f_items := d_items d |}.

(** More worlds for examples. *)
Module Examples.

(** A remote service that refuses every request. *)
#[local] Instance refusingBackend : Backend unit := {|
  selectStreams := fun _ r =>
    ({| data := None; error := Some {| message := "network error" |} |}, r);
  insertStream := fun _ r =>
    ({| data := None; error := Some {| message := "network error" |} |}, r);
  updateRow := fun _ _ r =>
    ({| data := None; error := Some {| message := "network error" |} |}, r);
  deleteRow := fun _ r =>
    ({| data := None; error := Some {| message := "network error" |} |}, r)
|}.

(** A page of a configured client, signed in as "user-1", that shows and
    stores [l]; [fits] says what local storage accepts. *)
Definition signedIn {Remote : Type} (r : Remote) (l : list Stream)
    (fits : list Stream -> bool) : World Remote :=
  {| supabase := true; remote := r; net := [];
     console := []; toasts := [];
     storedStreams := Some l; storageFits := fits;
     clock := fun n => 1709208000000 + Z.of_nat n; ticks := 0;
     streams := l; user := Some (str "user-1"); editingStream := None |}.

(** The same page, signed out. *)
Definition signedOut (l : list Stream) : World (list Stream) :=
  {| supabase := true; remote := []; net := [];
     console := []; toasts := [];
     storedStreams := Some l; storageFits := fun _ => true;
     clock := fun n => 1709208000000 + Z.of_nat n; ticks := 0;
     streams := l; user := None; editingStream := None |}.

Definition formDue (v : DueDays) : FormData :=
  {| f_agency_name := None; f_due_days := v; f_priority := medium;
     f_stream_type := None; f_notes := None; f_items := None |}.

End Examples.

(* ===================================================================== *)
(** * components/AgencyTemplates.js: the agency profiles and their
      templates *)
(* ===================================================================== *)

Module AgencyTemplates.
Import CaptionGenerator.

(** The ids of [TEMPLATE_TYPES]: the values [templateType] takes. *)
Inductive TemplateType : Type :=
  | imvu_feed
  | ig_feed
  | request
  | end_stream.

Definition typeId (ty : TemplateType) : jsstring :=
  match ty with
  | imvu_feed => str "imvu_feed"
  | ig_feed => str "ig_feed"
  | request => str "request"
  | end_stream => str "end_stream"
  end.

(** The names of [AVAILABLE_VARIABLES]: the variables the editor offers to
    insert. *)
Definition AVAILABLE_VARIABLES : list jsstring :=
  [str "item_name"; str "creator_name"; str "product_id"; str "agency_name";
   str "stream_type"; str "due_date"].

(** The state of the component and the slot [aurelius-agencies];
    [storageFits] says which lists local storage takes. *)
Record State : Type := {
  agencies : list Agency;
  selectedAgency : option Agency;
  storedAgencies : option (list Agency);
  storageFits : list Agency -> bool
}.

(** [saveAgencies]: [setItem] comes first and is not guarded, so when it
    throws the state keeps the old list. *)
Definition saveAgencies (agenciesData : list Agency) (st : State)
    : Result unit * State :=
  if storageFits st agenciesData then
    (Ok tt, {| agencies := agenciesData; selectedAgency := selectedAgency st;
               storedAgencies := Some agenciesData; storageFits := storageFits st |})
  else (Throw QuotaExceededError, st).

Definition setSelectedAgency (a : option Agency) (st : State) : State :=
  {| agencies := agencies st; selectedAgency := a;
     storedAgencies := storedAgencies st; storageFits := storageFits st |}.

(** [{ ...agency, templates: { ...agency.templates, [templateType]: content } }] *)
Definition withTemplate (templateType content : jsstring) (agency : Agency) : Agency :=
  {| agency_id := agency_id agency; name := name agency;
     templates := <[templateType := content]> (templates agency) |}.

Definition updateTemplate (templateType : TemplateType) (content : jsstring)
    (st : State) : Result unit * State :=
  match selectedAgency st with
  | None => (Ok tt, st)
  | Some selected =>
      let updatedAgencies :=
        map (fun agency =>
               if bool_decide (agency_id agency = agency_id selected)
               then withTemplate (typeId templateType) content agency
               else agency) (agencies st) in
      match saveAgencies updatedAgencies st with
      | (Ok _, st1) =>
          (Ok tt,
           setSelectedAgency
             (List.find (fun a => bool_decide (agency_id a = agency_id selected))
                updatedAgencies) st1)
      | (Throw e, st1) => (Throw e, st1)
      end
  end.

(** [selectedAgency?.templates?.[templateType] || ''] *)
Definition currentContent (templateType : TemplateType) (st : State) : jsstring :=
  match selectedAgency st with
  | Some selected =>
      match jsOr (getProp (templates selected) (typeId templateType)) (JString []) with
      | JString s => s
      | _ => []
      end
  | None => []
  end.

Definition insertVariable (templateType : TemplateType) (variable : jsstring)
    (st : State) : Result unit * State :=
  updateTemplate templateType (currentContent templateType st ++ placeholder variable) st.

(** [deleteAgency] *)
Definition deleteAgency (agencyId : Z) (st : State) : Result unit * State :=
  let updatedAgencies :=
    filter (fun agency => agency_id agency <> agencyId) (agencies st) in
  match saveAgencies updatedAgencies st with
  | (Ok _, st1) =>
      (Ok tt,
       if bool_decide (agency_id <$> selectedAgency st1 = Some agencyId)
       then setSelectedAgency None st1 else st1)
  | (Throw e, st1) => (Throw e, st1)
  end.

(** The caption generator as the page opens it after [handleSave] has
    handed the agencies over: on a record, with an agency and a platform
    chosen. *)
Definition captionsFor (st : State) (agencyId : option Z) (platform : jsstring)
    (sd : Stream) : CaptionGenerator.State :=
  {| CaptionGenerator.selectedPlatform := platform;
     CaptionGenerator.selectedAgency := agencyId;
     CaptionGenerator.agencies := agencies st;
     CaptionGenerator.streamData := Some sd;
     CaptionGenerator.generatedCaptions := ∅;
     CaptionGenerator.cg_console := [];
     CaptionGenerator.cg_toasts := [] |}.

End AgencyTemplates.

(** ** Reading a template as tokens *)

(** The name of a placeholder whose opening brace was just read: the text
    up to the closing brace, if no other opening brace comes first. *)
Fixpoint splitName (s : jsstring) : option (jsstring * jsstring) :=
  match s with
  | [] => None
  | c :: r =>
      if Ascii.eqb c "}" then Some ([], r)
      else if Ascii.eqb c "{" then None
      else match splitName r with
           | Some (n, rest) => Some (c :: n, rest)
           | None => None
           end
  end.

Definition flushText (acc : jsstring) : list TemplateSpec.Token :=
  match acc with
  | [] => []
  | _ => [TemplateSpec.Text (rev acc)]
  end.

Fixpoint tokenizeFrom (fuel : nat) (acc s : jsstring) : list TemplateSpec.Token :=
  match fuel with
  | O => flushText acc
  | S fuel' =>
      match s with
      | [] => flushText acc
      | c :: r =>
          if Ascii.eqb c "{" then
            match splitName r with
            | Some (n, rest) =>
                flushText acc ++ TemplateSpec.Hole n :: tokenizeFrom fuel' [] rest
            | None => tokenizeFrom fuel' (c :: acc) r
            end
          else tokenizeFrom fuel' (c :: acc) r
      end
  end.

Definition tokenize (s : jsstring) : list TemplateSpec.Token :=
  tokenizeFrom (S (length s)) [] s.

(** The names of the placeholders of a token list. *)
Definition holes (toks : list TemplateSpec.Token) : list jsstring :=
  omap (fun tok => match tok with
                   | TemplateSpec.Hole k => Some k
                   | TemplateSpec.Text _ => None
                   end) toks.

(* ===================================================================== *)
(** * The IMVU link parser (class [IMVULinkParser]) *)
(* ===================================================================== *)

Module IMVULinkParser.
Import JsText.

Inductive UrlType : Type :=
  | classic
  | beta.

(** The object [parseProductUrl] returns; [None] is [null], and
    [originalUrl] is absent from the invalid result. *)
Record ParsedUrl : Type := {
  productId : option jsstring;
  urlType : option UrlType;
  isValid : bool;
  originalUrl : option jsstring
}.

Definition invalidUrl : ParsedUrl :=
  {| productId := None; urlType := None; isValid := false; originalUrl := None |}.

Definition validUrl (d : jsstring) (ty : UrlType) (cleanUrl : jsstring) : ParsedUrl :=
  {| productId := Some d; urlType := Some ty; isValid := true;
     originalUrl := Some cleanUrl |}.

(** [parseProductUrl] on a string. *)
Definition parseProductUrl (url : jsstring) : ParsedUrl :=
  match url with
  | [] => invalidUrl
  | _ =>
      let cleanUrl := trim url in
      match searchDigits (str "products_id=") cleanUrl with
      | Some d => validUrl d classic cleanUrl
      | None =>
          match searchDigits (str "product-") cleanUrl with
          | Some d => validUrl d beta cleanUrl
          | None =>
              match searchAfter (str "fr.imvu.com") (str "products_id=") cleanUrl with
              | Some d => validUrl d classic cleanUrl
              | None => invalidUrl
              end
          end
      end
  end.

Definition isValidIMVUUrl (url : jsstring) : bool := isValid (parseProductUrl url).

(** The address [extractProductInfo] fetches. *)
Definition productUrl (d : jsstring) (ty : UrlType) : jsstring :=
  match ty with
  | beta => str "https://www.imvu.com/next/shop/product-" ++ d ++ str "/"
  | classic => str "https://www.imvu.com/shop/product.php?products_id=" ++ d
  end.

(** What [parseProductPage] returns; [None] is [null]. *)
Record ProductInfo : Type := {
  productName : option jsstring;
  creatorName : option jsstring
}.

Record CacheEntry : Type := {
  data : ProductInfo;
  timestamp : Z
}.

(** 7 days in milliseconds *)
Definition cacheExpiry : Z := 7 * 24 * 60 * 60 * 1000.

(** The parser: its cache, the clock it reads, the addresses it has
    fetched and what it has written to the console. *)
Record Parser : Type := {
  productCache : gmap jsstring CacheEntry;
  clock : nat -> Z;
  ticks : nat;
  fetched : list jsstring;
  errors : nat
}.

(** What [extractProductInfo] returns. *)
Record Extracted : Type := {
  x_productName : option jsstring;
  x_creatorName : option jsstring;
  success : bool;
  fromCache : option bool
}.

(** One entry of the result of [parseMultipleUrls]. *)
Record UrlResult : Type := {
  r_url : jsstring;
  r_productId : option jsstring;
  r_urlType : option UrlType;
  r_info : Extracted
}.

Section Service.
(** The network, and the reading of a page ([parseProductPage], a list of
    regular expressions tried in turn), are left open: [fetch n url] is
    the text of the page the [n]-th request gets, or [None] when the
    request fails or the answer is not [ok]. *)
Variable fetch : nat -> jsstring -> option jsstring.
Variable parseProductPage : jsstring -> ProductInfo.

Definition tickParser (p : Parser) : Parser :=
  {| productCache := productCache p; clock := clock p; ticks := S (ticks p);
     fetched := fetched p; errors := errors p |}.

(** [getCachedProduct]: the clock is read only when there is an entry. *)
Definition getCachedProduct (d : jsstring) (p : Parser) : option ProductInfo * Parser :=
  match productCache p !! d with
  | Some cached =>
      (if clock p (ticks p) - timestamp cached <? cacheExpiry
       then Some (data cached) else None,
       tickParser p)
  | None => (None, p)
  end.

Definition cacheProduct (d : jsstring) (info : ProductInfo) (p : Parser) : Parser :=
  {| productCache :=
       <[d := {| data := info; timestamp := clock p (ticks p) |}]> (productCache p);
     clock := clock p; ticks := S (ticks p);
     fetched := fetched p; errors := errors p |}.

Definition failedExtract : Extracted :=
  {| x_productName := None; x_creatorName := None; success := false;
     fromCache := None |}.

Definition logError (p : Parser) : Parser :=
  {| productCache := productCache p; clock := clock p; ticks := ticks p;
     fetched := fetched p; errors := S (errors p) |}.

Definition recordFetch (url : jsstring) (p : Parser) : Parser :=
  {| productCache := productCache p; clock := clock p; ticks := ticks p;
     fetched := fetched p ++ [url]; errors := errors p |}.

(** [extractProductInfo] *)
Definition extractProductInfo (d : jsstring) (ty : UrlType) (p : Parser)
    : Extracted * Parser :=
  match getCachedProduct d p with
  | (Some cached, p1) =>
      ({| x_productName := productName cached; x_creatorName := creatorName cached;
          success := true; fromCache := Some true |}, p1)
  | (None, p1) =>
      let url := productUrl d ty in
      let p2 := recordFetch url p1 in
      match fetch (length (fetched p1)) url with
      | None => (failedExtract, logError p2)
      | Some html =>
          let info := parseProductPage html in
          match productName info with
          | Some (c :: n) =>
              ({| x_productName := productName info; x_creatorName := creatorName info;
                  success := true; fromCache := Some false |},
               cacheProduct d info p2)
          | _ => (failedExtract, logError p2)
          end
      end
  end.

(** [parseMultipleUrls] *)
Fixpoint parseMultipleUrls (urls : list jsstring) (p : Parser)
    : list UrlResult * Parser :=
  match urls with
  | [] => ([], p)
  | url :: rest =>
      let parsed := parseProductUrl url in
      match productId parsed, urlType parsed with
      | Some d, Some ty =>
          let '(info, p1) := extractProductInfo d ty p in
          let '(results, p2) := parseMultipleUrls rest p1 in
          ({| r_url := url; r_productId := Some d; r_urlType := Some ty;
              r_info := info |} :: results, p2)
      | _, _ =>
          let '(results, p2) := parseMultipleUrls rest p in
          ({| r_url := url; r_productId := None; r_urlType := None;
              r_info := failedExtract |} :: results, p2)
      end
  end.

End Service.

End IMVULinkParser.

(* ===================================================================== *)
(** * components/StreamForm.js: the items of the form and its submission *)
(* ===================================================================== *)

Module StreamForm.

(** The item the form starts with and [addItem] appends: every text field
    is the empty string. *)
Definition blankItem (itemId : Z) : StreamItem :=
  {| item_id := itemId; item_name := []; creator_name := [];
     creator_id := Some []; product_url := Some []; product_id := Some [];
     item_notes := Some []; creator_imvu_avatar := None;
     creator_ig_handle := None; creator_ig_shop_handle := None |}.

Definition initialItems : list StreamItem := [blankItem 1].

(** [addItem]; [now] is the reading of [Date.now()]. *)
Definition addItem (now : Z) (items : list StreamItem) : list StreamItem :=
  items ++ [blankItem now].

Definition removeItem (itemId : Z) (items : list StreamItem) : list StreamItem :=
  if bool_decide (1 < length items)%nat
  then filter (fun item => item_id item <> itemId) items
  else items.

(** The fields [parseProductUrls] writes with [updateItem]. *)
Inductive Field : Type :=
  | FProductId
  | FItemName
  | FCreatorName.

Definition setField (field : Field) (value : jsstring) (item : StreamItem)
    : StreamItem :=
  {| item_id := item_id item;
     item_name := match field with FItemName => value | _ => item_name item end;
     creator_name :=
       match field with FCreatorName => value | _ => creator_name item end;
     creator_id := creator_id item; product_url := product_url item;
     product_id :=
       match field with FProductId => Some value | _ => product_id item end;
     item_notes := item_notes item;
     creator_imvu_avatar := creator_imvu_avatar item;
     creator_ig_handle := creator_ig_handle item;
     creator_ig_shop_handle := creator_ig_shop_handle item |}.

Definition updateItem (itemId : Z) (field : Field) (value : jsstring)
    (items : list StreamItem) : list StreamItem :=
  map (fun item => if bool_decide (item_id item = itemId)
                   then setField field value item else item) items.

(** A text field holds something: it is neither absent nor empty. *)
Definition filled (s : option jsstring) : bool :=
  match s with
  | Some (_ :: _) => true
  | _ => false
  end.




(** The addresses [parseProductUrls] hands to the link parser. *)
Definition urlsToParse (items : list StreamItem) : list jsstring :=
  omap (fun item =>
          if filled (product_url item) && negb (filled (product_id item))
          then product_url item else None) items.

(** The body of [results.forEach] in [parseProductUrls]: [items] is the
    list the handler was created with, [current] the list the updates
    accumulate in. *)
Definition applyResult (items : list StreamItem) (current : list StreamItem)
    (result : IMVULinkParser.UrlResult) : list StreamItem :=
  if IMVULinkParser.success (IMVULinkParser.r_info result) then
    match List.find (fun item => bool_decide (product_url item
                                              = Some (IMVULinkParser.r_url result)))
            items with
    | Some target =>
        let c1 := updateItem (item_id target) FProductId
                    (default [] (IMVULinkParser.r_productId result)) current in
        let c2 := match IMVULinkParser.x_productName (IMVULinkParser.r_info result) with
                  | Some (c :: n) => updateItem (item_id target) FItemName (c :: n) c1
                  | _ => c1
                  end in
        match IMVULinkParser.x_creatorName (IMVULinkParser.r_info result) with
        | Some (c :: n) => updateItem (item_id target) FCreatorName (c :: n) c2
        | _ => c2
        end
    | None => current
    end
  else current.

(** What [parseProductUrls] tells the user: the toast "Parsed n product
    URLs! ✨", or, when an exception reaches its [catch] block, the error on
    the console and the toast "Failed to parse product URLs". *)
Inductive ParseReport : Type :=
  | ParsedUrls (n : nat)
  | ParseFailed (e : Exn).

(** [parseProductUrls], on the items of the form and a link parser: the
    new items, the report, and the link parser afterwards.  With no
    address to parse the handler calls [toast.info], which the [toast] of
    react-hot-toast does not have: the call throws a [TypeError] inside the
    [try] block. *)
Definition parseProductUrls (fetch : nat -> jsstring -> option jsstring)
    (parseProductPage : jsstring -> IMVULinkParser.ProductInfo)
    (items : list StreamItem) (p : IMVULinkParser.Parser)
    : list StreamItem * ParseReport * IMVULinkParser.Parser :=
  match urlsToParse items with
  | [] => (items, ParseFailed TypeError, p)
  | urls =>
      let '(results, p') :=
        IMVULinkParser.parseMultipleUrls fetch parseProductPage urls p in
      (fold_left (applyResult items) results items,
       ParsedUrls (length (List.filter (fun r => IMVULinkParser.success
                                                   (IMVULinkParser.r_info r)) results)),
       p')
  end.

Section Submit.
Context {Remote : Type} {backend : Backend Remote} {host : Host}.



End Submit.

End StreamForm.

Import TemplateSpec.

(* ===================================================================== *)
(** * The template engine: one pass per variable against one pass in all *)
(* ===================================================================== *)

Section ReplaceLemmas.

Lemma isPrefix_app (p rest : jsstring) : isPrefix p (p ++ rest) = true.
Proof.
  induction p as [|a p IH]; simpl; [done|].
  by rewrite Ascii.eqb_refl, IH.
Qed.

Lemma hasChar_cons (c a : ascii) (s : jsstring) :
  hasChar c (a :: s) = false -> a <> c /\ hasChar c s = false.
Proof.
  unfold hasChar; simpl. intros Hx.
  apply orb_false_iff in Hx as [Hne Hs]. split; [|done].
  intros ->. by rewrite Ascii.eqb_refl in Hne.
Qed.

Lemma hasChar_app (c : ascii) (s t : jsstring) :
  hasChar c (s ++ t) = hasChar c s || hasChar c t.
Proof. unfold hasChar. apply existsb_app. Qed.

(** A value without a dollar sign is inserted as it is. *)
Lemma getSubstitution_plain (matched before after repl : jsstring) :
  hasChar "$" repl = false ->
  getSubstitution matched before after repl = repl.
Proof.
  induction repl as [|c r IH]; [done|]. intros Hc.
  apply hasChar_cons in Hc as [Hne Hr]. simpl.
  destruct (Ascii.eqb_spec c "$") as [->|_]; [done|].
  by rewrite IH.
Qed.

(** Passing over the rest of a match. *)
Lemma replaceScan_skip (pat repl x before s : jsstring) :
  replaceScan pat repl (length x) before (x ++ s)
  = replaceScan pat repl O (before ++ x) s.
Proof.
  revert before. induction x as [|c x IH]; intros before; simpl.
  - by rewrite app_nil_r.
  - rewrite IH. by rewrite <- app_assoc.
Qed.

(** At a match, the substitution is emitted and the scan goes on behind
    the match. *)
Lemma replaceScan_match (pat repl before rest : jsstring) :
  pat <> [] ->
  replaceScan pat repl O before (pat ++ rest)
  = getSubstitution pat before rest repl
      ++ replaceScan pat repl O (before ++ pat) rest.
Proof.
  destruct pat as [|c p]; [done|]. intros _.
  change ((c :: p) ++ rest) with (c :: (p ++ rest)).
  cbn [replaceScan].
  change (c :: p ++ rest) with ((c :: p) ++ rest).
  rewrite isPrefix_app, drop_app_length.
  cbn [length Init.Nat.pred]. rewrite replaceScan_skip.
  by rewrite <- app_assoc.
Qed.

(** Where no placeholder starts, the character is copied. *)
Lemma replaceScan_copy (key repl before s : jsstring) (c : ascii) :
  c <> "{"%char ->
  replaceScan (placeholder key) repl O before (c :: s)
  = c :: replaceScan (placeholder key) repl O (before ++ [c]) s.
Proof.
  intros Hc. cbn [replaceScan placeholder isPrefix].
  destruct (Ascii.eqb_spec "{" c) as [E|_]; [by subst|done].
Qed.

(** Text without an opening brace is copied. *)
Lemma replaceScan_text (key repl x before rest : jsstring) :
  hasChar "{" x = false ->
  replaceScan (placeholder key) repl O before (x ++ rest)
  = x ++ replaceScan (placeholder key) repl O (before ++ x) rest.
Proof.
  revert before. induction x as [|c x IH]; intros before Hx.
  - simpl. by rewrite app_nil_r.
  - apply hasChar_cons in Hx as [Hc Hx]. cbn [app].
    rewrite replaceScan_copy by done. rewrite IH by done.
    by rewrite <- app_assoc.
Qed.

Lemma replaceAll_no_open (key repl s : jsstring) :
  hasChar "{" s = false -> replaceAll key repl s = s.
Proof.
  intros Hs. unfold replaceAll.
  rewrite <- (app_nil_r s) at 1. rewrite replaceScan_text by done.
  simpl. by rewrite app_nil_r.
Qed.

(** A placeholder matches only the pattern of its own name. *)
Lemma isPrefix_name (k k' rest : jsstring) :
  hasChar "}" k = false -> hasChar "}" k' = false ->
  isPrefix (k ++ ["}"%char]) (k' ++ "}"%char :: rest) = true -> k = k'.
Proof.
  revert k'. induction k as [|a k IH]; intros [|b k'] Hk Hk';
    cbn [isPrefix app].
  - done.
  - apply hasChar_cons in Hk' as [Hb _].
    destruct (Ascii.eqb_spec "}" b) as [E|_]; [congruence|done].
  - apply hasChar_cons in Hk as [Ha _].
    destruct (Ascii.eqb_spec a "}") as [E|_]; [congruence|done].
  - apply hasChar_cons in Hk as [_ Hk]. apply hasChar_cons in Hk' as [_ Hk'].
    destruct (Ascii.eqb_spec a b) as [->|_]; [|done]. cbn [andb].
    intros Hp. f_equal. by apply IH.
Qed.

Lemma isPrefix_other_hole (k k' rest : jsstring) :
  hasChar "}" k = false -> hasChar "}" k' = false -> k <> k' ->
  isPrefix (placeholder k) (placeholder k' ++ rest) = false.
Proof.
  intros Hk Hk' Hne. unfold placeholder. cbn [app isPrefix].
  rewrite Ascii.eqb_refl. cbn [andb].
  destruct (isPrefix (k ++ ["}"%char]) ((k' ++ ["}"%char]) ++ rest)) eqn:E; [|done].
  rewrite <- app_assoc in E. cbn [app] in E.
  by apply isPrefix_name in E.
Qed.

End ReplaceLemmas.

(** [replace] on examples: the dollar patterns of the replacement text, and
    passes that follow one another. *)
Example replace_every_occurrence :
  replaceAll (str "a") (str "X") (str "1{a}2{a}{b}") = str "1X2X{b}".
Proof. reflexivity. Qed.

Example replace_dollar_patterns :
  replaceAll (str "a") (str "[$$|$&|$`|$'|$1]") (str "ab{a}cd")
  = str "ab[$|{a}|ab|cd|$1]cd".
Proof. reflexivity. Qed.

Example substitute_dollar_name :
  substitute [(str "item_name", str "Ca$$h Gown")] (str "{item_name}!")
  = str "Ca$h Gown!".
Proof. reflexivity. Qed.

Example substitute_scans_again :
  substitute [(str "item_name", str "_"); (str "due_date", str "3/1/2024")]
    (str "{due{item_name}date}")
  = str "3/1/2024".
Proof. reflexivity. Qed.

Section TokenRefinement.

Lemma templateText_cons (tok : Token) (toks : list Token) :
  templateText (tok :: toks) = tokenText tok ++ templateText toks.
Proof. done. Qed.

Lemma fillToken_one (key value : jsstring) (tok : Token) :
  fillToken [(key, value)] tok
  = match tok with
    | Text s => Text s
    | Hole k => if bool_decide (key = k) then Text value else Hole k
    end.
Proof. destruct tok as [s|k]; [done|]. simpl. by case_bool_decide. Qed.

(** The placeholder of another name is copied. *)
Lemma replaceScan_other_hole (key repl k before rest : jsstring) :
  hasChar "}" key = false ->
  hasChar "{" k = false -> hasChar "}" k = false -> key <> k ->
  replaceScan (placeholder key) repl O before (placeholder k ++ rest)
  = placeholder k ++ replaceScan (placeholder key) repl O (before ++ placeholder k) rest.
Proof.
  intros Hkey Hk1 Hk2 Hne.
  pose proof (isPrefix_other_hole key k rest Hkey Hk2 Hne) as Hfirst.
  change (placeholder k ++ rest) with ("{"%char :: ((k ++ ["}"%char]) ++ rest)) in *.
  cbn [replaceScan]. rewrite Hfirst.
  change (placeholder k) with ("{"%char :: (k ++ ["}"%char])).
  cbn [app]. f_equal.
  rewrite replaceScan_text.
  - by rewrite <- (app_assoc before).
  - rewrite hasChar_app, Hk1. done.
Qed.

(** One pass of [replace] on a well-formed template fills exactly the
    placeholders of its variable. *)
Lemma replaceScan_tokens (key value : jsstring) (toks : list Token)
    (before : jsstring) :
  hasChar "}" key = false ->
  hasChar "{" value = false -> hasChar "$" value = false ->
  wfTemplate toks = true ->
  replaceScan (placeholder key) value O before (templateText toks)
  = templateText (map (fillToken [(key, value)]) toks).
Proof.
  intros Hkey Hopen Hdollar. revert before.
  induction toks as [|tok toks IH]; intros before Hwf; [done|].
  cbn [wfTemplate forallb] in Hwf. apply andb_true_iff in Hwf as [Htok Hwf].
  cbn [map]. rewrite !templateText_cons, fillToken_one.
  destruct tok as [s|k]; cbn [tokenText wfToken] in *.
  - apply negb_true_iff in Htok.
    rewrite replaceScan_text by done. by rewrite IH.
  - apply andb_true_iff in Htok as [Hk1 Hk2].
    apply negb_true_iff in Hk1, Hk2.
    case_bool_decide as Heq.
    + subst k. rewrite replaceScan_match by done.
      rewrite getSubstitution_plain by done. cbn [tokenText]. by rewrite IH.
    + cbn [tokenText]. rewrite replaceScan_other_hole by done. by rewrite IH.
Qed.

Lemma fillToken_wf (key value : jsstring) (tok : Token) :
  hasChar "{" value = false -> wfToken tok = true ->
  wfToken (fillToken [(key, value)] tok) = true.
Proof.
  intros Hv Hwf. rewrite fillToken_one. destruct tok as [s|k]; [done|].
  case_bool_decide; [|done]. simpl. by rewrite Hv.
Qed.

Lemma fillToken_step (key value : jsstring)
    (vars : list (jsstring * jsstring)) (tok : Token) :
  fillToken vars (fillToken [(key, value)] tok)
  = fillToken ((key, value) :: vars) tok.
Proof.
  rewrite fillToken_one. destruct tok as [s|k]; [done|].
  cbn [fillToken lookupVar]. by case_bool_decide.
Qed.

(** The passes of [substitute], one per variable and in order, amount to
    one simultaneous pass, on a well-formed template and with plain
    variables. *)
Lemma substitute_tokens (vars : list (jsstring * jsstring)) (toks : list Token) :
  plainVars vars = true -> wfTemplate toks = true ->
  substitute vars (templateText toks) = specRender vars toks.
Proof.
  revert toks. induction vars as [|[key value] vars IH]; intros toks Hvars Hwf.
  - unfold specRender. cbn [substitute fold_left].
    f_equal. induction toks as [|[s|k] toks IHt]; cbn [map fillToken lookupVar];
      [done| |]; f_equal; apply IHt;
      cbn [wfTemplate forallb] in Hwf; by apply andb_true_iff in Hwf as [_ ?].
  - cbn [plainVars forallb] in Hvars. apply andb_true_iff in Hvars as [Hkv Hvars].
    unfold plainVar in Hkv. cbn [fst snd] in Hkv.
    repeat (apply andb_true_iff in Hkv as [Hkv ?]).
    repeat match goal with
           | Hn : negb _ = true |- _ => apply negb_true_iff in Hn
           end.
    unfold substitute. cbn [fold_left fst snd]. unfold replaceAll.
    rewrite replaceScan_tokens by done.
    fold (substitute vars (templateText (map (fillToken [(key, value)]) toks))).
    rewrite IH; [|done|].
    + unfold specRender. rewrite map_map. f_equal.
      apply map_ext. intros tok. apply fillToken_step.
    + unfold wfTemplate in *. rewrite forallb_forall in Hwf.
      apply forallb_forall. intros tok' Hin.
      apply in_map_iff in Hin as (tok & <- & Hin).
      apply fillToken_wf; [done|]. by apply Hwf.
Qed.

End TokenRefinement.

(* ===================================================================== *)
(** * The caption generator *)
(* ===================================================================== *)

Import CaptionGenerator.

Section CaptionLemmas.
Context {host : Host}.

Lemma recognized_not_inherited (p : jsstring) :
  p ∈ [str "imvu_feed"; str "ig_feed"; str "request"; str "end_stream"] ->
  p ∉ objectPrototypeNames.
Proof.
  intros Hp.
  repeat (apply elem_of_cons in Hp as [->|Hp];
          [by eapply bool_decide_eq_false_1; vm_compute|]).
  by apply elem_of_nil in Hp.
Qed.

Lemma getProp_own_or_undefined (obj : gmap jsstring jsstring) (key : jsstring) :
  key ∉ objectPrototypeNames ->
  getProp obj key = JUndefined \/ exists s, getProp obj key = JString s.
Proof.
  intros Hkey. unfold getProp. destruct (obj !! key) as [s|]; [eauto|].
  rewrite bool_decide_eq_false_2 by done. by left.
Qed.

Lemma jsOr_string (v : jsval) (d : jsstring) :
  (v = JUndefined \/ exists s, v = JString s) ->
  exists s, jsOr v (JString d) = JString s.
Proof. intros [->|[s ->]]; [by exists d|]. destruct s; [by exists d|by eexists]. Qed.

(** For a key that names no inherited member, the resolved template is a
    string. *)
Lemma resolveTemplate_string (st : State) :
  selectedPlatform st ∉ objectPrototypeNames ->
  exists t, resolveTemplate st = JString t.
Proof.
  intros Hp. unfold resolveTemplate, getDefaultTemplate.
  destruct (jsOr_string (getProp defaultTemplates (selectedPlatform st)) [])
    as [d Hd]; [by apply getProp_own_or_undefined|].
  destruct (selectedAgency st) as [agencyId|]; [|simpl; eauto].
  match goal with |- context [jsOr ?v (JString [])] =>
    destruct (jsOr_string v []) as [t Ht]
  end.
  - destruct (List.find _ _); [by apply getProp_own_or_undefined|by left].
  - rewrite Ht. destruct (truthy (JString t)); eauto.
Qed.

Lemma substitute_nil (vars : list (jsstring * jsstring)) : substitute vars [] = [].
Proof. induction vars as [|kv vars IH]; [done|]. exact IH. Qed.

Lemma substitute_no_open (vars : list (jsstring * jsstring)) (s : jsstring) :
  hasChar "{" s = false -> substitute vars s = s.
Proof.
  intros Hs. induction vars as [|kv vars IH]; [done|].
  unfold substitute. cbn [fold_left]. rewrite replaceAll_no_open by done. exact IH.
Qed.

Lemma substitute_cons (kv : jsstring * jsstring)
    (vars : list (jsstring * jsstring)) (s : jsstring) :
  substitute (kv :: vars) s = substitute vars (replaceAll kv.1 kv.2 s).
Proof. done. Qed.

(** The loop of [generateCaptions] when every item renders. *)
Lemma captionLoop_ok (st : State) (f : StreamItem -> jsstring)
    (l : list StreamItem) (captions : gmap CaptionKey jsval) :
  (forall item, generateCaptionForItem st item = Ok (f item)) ->
  captionLoop st l captions
  = Ok (foldl (fun acc item => <[itemKey (item_id item) := JString (f item)]> acc)
          captions l).
Proof.
  intros Hf. revert captions. induction l as [|item l IH]; intros captions; [done|].
  cbn [captionLoop foldl]. rewrite Hf. apply IH.
Qed.

Lemma captions_lookup_other (f : StreamItem -> jsstring) (l : list StreamItem)
    (captions : gmap CaptionKey jsval) (k : CaptionKey) :
  (forall item, item ∈ l -> k <> itemKey (item_id item)) ->
  foldl (fun acc item => <[itemKey (item_id item) := JString (f item)]> acc)
    captions l !! k = captions !! k.
Proof.
  revert captions. induction l as [|item l IH]; intros captions Hk; [done|].
  cbn [foldl]. rewrite IH.
  - apply lookup_insert_ne. intros E. eapply Hk; [|done]. by left.
  - intros item' Hin. apply Hk. by right.
Qed.

Lemma captions_lookup_item (f : StreamItem -> jsstring) (l : list StreamItem)
    (captions : gmap CaptionKey jsval) (item : StreamItem) :
  NoDup (item_id <$> l) -> item ∈ l ->
  foldl (fun acc item => <[itemKey (item_id item) := JString (f item)]> acc)
    captions l !! itemKey (item_id item) = Some (JString (f item)).
Proof.
  revert captions. induction l as [|x l IH]; intros captions Hnd Hin.
  - by apply elem_of_nil in Hin.
  - cbn [fmap list_fmap] in Hnd. apply NoDup_cons in Hnd as [Hx Hnd].
    cbn [foldl]. apply elem_of_cons in Hin as [->|Hin].
    + rewrite captions_lookup_other; [by apply lookup_insert_eq|].
      intros item' Hin' E. injection E as E. apply Hx.
      rewrite E. by apply list_elem_of_fmap_2.
    + by apply IH.
Qed.

Lemma captions_size (f : StreamItem -> jsstring) (l : list StreamItem)
    (captions : gmap CaptionKey jsval) :
  NoDup (item_id <$> l) ->
  (forall item, item ∈ l -> captions !! itemKey (item_id item) = None) ->
  size (foldl (fun acc item => <[itemKey (item_id item) := JString (f item)]> acc)
          captions l) = (size captions + length l)%nat.
Proof.
  revert captions. induction l as [|x l IH]; intros captions Hnd Hfresh.
  - simpl. lia.
  - cbn [fmap list_fmap] in Hnd. apply NoDup_cons in Hnd as [Hx Hnd].
    cbn [foldl length]. rewrite IH; [|done|].
    + rewrite map_size_insert_None; [lia|]. apply Hfresh. by left.
    + intros item Hin. rewrite lookup_insert_ne; [apply Hfresh; by right|].
      intros E. injection E as E. apply Hx. rewrite E.
      by apply list_elem_of_fmap_2.
Qed.

Lemma captions_keys (f : StreamItem -> jsstring) (l : list StreamItem)
    (captions : gmap CaptionKey jsval) (k : CaptionKey) :
  is_Some (foldl (fun acc item => <[itemKey (item_id item) := JString (f item)]> acc)
             captions l !! k) ->
  is_Some (captions !! k) \/ exists item, item ∈ l /\ k = itemKey (item_id item).
Proof.
  revert captions. induction l as [|x l IH]; intros captions Hk; [by left|].
  cbn [foldl] in Hk. apply IH in Hk as [Hk|(item & Hin & ->)].
  - destruct (decide (k = itemKey (item_id x))) as [->|Hne].
    + right. exists x. split; [by left|done].
    + left. by rewrite lookup_insert_ne in Hk.
  - right. exists item. split; [by right|done].
Qed.

End CaptionLemmas.

(* --------------------------------------------------------------------- *)
(** ** Rendering for one item *)
(* --------------------------------------------------------------------- *)

Section ItemRendering.
Context {host : Host}.

Lemma generateCaptionForItem_string (st : State) (sd : Stream)
    (item : StreamItem) (template : jsstring) :
  streamData st = Some sd -> resolveTemplate st = JString template ->
  generateCaptionForItem st item = Ok (substitute (itemVariables sd item) template).
Proof. intros Hsd Ht. unfold generateCaptionForItem. by rewrite Ht, Hsd. Qed.

End ItemRendering.

(** C5, as the specification states it, fails: a recognized variable with
    an empty value does not always resolve to the empty string.  With an
    empty [stream_type], the template [[{stream_type}]] renders as
    [[showcase]]. *)
Lemma C5_counterexample :
  let st := Instances.openOn "request" (Some 1)
              [Instances.agencyWith 1 "request" "[{stream_type}]"] Instances.recordAB in
  stream_type Instances.recordAB = Some []
  /\ resolveTemplate st = JString (str "[{stream_type}]")
  /\ generateCaptionForItem (host := Instances.utcHost) st (Instances.mkItem 1 "A" "Ann")
     = Ok (str "[showcase]")
  /\ generateCaptionForItem (host := Instances.utcHost) st (Instances.mkItem 1 "A" "Ann")
     <> Ok (str "[]").
Proof. vm_compute. repeat split; congruence. Qed.

(** C5 (amended).  [generateCaptionForItem] fills the placeholders of the
    variables [item_name], [creator_name], [creator_imvu_avatar],
    [creator_ig_handle], [creator_ig_shop_handle], [product_id],
    [agency_name], [stream_type] and [due_date]: on a template whose braces
    all belong to placeholders, and with values that hold no opening brace
    and no dollar sign, every such placeholder is replaced by the value of
    its variable and everything else is kept.  An empty [item_name] reads
    "Item", an empty [creator_name] or [creator_imvu_avatar] "Creator", an
    empty [agency_name] "Agency", an empty [stream_type] "showcase"; the
    other variables read as the empty string when empty; [creator_shop_id]
    is no variable of this rendering.  The template "{item_name} by
    {creator_name}" renders as "Gown by Lira" for the item Gown of Lira and
    as "Item by Creator" for an item with both names empty. *)
Theorem C5_render_item {host : Host} (st : State) (sd : Stream) (item : StreamItem) :
  streamData st = Some sd ->
  let vars := itemVariables sd item in
  (forall toks,
     resolveTemplate st = JString (templateText toks) ->
     wfTemplate toks = true -> plainVars vars = true ->
     generateCaptionForItem st item = Ok (specRender vars toks))
  /\ lookupVar vars (str "item_name")
     = Some (match item_name item with [] => str "Item" | n => n end)
  /\ lookupVar vars (str "creator_name")
     = Some (match creator_name item with [] => str "Creator" | n => n end)
  /\ lookupVar vars (str "agency_name") = Some (orDefault (agency_name sd) (str "Agency"))
  /\ lookupVar vars (str "stream_type") = Some (orDefault (stream_type sd) (str "showcase"))
  /\ lookupVar vars (str "creator_imvu_avatar")
     = Some (orDefault (creator_imvu_avatar item) (str "Creator"))
  /\ lookupVar vars (str "creator_ig_handle") = Some (orDefault (creator_ig_handle item) [])
  /\ lookupVar vars (str "creator_ig_shop_handle")
     = Some (orDefault (creator_ig_shop_handle item) [])
  /\ lookupVar vars (str "product_id") = Some (orDefault (product_id item) [])
  /\ lookupVar vars (str "due_date") = Some (dueDateText sd)
  /\ lookupVar vars (str "creator_shop_id") = None
  /\ (resolveTemplate st = JString (str "{item_name} by {creator_name}") ->
      (item_name item = str "Gown" -> creator_name item = str "Lira" ->
       generateCaptionForItem st item = Ok (str "Gown by Lira"))
      /\ (item_name item = [] -> creator_name item = [] ->
          generateCaptionForItem st item = Ok (str "Item by Creator"))).
Proof.
  intros Hsd vars. split.
  { intros toks Ht Hwf Hplain.
    rewrite (generateCaptionForItem_string st sd item _ Hsd Ht).
    by rewrite substitute_tokens. }
  repeat (split; [by destruct item as [? [|] [|]]|]).
  intros Ht. rewrite (generateCaptionForItem_string st sd item _ Hsd Ht).
  split; intros Hn Hc; f_equal; unfold itemVariables; rewrite Hn, Hc;
    rewrite !substitute_cons; cbn [fst snd orDefault];
    match goal with
    | |- context [replaceAll (str "creator_name") ?v (replaceAll (str "item_name") ?u ?t)] =>
        let r := eval vm_compute in (replaceAll (str "creator_name") v (replaceAll (str "item_name") u t)) in
        change (replaceAll (str "creator_name") v (replaceAll (str "item_name") u t)) with r
    end;
    by rewrite substitute_no_open.
Qed.

Lemma C5_render_item_witness :
  let st := Instances.openOn "request" (Some 1)
              [Instances.agencyWith 1 "request" "{item_name} by {creator_name}"]
              Instances.recordAB in
  generateCaptionForItem (host := Instances.utcHost) st (Instances.mkItem 7 "Gown" "Lira")
  = Ok (specRender
          (itemVariables (host := Instances.utcHost) Instances.recordAB
             (Instances.mkItem 7 "Gown" "Lira"))
          [Hole (str "item_name"); Text (str " by "); Hole (str "creator_name")])
  /\ generateCaptionForItem (host := Instances.utcHost) st (Instances.mkItem 7 "Gown" "Lira")
     = Ok (str "Gown by Lira")
  /\ generateCaptionForItem (host := Instances.utcHost) st (Instances.mkItem 7 "" "")
     = Ok (str "Item by Creator").
Proof.
  intros st.
  pose proof (C5_render_item (host := Instances.utcHost) st Instances.recordAB
                (Instances.mkItem 7 "Gown" "Lira") eq_refl) as (Hgen & Hrest).
  pose proof (C5_render_item (host := Instances.utcHost) st Instances.recordAB
                (Instances.mkItem 7 "" "") eq_refl) as (_ & Hrest').
  split; [|split].
  - apply Hgen; reflexivity.
  - apply Hrest; reflexivity.
  - apply Hrest'; reflexivity.
Defined.

(* --------------------------------------------------------------------- *)
(** ** One caption for all items (the feed platforms) *)
(* --------------------------------------------------------------------- *)

Section FeedRendering.
Context {host : Host}.

Lemma generateSingle_string (st : State) (sd : Stream) (template : jsstring) :
  streamData st = Some sd -> isFeed (selectedPlatform st) = true ->
  resolveTemplate st = JString template ->
  generateSingleCaptionForAllItems st
  = Ok (JString (substitute (basicVariables (selectedPlatform st) sd) template)).
Proof.
  intros Hsd Hfeed Ht. unfold generateSingleCaptionForAllItems.
  by rewrite Hsd, Hfeed, Ht.
Qed.

Lemma specRender_app (vars : list (jsstring * jsstring)) (pre post : list Token) :
  specRender vars (pre ++ post) = specRender vars pre ++ specRender vars post.
Proof.
  unfold specRender, templateText. by rewrite map_app, map_app, concat_app.
Qed.

Lemma specRender_hole (vars : list (jsstring * jsstring)) (k v : jsstring)
    (pre post : list Token) :
  lookupVar vars k = Some v ->
  specRender vars (pre ++ Hole k :: post)
  = specRender vars pre ++ v ++ specRender vars post.
Proof.
  intros Hk. rewrite specRender_app. f_equal.
  change (Hole k :: post) with ([Hole k] ++ post). rewrite specRender_app.
  f_equal. unfold specRender, templateText. cbn [map fillToken].
  rewrite Hk. cbn [map tokenText concat]. by rewrite app_nil_r.
Qed.

Lemma specRender_unknown_hole (vars : list (jsstring * jsstring)) (k : jsstring)
    (pre post : list Token) :
  lookupVar vars k = None ->
  specRender vars (pre ++ Hole k :: post)
  = specRender vars pre ++ placeholder k ++ specRender vars post.
Proof.
  intros Hk. rewrite specRender_app. f_equal.
  change (Hole k :: post) with ([Hole k] ++ post). rewrite specRender_app.
  f_equal. unfold specRender, templateText. cbn [map fillToken].
  rewrite Hk. cbn [map tokenText concat]. by rewrite app_nil_r.
Qed.

End FeedRendering.

(** C3, as the specification states it, fails for [ig_feed]: there the
    aggregate variables do not exist.  With the items "A" and "B", the
    [ig_feed] template [{item_names}] is shown unchanged. *)
Lemma C3_counterexample :
  let st := Instances.openOn "ig_feed" (Some 1)
              [Instances.agencyWith 1 "ig_feed" "{item_names}"] Instances.recordAB in
  map item_name (items Instances.recordAB) = [str "A"; str "B"]
  /\ generateSingleCaptionForAllItems (host := Instances.utcHost) st
     = Ok (JString (str "{item_names}"))
  /\ generatedCaptions (generateCaptions (host := Instances.utcHost) st)
     = {[ all_items := JString (str "{item_names}") ]}.
Proof. by vm_compute. Qed.

(** C3 (amended).  On a feed platform the one caption is rendered from the
    variables of [basicVariables]: on a template whose braces all belong to
    placeholders, and with values that hold no opening brace and no dollar
    sign, every placeholder of a variable is replaced by its value and
    everything else is kept.  For [imvu_feed] the variables include
    [item_names], the names of all items joined by ", ", and [product_ids],
    their product ids joined by ", ", so every [{item_names}] becomes that
    list: "A, B" for items named A and B.  For [ig_feed] there are no
    aggregate variables: [{item_names}] and [{product_ids}] stay as they
    are, and [item_name] and [product_id] are those of the first item. *)
Theorem C3_feed_aggregates {host : Host} (st : State) (sd : Stream)
    (toks : list Token) :
  streamData st = Some sd ->
  isFeed (selectedPlatform st) = true ->
  resolveTemplate st = JString (templateText toks) ->
  wfTemplate toks = true ->
  let vars := basicVariables (selectedPlatform st) sd in
  plainVars vars = true ->
  let names := join (str ", ") (map (fun item => Some (item_name item)) (items sd)) in
  let ids := join (str ", ") (map product_id (items sd)) in
  generateSingleCaptionForAllItems st = Ok (JString (specRender vars toks))
  /\ generatedCaptions (generateCaptions st) = {[ all_items := JString (specRender vars toks) ]}
  /\ (selectedPlatform st = str "imvu_feed" ->
      lookupVar vars (str "item_names") = Some names
      /\ lookupVar vars (str "product_ids") = Some ids
      /\ (forall pre post, toks = pre ++ Hole (str "item_names") :: post ->
            specRender vars toks = specRender vars pre ++ names ++ specRender vars post)
      /\ (forall pre post, toks = pre ++ Hole (str "product_ids") :: post ->
            specRender vars toks = specRender vars pre ++ ids ++ specRender vars post)
      /\ (map item_name (items sd) = [str "A"; str "B"] -> names = str "A, B"))
  /\ (selectedPlatform st = str "ig_feed" ->
      lookupVar vars (str "item_names") = None
      /\ lookupVar vars (str "product_ids") = None
      /\ lookupVar vars (str "item_name")
         = Some (orDefault (item_name <$> head (items sd)) (str "Item"))
      /\ lookupVar vars (str "product_id")
         = Some (orDefault (head (items sd) ≫= product_id) [])
      /\ (forall pre post, toks = pre ++ Hole (str "item_names") :: post ->
            specRender vars toks
            = specRender vars pre ++ str "{item_names}" ++ specRender vars post)).
Proof.
  intros Hsd Hfeed Ht Hwf vars Hplain names ids.
  assert (Hone : generateSingleCaptionForAllItems st = Ok (JString (specRender vars toks))).
  { rewrite (generateSingle_string st sd _ Hsd Hfeed Ht). by rewrite substitute_tokens. }
  split; [done|]. split.
  { unfold generateCaptions. by rewrite Hsd, Hfeed, Hone. }
  split; intros Hp.
  - assert (Hn : lookupVar vars (str "item_names") = Some names)
      by (subst vars; by rewrite Hp).
    assert (Hi : lookupVar vars (str "product_ids") = Some ids)
      by (subst vars; by rewrite Hp).
    repeat split; [done|done| | |].
    + intros pre post ->. by apply specRender_hole.
    + intros pre post ->. by apply specRender_hole.
    + intros Hab. subst names.
      destruct (items sd) as [|a [|b [|c l]]]; try discriminate Hab.
      injection Hab as Ha Hb. cbn [map join default]. by rewrite Ha, Hb.
  - assert (Hn : lookupVar vars (str "item_names") = None)
      by (subst vars; by rewrite Hp).
    repeat split; try (subst vars; by rewrite Hp).
    intros pre post ->. by apply specRender_unknown_hole.
Qed.

Lemma C3_feed_aggregates_witness :
  let st := Instances.openOn "imvu_feed" (Some 1)
              [Instances.agencyWith 1 "imvu_feed" "Names: {item_names}."]
              Instances.recordAB in
  generateSingleCaptionForAllItems (host := Instances.utcHost) st
  = Ok (JString (str "Names: A, B.")).
Proof.
  intros st.
  pose proof (C3_feed_aggregates (host := Instances.utcHost) st Instances.recordAB
                [Text (str "Names: "); Hole (str "item_names"); Text (str ".")]
                eq_refl eq_refl eq_refl eq_refl eq_refl) as (Hone & _).
  exact Hone.
Defined.

(* --------------------------------------------------------------------- *)
(** ** One caption, or one caption per item *)
(* --------------------------------------------------------------------- *)

Section PlatformShapes.
Context {host : Host}.

Lemma isFeed_true (p : jsstring) :
  isFeed p = true -> p = str "imvu_feed" \/ p = str "ig_feed".
Proof.
  unfold isFeed. intros Hp. apply orb_true_iff in Hp as [Hp|Hp];
    apply bool_decide_eq_true in Hp; auto.
Qed.

Lemma itemVariables_record (sd sd' : Stream) (item : StreamItem) :
  agency_name sd' = agency_name sd -> stream_type sd' = stream_type sd ->
  due_date sd' = due_date sd ->
  itemVariables sd' item = itemVariables sd item.
Proof. intros Ha Hs Hd. unfold itemVariables, dueDateText. by rewrite Ha, Hs, Hd. Qed.

(** On [ig_feed] the variables are those of the record and of its first
    item. *)
Lemma basicVariables_ig_feed (sd sd' : Stream) :
  agency_name sd' = agency_name sd -> stream_type sd' = stream_type sd ->
  due_date sd' = due_date sd -> model_ig_handle sd' = model_ig_handle sd ->
  head (items sd') = head (items sd) ->
  basicVariables (str "ig_feed") sd' = basicVariables (str "ig_feed") sd.
Proof.
  intros Ha Hs Hd Hm Hi. unfold basicVariables, dueDateText.
  by rewrite Ha, Hs, Hd, Hm, Hi.
Qed.

(** The per-item branch of [generateCaptions] when the template is a
    string. *)
Lemma generateCaptions_per_item (st : State) (sd : Stream) (template : jsstring) :
  streamData st = Some sd -> isFeed (selectedPlatform st) = false ->
  resolveTemplate st = JString template ->
  generateCaptions st
  = setGeneratedCaptions
      (foldl (fun acc item =>
                <[itemKey (item_id item)
                  := JString (substitute (itemVariables sd item) template)]> acc)
         ∅ (items sd)) st.
Proof.
  intros Hsd Hfeed Ht. unfold generateCaptions. rewrite Hsd, Hfeed.
  rewrite (captionLoop_ok st (fun item => substitute (itemVariables sd item) template)).
  - done.
  - intros item. by apply generateCaptionForItem_string.
Qed.

End PlatformShapes.

(** C2, as the specification states it, fails for [ig_feed]: the one
    string does not cover all of the record's items.  With the default
    template, the caption of the record with the items "A" and "B" is the
    caption of the record with the item "A" alone. *)
Lemma C2_counterexample :
  items Instances.recordAB = items Instances.recordA ++ [Instances.mkItem 2 "B" "Bob"]
  /\ generateSingleCaptionForAllItems (host := Instances.utcHost)
       (Instances.openOn "ig_feed" None [] Instances.recordAB)
     = generateSingleCaptionForAllItems (host := Instances.utcHost)
         (Instances.openOn "ig_feed" None [] Instances.recordA)
  /\ generatedCaptions (generateCaptions (host := Instances.utcHost)
                          (Instances.openOn "ig_feed" None [] Instances.recordAB))
       !! all_items
     = generatedCaptions (generateCaptions (host := Instances.utcHost)
                            (Instances.openOn "ig_feed" None [] Instances.recordA))
         !! all_items.
Proof. repeat split; by vm_compute. Qed.

(** C2 (amended).  For [imvu_feed] and [ig_feed], [generateCaptions]
    produces exactly one string, under the key [all_items]: the resolved
    template with the variables of [basicVariables] filled in.  For
    [imvu_feed] these variables cover all of the record's items: they
    include [item_names], the names of all items joined by ", ", and
    [product_ids], their product ids joined by ", ".  For [ig_feed] the
    string covers the first item only: two records that agree on
    [agency_name], [stream_type], [due_date], [model_ig_handle] and their
    first item get the same string, whatever their other items.  For
    [request] and [end_stream] it produces a mapping with one string per
    item (the item ids of a record being distinct): as many entries as
    items, the entry of an item under its id, holding the rendering of that
    item, which depends on the item and on the record's [agency_name],
    [stream_type] and [due_date] only, not on the other items; nothing else
    is in the mapping.  A record with two items gives exactly 2 entries. *)
Theorem C2_generate_for_platform {host : Host} (st : State) (sd : Stream) :
  streamData st = Some sd ->
  let captions := generatedCaptions (generateCaptions st) in
  let vars := basicVariables (selectedPlatform st) sd in
  (selectedPlatform st = str "imvu_feed" \/ selectedPlatform st = str "ig_feed" ->
   exists template,
     resolveTemplate st = JString template
     /\ generateSingleCaptionForAllItems st = Ok (JString (substitute vars template))
     /\ captions = {[ all_items := JString (substitute vars template) ]}
     /\ size captions = 1%nat
     /\ (selectedPlatform st = str "imvu_feed" ->
         lookupVar vars (str "item_names")
         = Some (join (str ", ") (map (fun item => Some (item_name item)) (items sd)))
         /\ lookupVar vars (str "product_ids")
            = Some (join (str ", ") (map product_id (items sd))))
     /\ (selectedPlatform st = str "ig_feed" ->
         lookupVar vars (str "item_name")
         = Some (orDefault (item_name <$> head (items sd)) (str "Item"))
         /\ lookupVar vars (str "product_id")
            = Some (orDefault (head (items sd) ≫= product_id) [])
         /\ lookupVar vars (str "item_names") = None
         /\ lookupVar vars (str "product_ids") = None)
     /\ (selectedPlatform st = str "ig_feed" ->
         forall st' sd',
           streamData st' = Some sd' ->
           selectedPlatform st' = str "ig_feed" ->
           resolveTemplate st' = resolveTemplate st ->
           agency_name sd' = agency_name sd ->
           stream_type sd' = stream_type sd ->
           due_date sd' = due_date sd ->
           model_ig_handle sd' = model_ig_handle sd ->
           head (items sd') = head (items sd) ->
           generateSingleCaptionForAllItems st' = generateSingleCaptionForAllItems st
           /\ generatedCaptions (generateCaptions st') = captions))
  /\ (selectedPlatform st = str "request" \/ selectedPlatform st = str "end_stream" ->
      NoDup (item_id <$> items sd) ->
      size captions = length (items sd)
      /\ (forall item, item ∈ items sd ->
            exists caption,
              generateCaptionForItem st item = Ok caption
              /\ captions !! itemKey (item_id item) = Some (JString caption)
              /\ forall st' sd',
                   streamData st' = Some sd' ->
                   resolveTemplate st' = resolveTemplate st ->
                   agency_name sd' = agency_name sd ->
                   stream_type sd' = stream_type sd ->
                   due_date sd' = due_date sd ->
                   generateCaptionForItem st' item = Ok caption)
      /\ (forall k, is_Some (captions !! k) ->
            exists item, item ∈ items sd /\ k = itemKey (item_id item))
      /\ (forall a b, items sd = [a; b] -> size captions = 2%nat)).
Proof.
  intros Hsd captions vars. split.
  - intros Hp.
    assert (Hfeed : isFeed (selectedPlatform st) = true).
    { unfold isFeed. destruct Hp as [-> | ->]; by vm_compute. }
    destruct (resolveTemplate_string st) as [t Ht].
    { apply recognized_not_inherited. destruct Hp as [-> | ->]; set_solver. }
    exists t. split; [done|].
    assert (Hone := generateSingle_string st sd t Hsd Hfeed Ht). fold vars in Hone.
    split; [done|].
    assert (Hc : captions = {[ all_items := JString (substitute vars t) ]}).
    { subst captions. unfold generateCaptions. by rewrite Hsd, Hfeed, Hone. }
    split; [done|]. split; [rewrite Hc; apply map_size_singleton|].
    split; [|split].
    + intros Himvu. subst vars. by rewrite Himvu.
    + intros Hig. subst vars. by rewrite Hig.
    + intros Hig st' sd' Hsd' Hp' Ht' Ha Hs Hd Hm Hi.
      assert (Hfeed' : isFeed (selectedPlatform st') = true) by (by rewrite Hp').
      assert (Hone' : generateSingleCaptionForAllItems st'
                      = generateSingleCaptionForAllItems st).
      { rewrite (generateSingle_string st' sd' t Hsd' Hfeed') by congruence.
        rewrite Hone. subst vars. rewrite Hp', Hig.
        by rewrite (basicVariables_ig_feed sd sd'). }
      split; [done|]. rewrite Hc. unfold generateCaptions.
      by rewrite Hsd', Hfeed', Hone', Hone.
  - intros Hp Hnd.
    assert (Hfeed : isFeed (selectedPlatform st) = false).
    { unfold isFeed. destruct Hp as [-> | ->]; by vm_compute. }
    destruct (resolveTemplate_string st) as [t Ht].
    { apply recognized_not_inherited. destruct Hp as [-> | ->]; set_solver. }
    assert (Hc := generateCaptions_per_item st sd t Hsd Hfeed Ht).
    subst captions. rewrite Hc. cbn [generatedCaptions setGeneratedCaptions].
    assert (Hsize : size (foldl (fun acc item =>
                <[itemKey (item_id item)
                  := JString (substitute (itemVariables sd item) t)]> acc)
                (∅ : gmap CaptionKey jsval) (items sd)) = length (items sd)).
    { rewrite (captions_size (fun item => substitute (itemVariables sd item) t));
        [by rewrite map_size_empty|done|]. intros. apply lookup_empty. }
    split; [done|]. split; [|split].
    + intros item Hin. exists (substitute (itemVariables sd item) t).
      split; [by apply generateCaptionForItem_string|]. split.
      * by apply (captions_lookup_item (fun item => substitute (itemVariables sd item) t)).
      * intros st' sd' Hsd' Ht' Ha Hs Hd.
        rewrite (generateCaptionForItem_string st' sd' item t Hsd') by congruence.
        by rewrite (itemVariables_record sd sd').
    + intros k Hk.
      apply (captions_keys (fun item => substitute (itemVariables sd item) t)) in Hk
        as [Hk|Hk]; [|done].
      rewrite lookup_empty in Hk. by destruct Hk.
    + intros a b Hab. rewrite Hsize, Hab. done.
Qed.

Lemma C2_generate_for_platform_witness :
  let st := Instances.openOn "request" None [] Instances.recordAB in
  let feed := Instances.openOn "imvu_feed" None [] Instances.recordAB in
  NoDup (item_id <$> items Instances.recordAB)
  /\ size (generatedCaptions (generateCaptions (host := Instances.utcHost) st)) = 2%nat
  /\ size (generatedCaptions (generateCaptions (host := Instances.utcHost) feed)) = 1%nat
  /\ lookupVar (basicVariables (host := Instances.utcHost) (str "imvu_feed")
                  Instances.recordAB) (str "item_names")
     = Some (str "A, B").
Proof.
  intros st feed.
  assert (Hnd : NoDup (item_id <$> items Instances.recordAB)).
  { apply (bool_decide_unpack _). by vm_compute. }
  split; [exact Hnd|].
  pose proof (C2_generate_for_platform (host := Instances.utcHost) st
                Instances.recordAB eq_refl) as (_ & Hper).
  destruct (Hper (or_introl eq_refl) Hnd) as (Hsize & _).
  split; [exact Hsize|].
  pose proof (C2_generate_for_platform (host := Instances.utcHost) feed
                Instances.recordAB eq_refl) as (Hfeed & _).
  destruct (Hfeed (or_introl eq_refl)) as (t & _ & _ & _ & Hone & Himvu & _).
  split; [exact Hone|]. destruct (Himvu eq_refl) as (Hnames & _). exact Hnames.
Defined.

(* --------------------------------------------------------------------- *)
(** ** Platform keys outside the four recognized ones *)
(* --------------------------------------------------------------------- *)

Section UnknownPlatform.
Context {host : Host}.

Lemma defaultTemplates_unknown (platform : jsstring) :
  platform ∉ PLATFORMS -> defaultTemplates !! platform = None.
Proof. intros Hp. by apply not_elem_of_list_to_map_1. Qed.

Lemma isFeed_unknown (platform : jsstring) :
  platform ∉ PLATFORMS -> isFeed platform = false.
Proof.
  intros Hp. unfold isFeed. apply orb_false_iff.
  split; apply bool_decide_eq_false; intros ->; apply Hp;
    unfold PLATFORMS; set_solver.
Qed.

Lemma captions_lookup_const (f : StreamItem -> jsstring) (c : jsstring)
    (l : list StreamItem) (captions : gmap CaptionKey jsval) (k : CaptionKey) :
  (forall item, f item = c) ->
  captions !! k = Some (JString c)
  \/ (exists item, item ∈ l /\ k = itemKey (item_id item)) ->
  foldl (fun acc item => <[itemKey (item_id item) := JString (f item)]> acc)
    captions l !! k
  = Some (JString c).
Proof.
  intros Hf. revert captions. induction l as [|x l IH]; intros captions Hk.
  - destruct Hk as [Hk|(item & Hin & _)]; [done|by apply elem_of_nil in Hin].
  - cbn [foldl]. apply IH.
    destruct (decide (k = itemKey (item_id x))) as [->|Hne].
    + left. rewrite Hf. apply lookup_insert_eq.
    + destruct Hk as [Hk|(item & Hin & ->)].
      * left. by rewrite lookup_insert_ne.
      * apply elem_of_cons in Hin as [->|Hin]; [done|]. right. eauto.
Qed.

End UnknownPlatform.

(** C6, as the specification states it, fails: no platform key makes
    template resolution fail with UnknownPlatform.  For the key "tiktok"
    the default template is the empty string, and rendering a record with
    two items gives two (empty) captions and reports no failure. *)
Lemma C6_counterexample :
  let st := Instances.openOn "tiktok" None [] Instances.recordAB in
  (str "tiktok" ∉ PLATFORMS)
  /\ getDefaultTemplate (str "tiktok") = JString []
  /\ resolveTemplate st = JString []
  /\ generatedCaptions (generateCaptions (host := Instances.utcHost) st) !! itemKey 1
     = Some (JString [])
  /\ generatedCaptions (generateCaptions (host := Instances.utcHost) st) !! itemKey 2
     = Some (JString [])
  /\ cg_toasts (generateCaptions (host := Instances.utcHost) st) = [].
Proof.
  split; [|by vm_compute].
  eapply bool_decide_eq_false_1. by vm_compute.
Qed.

(** C6 (amended).  The code has no UnknownPlatform failure.  For a platform
    key that is none of the four recognized keys, [getDefaultTemplate]
    returns the empty string, and [generateCaptions] (no agency selected)
    treats the key as a per-item platform: it reports no failure and gives
    every item the empty caption.  Only a key that names a member every
    object inherits ([constructor], [toString], ...) makes the lookup return
    that member instead of a string; rendering an item then throws a
    TypeError, which [generateCaptions] catches: it reports "Failed to
    generate captions" and leaves the shown captions as they were. *)
Theorem C6_unknown_platform {host : Host} (platform : jsstring) :
  platform ∉ PLATFORMS ->
  (platform ∉ objectPrototypeNames ->
   getDefaultTemplate platform = JString []
   /\ forall st sd,
        selectedPlatform st = platform -> selectedAgency st = None ->
        streamData st = Some sd ->
        resolveTemplate st = JString []
        /\ cg_toasts (generateCaptions st) = cg_toasts st
        /\ cg_console (generateCaptions st) = cg_console st
        /\ forall item, item ∈ items sd ->
             generateCaptionForItem st item = Ok []
             /\ generatedCaptions (generateCaptions st) !! itemKey (item_id item)
                = Some (JString []))
  /\ (platform ∈ objectPrototypeNames ->
      getDefaultTemplate platform = JObject
      /\ forall st sd,
           selectedPlatform st = platform -> selectedAgency st = None ->
           streamData st = Some sd -> items sd <> [] ->
           generateCaptions st = failed TypeError st).
Proof.
  intros Hp.
  assert (Hfeed := isFeed_unknown platform Hp).
  assert (Hnone := defaultTemplates_unknown platform Hp).
  split.
  - intros Hown.
    assert (Hd : getDefaultTemplate platform = JString []).
    { unfold getDefaultTemplate, getProp. rewrite Hnone.
      by rewrite bool_decide_eq_false_2. }
    split; [done|]. intros st sd Hplat Hag Hsd.
    assert (Ht : resolveTemplate st = JString []).
    { unfold resolveTemplate. rewrite Hag, Hplat. cbn [truthy]. done. }
    assert (Hc := generateCaptions_per_item st sd [] Hsd).
    rewrite Hplat in Hc. specialize (Hc Hfeed Ht). rewrite Hc.
    split; [done|]. split; [done|]. split; [done|].
    intros item Hin. split.
    + rewrite (generateCaptionForItem_string st sd item [] Hsd Ht).
      by rewrite substitute_nil.
    + cbn [generatedCaptions setGeneratedCaptions].
      apply (captions_lookup_const (fun item => substitute (itemVariables sd item) [])).
      * intros x. apply substitute_nil.
      * right. eauto.
  - intros Hin.
    assert (Hd : getDefaultTemplate platform = JObject).
    { unfold getDefaultTemplate, getProp. rewrite Hnone.
      by rewrite bool_decide_eq_true_2. }
    split; [done|]. intros st sd Hplat Hag Hsd Hne.
    assert (Ht : resolveTemplate st = JObject).
    { unfold resolveTemplate. rewrite Hag, Hplat. cbn [truthy]. done. }
    unfold generateCaptions. rewrite Hsd, Hplat, Hfeed.
    destruct (items sd) as [|item l]; [done|].
    cbn [captionLoop]. unfold generateCaptionForItem. by rewrite Ht.
Qed.

Lemma C6_unknown_platform_witness :
  getDefaultTemplate (str "tiktok") = JString []
  /\ getDefaultTemplate (str "toString") = JObject
  /\ generateCaptions (host := Instances.utcHost)
       (Instances.openOn "toString" None [] Instances.recordAB)
     = failed TypeError (Instances.openOn "toString" None [] Instances.recordAB).
Proof.
  assert (H1 : str "tiktok" ∉ PLATFORMS)
    by (eapply bool_decide_eq_false_1; by vm_compute).
  assert (H2 : str "tiktok" ∉ objectPrototypeNames)
    by (eapply bool_decide_eq_false_1; by vm_compute).
  assert (H3 : str "toString" ∉ PLATFORMS)
    by (eapply bool_decide_eq_false_1; by vm_compute).
  assert (H4 : str "toString" ∈ objectPrototypeNames)
    by (eapply bool_decide_eq_true_1; by vm_compute).
  destruct (C6_unknown_platform (host := Instances.utcHost) (str "tiktok") H1) as (Hown & _).
  destruct (C6_unknown_platform (host := Instances.utcHost) (str "toString") H3) as (_ & Hinh).
  destruct (Hown H2) as (Hd & _). destruct (Hinh H4) as (Hd' & Hfail).
  split; [exact Hd|]. split; [exact Hd'|].
  apply (Hfail _ Instances.recordAB); [reflexivity|reflexivity|reflexivity|discriminate].
Defined.

(* ===================================================================== *)
(** * The remote mirror client *)
(* ===================================================================== *)

(** Unfolding of the monad of effects. *)
Ltac run :=
  cbv beta iota zeta delta
    [mbind M_bind bind mret M_ret ret gets modify throw tryCatch request
     consoleError consoleLog toastSuccess toastError now setItem setStreams
     setEditingStream].

Section ClientLemmas.
Context {Remote : Type} {backend : Backend Remote}.


Lemma getStreams_configured (w : World Remote) (userId : UserId) :
  supabase w = true ->
  exists resp w',
    dbHelpers.getStreams userId w = (Ok (rowsOf resp), w')
    /\ selectStreams userId (remote w) = (resp, remote w')
    /\ net w' = net w ++ [NetSelect userId resp]
    /\ (exists c, console w' = console w ++ c)
    /\ sameApp w w'.
Proof.
  intros Hsb. unfold dbHelpers.getStreams, rowsOf. run. rewrite Hsb. cbn [negb].
  destruct (selectStreams userId (remote w)) as [resp r] eqn:Hsel.
  exists resp. destruct (error resp) as [e|]; eexists;
    (split; [done|]); (split; [done|]); (split; [done|]); (split; [|done]); cbn.
  - by eexists.
  - exists []. by rewrite app_nil_r.
Qed.

Lemma createStream_configured (w : World Remote) (row : Stream) :
  supabase w = true ->
  exists resp w',
    dbHelpers.createStream row w
    = (match error resp with
       | Some e => Throw (RemoteError e)
       | None => Ok (data resp)
       end, w')
    /\ insertStream row (remote w) = (resp, remote w')
    /\ net w' = net w ++ [NetInsert row resp]
    /\ console w' = console w
    /\ sameApp w w'.
Proof.
  intros Hsb. unfold dbHelpers.createStream. run. rewrite Hsb. cbn [negb].
  destruct (insertStream row (remote w)) as [resp r] eqn:Hins.
  exists resp. destruct (error resp) as [e|]; eexists; repeat split; done.
Qed.


(** The three writing requests on a configured client. *)
Lemma dbCreate_run (w : World Remote) (row : Stream) :
  supabase w = true ->
  dbHelpers.createStream row w
  = (match error (insertStream row (remote w)).1 with
     | Some e => Throw (RemoteError e)
     | None => Ok (data (insertStream row (remote w)).1)
     end,
     setRemote (insertStream row (remote w)).2
       (NetInsert row (insertStream row (remote w)).1) w).
Proof.
  intros Hsb. unfold dbHelpers.createStream. run. rewrite Hsb. cbn [negb].
  destruct (insertStream row (remote w)) as [resp r]. cbn [fst snd].
  by destruct (error resp).
Qed.

Lemma dbUpdate_run (w : World Remote) (i : Z) (p : StreamPatch) :
  supabase w = true ->
  dbHelpers.updateStream i p w
  = (match error (updateRow i p (remote w)).1 with
     | Some e => Throw (RemoteError e)
     | None => Ok (data (updateRow i p (remote w)).1)
     end,
     setRemote (updateRow i p (remote w)).2
       (NetUpdate i p (updateRow i p (remote w)).1) w).
Proof.
  intros Hsb. unfold dbHelpers.updateStream. run. rewrite Hsb. cbn [negb].
  destruct (updateRow i p (remote w)) as [resp r]. cbn [fst snd].
  by destruct (error resp).
Qed.

Lemma dbDelete_run (w : World Remote) (i : Z) :
  supabase w = true ->
  dbHelpers.deleteStream i w
  = (match error (deleteRow i (remote w)).1 with
     | Some e => Throw (RemoteError e)
     | None => Ok true
     end,
     setRemote (deleteRow i (remote w)).2
       (NetDelete i (deleteRow i (remote w)).1) w).
Proof.
  intros Hsb. unfold dbHelpers.deleteStream. run. rewrite Hsb. cbn [negb].
  destruct (deleteRow i (remote w)) as [resp r]. cbn [fst snd].
  by destruct (error resp).
Qed.

End ClientLemmas.




(* ===================================================================== *)
(** * The record store of the [Home] page *)
(* ===================================================================== *)

Section StoreLemmas.
Context {Remote : Type} {backend : Backend Remote} {host : Host}.

Lemma sameApp_refl (w : World Remote) : sameApp w w.
Proof. by repeat split. Qed.

Lemma sameApp_trans (w1 w2 w3 : World Remote) :
  sameApp w1 w2 -> sameApp w2 w3 -> sameApp w1 w3.
Proof.
  unfold sameApp. intros (?&?&?&?&?&?&?&?&?) (?&?&?&?&?&?&?&?&?).
  repeat split; congruence.
Qed.



Lemma createStream_frame (w : World Remote) (row : Stream) :
  sameApp w (dbHelpers.createStream row w).2.
Proof.
  unfold dbHelpers.createStream. run. destruct (supabase w); cbn [negb];
    [|apply sameApp_refl].
  destruct (insertStream row (remote w)) as [resp r].
  destruct (error resp); by repeat split.
Qed.

(** [saveStreams] stores and shows the list, or else reports the failure
    and changes neither. *)
Lemma saveStreams_run (l : list Stream) (w : World Remote) :
  Home.saveStreams l w
  = if storageFits w l
    then (Ok tt, tick (putStreams l (setStored l w)))
    else (Ok tt, addToast (ToastError "Failed to save streams")
                   (addConsole (ConsoleError "Error saving streams:" QuotaExceededError) w)).
Proof.
  unfold Home.saveStreams, Home.calculateStats. run. by destruct (storageFits w l).
Qed.

Lemma saveStreams_streams (l : list Stream) (w : World Remote) :
  (Home.saveStreams l w).1 = Ok tt
  /\ streams (Home.saveStreams l w).2 = (if storageFits w l then l else streams w)
  /\ (storageFits w l = true ->
      storedStreams (Home.saveStreams l w).2 = Some l
      /\ toasts (Home.saveStreams l w).2 = toasts w).
Proof. rewrite saveStreams_run. by destruct (storageFits w l). Qed.

End StoreLemmas.

Section CompleteLemmas.
Context {Remote : Type} {backend : Backend Remote} {host : Host}.

Lemma iter_tick_fields (n : nat) (w : World Remote) :
  streams (Nat.iter n tick w) = streams w
  /\ toasts (Nat.iter n tick w) = toasts w
  /\ storageFits (Nat.iter n tick w) = storageFits w
  /\ editingStream (Nat.iter n tick w) = editingStream w.
Proof. induction n as [|n IH]; [done|]. cbn [Nat.iter]. by destruct IH as (?&?&?&?). Qed.

Lemma mapM_cons_run {A B} (f : A -> M Remote B) (x : A) (l : list A)
    (w : World Remote) :
  mapM f (x :: l) w
  = match f x w with
    | (Ok y, w1) =>
        match mapM f l w1 with
        | (Ok ys, w2) => (Ok (y :: ys), w2)
        | (Throw e, w2) => (Throw e, w2)
        end
    | (Throw e, w1) => (Throw e, w1)
    end.
Proof. done. Qed.

Lemma completeOne_run (streamId : Z) (x : Stream) (w : World Remote) :
  Home.completeOne streamId x w
  = if bool_decide (id x = streamId)
    then (Ok (markCompleted (clock w (ticks w)) x), tick w)
    else (Ok x, w).
Proof. unfold Home.completeOne. by case_bool_decide. Qed.

Lemma mapM_complete (streamId : Z) (l : list Stream) (w : World Remote) :
  exists l' n,
    mapM (Home.completeOne streamId) l w = (Ok l', Nat.iter n tick w)
    /\ length l' = length l
    /\ (forall i s, l !! i = Some s -> id s <> streamId -> l' !! i = Some s)
    /\ (streamId ∉ (id <$> l) -> l' = l).
Proof.
  revert w. induction l as [|x l IH]; intros w.
  - exists [], O. by repeat split.
  - rewrite mapM_cons_run, completeOne_run.
    destruct (bool_decide_reflect (id x = streamId)) as [Hx|Hx].
    + destruct (IH (tick w)) as (l' & n & Hrun & Hlen & Hpos & Habs).
      rewrite Hrun.
      exists (markCompleted (clock w (ticks w)) x :: l'), (S n).
      split; [by rewrite Nat.iter_succ_r|]. split; [by cbn; rewrite Hlen|]. split.
      * intros [|i] s Hs Hne; [|by apply Hpos].
        injection Hs as ->. done.
      * intros Hnot. exfalso. apply Hnot. cbn. rewrite Hx. by left.
    + destruct (IH w) as (l' & n & Hrun & Hlen & Hpos & Habs).
      rewrite Hrun.
      exists (x :: l'), n.
      split; [done|]. split; [by cbn; rewrite Hlen|]. split.
      * intros [|i] s Hs Hne; [done|by apply Hpos].
      * intros Hnot. f_equal. apply Habs. intros Hin. apply Hnot. cbn. by right.
Qed.

End CompleteLemmas.

Section HomeLemmas.
Context {Remote : Type} {backend : Backend Remote} {host : Host}.

(** A call to the remote mirror whose failure is caught and reported:
    whatever happens, the page keeps its list of streams. *)
Lemma mirrored_run {A} (m : M Remote A) (text1 text2 : string) (w : World Remote) :
  sameApp w (m w).2 ->
  exists w',
    tryCatch (m;; mret tt)
      (fun e => consoleError text1 e;; toastError text2) w = (Ok tt, w')
    /\ streams w' = streams w /\ storedStreams w' = storedStreams w
    /\ storageFits w' = storageFits w /\ editingStream w' = editingStream w
    /\ (toasts w' = toasts w \/ toasts w' = toasts w ++ [ToastError text2]).
Proof.
  intros Hsame. run. destruct (m w) as [[a|e] w1]; cbn [snd] in Hsame;
    destruct Hsame as (?&?&?&?&?&?&?&?&?); eexists; split; try done;
    cbn; repeat split; try done; auto.
  right. congruence.
Qed.

Lemma createStream_streams (w : World Remote) (draft : StreamDraft) :
  let t0 := clock w (ticks w) in
  match setDate t0 (getDate t0 + d_due_days draft) with
  | None =>
      (Home.createStream draft w).1 = Throw RangeError
      /\ streams (Home.createStream draft w).2 = streams w
  | Some due =>
      let newStream :=
        Home.newStreamOf draft (clock w (S (ticks w))) due (clock w (S (S (ticks w)))) in
      streams (Home.createStream draft w).2
      = if storageFits w (streams w ++ [newStream])
        then streams w ++ [newStream] else streams w
  end.
Proof.
  intros t0. unfold Home.createStream, Home.toISOString. run. cbn [clock ticks tick streams].
  fold t0. destruct (setDate t0 (getDate t0 + d_due_days draft)) as [due|]; [|done].
  cbn [streams tick clock ticks]. rewrite saveStreams_run. cbn [storageFits tick].
  set (newStream := Home.newStreamOf draft _ due _).
  set (w2 := if storageFits w (streams w ++ [newStream]) then _ else _).
  assert (Hw2 : w2.1 = Ok tt
                /\ streams w2.2 = if storageFits w (streams w ++ [newStream])
                                  then streams w ++ [newStream] else streams w).
  { subst w2. by destruct (storageFits w (streams w ++ [newStream])). }
  destruct w2 as [r w2]. cbn [fst snd] in Hw2. destruct Hw2 as [-> Hw2].
  rewrite <- Hw2. clear Hw2.
  destruct (user w2) as [uid|]; [|done].
  destruct (supabase w2); [|done].
  pose proof (createStream_frame w2 (withUser uid newStream)) as Hsame.
  destruct (dbHelpers.createStream (withUser uid newStream) w2) as [[a|e] w3];
    cbn [snd] in Hsame; by destruct Hsame as (?&?&?&?&?&?&?&?&?).
Qed.

Lemma completeStream_run (w : World Remote) (streamId : Z) :
  exists l' n,
    mapM (Home.completeOne streamId) (streams w) w = (Ok l', Nat.iter n tick w)
    /\ Home.completeStream streamId w
       = (Ok tt, addToast (ToastSuccess "Stream completed successfully! ✨")
                   (Home.saveStreams l' (Nat.iter n tick w)).2).
Proof.
  destruct (mapM_complete streamId (streams w) w) as (l' & n & Hrun & _).
  exists l', n. split; [done|].
  unfold Home.completeStream. run. rewrite Hrun.
  destruct (saveStreams_streams l' (Nat.iter n tick w)) as (Hok & _).
  destruct (Home.saveStreams l' (Nat.iter n tick w)) as [r w2].
  cbn [fst] in Hok. by rewrite Hok.
Qed.



End HomeLemmas.

Section StoreRuns.
Context {Remote : Type} {backend : Backend Remote} {host : Host}.

Lemma sameStore_refl (w : World Remote) : sameStore w w.
Proof. by repeat split. Qed.

Lemma sameStore_trans (w1 w2 w3 : World Remote) :
  sameStore w1 w2 -> sameStore w2 w3 -> sameStore w1 w3.
Proof.
  unfold sameStore. intros (?&?&?&?&?&?&?) (?&?&?&?&?&?&?).
  repeat split; congruence.
Qed.

Lemma sameApp_sameStore (w w' : World Remote) : sameApp w w' -> sameStore w w'.
Proof. unfold sameApp, sameStore. intros (?&?&?&?&?&?&?&?&?). by repeat split. Qed.

(** What [saveStreams] leaves alone. *)
Lemma saveStreams_frame (l : list Stream) (w : World Remote) :
  let w2 := (Home.saveStreams l w).2 in
  user w2 = user w /\ supabase w2 = supabase w /\ net w2 = net w
  /\ remote w2 = remote w /\ storageFits w2 = storageFits w
  /\ editingStream w2 = editingStream w /\ clock w2 = clock w.
Proof. rewrite saveStreams_run. by destruct (storageFits w l). Qed.

(** The local outcome of [saveStreams]: list and slot change together or
    not at all. *)
Lemma saveStreams_local (l : list Stream) (w : World Remote) :
  let w2 := (Home.saveStreams l w).2 in
  (storageFits w l = true ->
   streams w2 = l /\ storedStreams w2 = Some l /\ toasts w2 = toasts w)
  /\ (storageFits w l = false ->
      streams w2 = streams w /\ storedStreams w2 = storedStreams w
      /\ toasts w2 = toasts w ++ [ToastError "Failed to save streams"]).
Proof. rewrite saveStreams_run. by destruct (storageFits w l). Qed.

(** [deleteStream], in full: the local save, then the request (if a user
    is signed in on a configured client), then the toasts. *)
Lemma deleteStream_full (w : World Remote) (streamId : Z) :
  let updated := filter (fun stream => id stream <> streamId) (streams w) in
  let w2 := (Home.saveStreams updated w).2 in
  exists w',
    Home.deleteStream streamId w = (Ok tt, w')
    /\ sameStore w2 w'
    /\ ((user w = None \/ supabase w = false) ->
        net w' = net w
        /\ toasts w' = toasts w2 ++ [ToastSuccess "Stream deleted successfully! ✨"])
    /\ (is_Some (user w) -> supabase w = true ->
        let resp := (deleteRow streamId (remote w)).1 in
        net w' = net w ++ [NetDelete streamId resp]
        /\ toasts w'
           = toasts w2
             ++ match error resp with
                | Some _ => [ToastError "Deleted locally, but failed to sync to cloud"]
                | None => []
                end
             ++ [ToastSuccess "Stream deleted successfully! ✨"]).
Proof.
  intros updated w2.
  destruct (saveStreams_frame updated w) as (Hu & Hsb & Hnet & Hrem & _).
  destruct (saveStreams_streams updated w) as (Hok & _).
  fold w2 in Hu, Hsb, Hnet, Hrem.
  unfold Home.deleteStream. run. fold updated.
  destruct (Home.saveStreams updated w) as [r w2'] eqn:Hsave.
  cbn [fst snd] in *. subst w2. rewrite Hok, Hu, Hsb.
  destruct (user w) as [uid|]; [destruct (supabase w) eqn:Hs|].
  - rewrite dbDelete_run by congruence. rewrite Hrem.
    destruct (deleteRow streamId (remote w)) as [resp r'].
    cbn [fst snd]. destruct (error resp) as [e|] eqn:He; eexists; (split; [done|]);
      (split; [by repeat split|]); (split; [by intros [?|?]|]);
      intros _ _; cbv zeta; cbn [fst snd]; rewrite ?He; cbn; rewrite Hnet; split; try done;
      by rewrite <- app_assoc.
  - eexists. split; [done|]. split; [by repeat split|].
    split; [by intros _; cbn|]. by intros _ ?.
  - eexists. split; [done|]. split; [by repeat split|].
    split; [by intros _; cbn|]. by intros [? ?].
Qed.

End StoreRuns.

Section UpdateFull.
Context {Remote : Type} {backend : Backend Remote} {host : Host}.

(** [updateStream], in full. *)
Lemma updateStream_full (w : World Remote) (patch : StreamPatch) :
  let updated :=
    map (fun stream =>
           if bool_decide (Some (id stream) = id <$> editingStream w)
           then applyPatch patch stream else stream) (streams w) in
  let w2 := (Home.saveStreams updated w).2 in
  exists w',
    Home.updateStream patch w = (Ok tt, w')
    /\ sameStore w2 w'
    /\ editingStream w' = None
    /\ ((user w = None \/ supabase w = false \/ editingStream w = None) ->
        net w' = net w
        /\ toasts w' = toasts w2 ++ [ToastSuccess "Stream updated successfully! ✨"])
    /\ (forall e, is_Some (user w) -> supabase w = true -> editingStream w = Some e ->
        let resp := (updateRow (id e) patch (remote w)).1 in
        net w' = net w ++ [NetUpdate (id e) patch resp]
        /\ toasts w'
           = toasts w2
             ++ match error resp with
                | Some _ => [ToastError "Updated locally, but failed to sync to cloud"]
                | None => []
                end
             ++ [ToastSuccess "Stream updated successfully! ✨"]).
Proof.
  intros updated w2.
  destruct (saveStreams_frame updated w) as (Hu & Hsb & Hnet & Hrem & _).
  destruct (saveStreams_streams updated w) as (Hok & _).
  fold w2 in Hu, Hsb, Hnet, Hrem.
  unfold Home.updateStream. run. fold updated.
  destruct (Home.saveStreams updated w) as [r w2'] eqn:Hsave.
  cbn [fst snd] in *. subst w2. rewrite Hok, Hu, Hsb.
  destruct (user w) as [uid|];
    [destruct (editingStream w) as [e|] eqn:He; [destruct (supabase w) eqn:Hs|]|].
  - rewrite dbUpdate_run by congruence. rewrite Hrem.
    destruct (updateRow (id e) patch (remote w)) as [resp r'] eqn:Hupd.
    cbn [fst snd]. destruct (error resp) as [err|] eqn:Herr; eexists; (split; [done|]);
      (split; [by repeat split|]); (split; [done|]);
      (split; [by intros [?|[?|?]]|]);
      intros e' _ _ [= <-]; cbv zeta; rewrite Hupd; cbn [fst snd]; rewrite ?Herr; cbn;
      rewrite Hnet; split; try done; by rewrite <- app_assoc.
  - eexists. split; [done|]. split; [by repeat split|]. split; [done|].
    split; [by intros _; cbn|]. by intros ? _ ?.
  - eexists. split; [done|]. split; [by repeat split|]. split; [done|].
    split; [by intros _; cbn|]. by intros ? _ _ ?.
  - eexists. split; [done|]. split; [by repeat split|]. split; [done|].
    split; [by intros _; cbn|]. by intros ? [? ?].
Qed.

End UpdateFull.

Section TickFields.
Context {Remote : Type}.

Lemma iter_tick_store (n : nat) (w : World Remote) :
  net (Nat.iter n tick w) = net w /\ remote (Nat.iter n tick w) = remote w
  /\ user (Nat.iter n tick w) = user w /\ supabase (Nat.iter n tick w) = supabase w
  /\ storedStreams (Nat.iter n tick w) = storedStreams w
  /\ clock (Nat.iter n tick w) = clock w.
Proof.
  induction n as [|n IH]; [done|]. cbn [Nat.iter].
  by destruct IH as (?&?&?&?&?&?).
Qed.

End TickFields.




(* --------------------------------------------------------------------- *)
(** ** The due date of a new stream *)
(* --------------------------------------------------------------------- *)

Section DueDate.
Context {host : Host}.

Lemma MonthFromTime_range (t : Z) : 0 <= MonthFromTime t <= 11.
Proof.
  unfold MonthFromTime.
  repeat match goal with
         | |- context [if ?b then _ else _] => destruct b
         end; lia.
Qed.

(** Setting the day of the month to today's plus [n] moves the day number
    by [n], whatever the month and the year. *)
Lemma MakeDay_same_month (t n : Z) :
  MakeDay (YearFromTime t) (MonthFromTime t) (DateFromTime t + n) = Day t + n.
Proof.
  pose proof (MonthFromTime_range t) as Hm. unfold MakeDay.
  rewrite Z.div_small, Z.mod_small, Z.add_0_r by lia.
  unfold DateFromTime, DayWithinYear, InLeapYear. lia.
Qed.

Lemma setDate_add_days (tv n : Z) :
  setDate tv (getDate tv + n) = TimeClip (UTC (LocalTime tv + n * msPerDay)).
Proof.
  unfold setDate, getDate. rewrite MakeDay_same_month.
  do 2 f_equal. unfold MakeDate, Day, TimeWithinDay.
  pose proof (Z.div_mod (LocalTime tv) msPerDay) as Hdm.
  assert (msPerDay <> 0) by done. lia.
Qed.

Lemma TimeClip_in_range (t : Z) :
  Z.abs t <= 8640000000000000 -> TimeClip t = Some t.
Proof.
  intros Ht. unfold TimeClip.
  destruct (Z.ltb_spec 8640000000000000 (Z.abs t)); [lia|done].
Qed.

End DueDate.

(** C4, as the specification states it, fails: [created_at] is a later
    reading of the clock than the one the due date is counted from.  With
    the clock at 2024-02-29T12:00:00.000Z and advancing by one millisecond
    per reading, a stream due in 1 day gets a due date of one day after
    12:00:00.000 and a creation time of 12:00:00.002. *)
Lemma C4_counterexample :
  let w := Instances.emptyWorld false [] 1709208000000 in
  let w' := (Home.createStream (backend := Instances.memoryBackend)
               (host := Instances.utcHost) (Instances.draftDue 1) w).2 in
  exists s,
    streams w' = [s]
    /\ created_at s = 1709208000002
    /\ due_date s = Some (1709208000000 + 1 * msPerDay)
    /\ due_date s <> Some (created_at s + 1 * msPerDay).
Proof. eexists. vm_compute. repeat split; congruence. Qed.

(** C4 (amended).  [createStream] does not validate [due_days].  For a
    draft with an integer [due_days], the new stream's due date is the
    instant read off the clock when [createStream] starts, moved by exactly
    [due_days] days of local time (same local time of day; it must be a
    valid date).  Its [created_at] is a separate, later reading of the
    clock.  So, the time zone offset being the same at both ends, the due
    date is that first instant plus [due_days] times 24 hours, and it
    equals [created_at] plus [due_days] days exactly when the clock has not
    advanced between the two readings. *)
Theorem C4_due_date {Remote : Type} {backend : Backend Remote} {host : Host}
    (w : World Remote) (draft : StreamDraft) :
  let t0 := clock w (ticks w) in
  let created := clock w (S (S (ticks w))) in
  let n := d_due_days draft in
  let due := UTC (LocalTime t0 + n * msPerDay) in
  Z.abs due <= 8640000000000000 ->
  storageFits w
    (streams w ++ [Home.newStreamOf draft (clock w (S (ticks w))) due created]) = true ->
  (exists s,
     streams (Home.createStream draft w).2 = streams w ++ [s]
     /\ due_date s = Some due /\ created_at s = created /\ status s = active)
  /\ ((forall t b, LocalTZA t b = LocalTZA t0 true) ->
      due = t0 + n * msPerDay
      /\ (due = created + n * msPerDay <-> created = t0)).
Proof.
  intros t0 created n due Hrange Hfits. split.
  - pose proof (createStream_streams w draft) as Hc. cbv zeta in Hc.
    fold t0 n in Hc. rewrite setDate_add_days in Hc. fold due in Hc.
    rewrite TimeClip_in_range in Hc by done. fold created in Hc.
    rewrite Hfits in Hc. eexists. split; [exact Hc|done].
  - intros Htz. assert (Hdue : due = t0 + n * msPerDay).
    { subst due. unfold UTC, LocalTime. rewrite (Htz _ false). lia. }
    split; [done|]. lia.
Qed.

Lemma C4_due_date_witness :
  let w := Instances.emptyWorld false [] 1709208000000 in
  exists s,
    streams (Home.createStream (backend := Instances.memoryBackend)
               (host := Instances.utcHost) (Instances.draftDue 7) w).2 = [s]
    /\ due_date s = Some (1709208000000 + 7 * msPerDay)
    /\ created_at s = 1709208000002 /\ status s = active.
Proof.
  intros w.
  assert (Hrange : Z.abs (UTC (host := Instances.utcHost)
                            (LocalTime (host := Instances.utcHost) 1709208000000
                             + 7 * msPerDay)) <= 8640000000000000)
    by (vm_compute; discriminate).
  destruct (C4_due_date (backend := Instances.memoryBackend)
              (host := Instances.utcHost) w (Instances.draftDue 7) Hrange eq_refl)
    as (Hs & _).
  exact Hs.
Defined.

(* --------------------------------------------------------------------- *)
(** ** The order of the list *)
(* --------------------------------------------------------------------- *)



(* ===================================================================== *)
(** * Reconciliation *)
(* ===================================================================== *)

Section PushLemmas.
Context {Remote : Type} {backend : Backend Remote}.

Lemma forOf_cons_run {A} (body : A -> M Remote unit) (x : A) (l : list A)
    (w : World Remote) :
  forOf (x :: l) body w
  = match body x w with
    | (Ok _, w1) => forOf l body w1
    | (Throw e, w1) => (Throw e, w1)
    end.
Proof. done. Qed.



Lemma creates_insert (row : Stream) (resp : Response (list Stream)) (t : list NetCall) :
  creates (NetInsert row resp :: t) = row :: creates t.
Proof. done. Qed.

Lemma fetches_insert (row : Stream) (resp : Response (list Stream)) (t : list NetCall) :
  fetches (NetInsert row resp :: t) = fetches t.
Proof. done. Qed.

(** One turn of the loop on a record the remote set already has. *)
Lemma uploadIfNew_known (userId : UserId) (ids : gset Z) (stream : Stream)
    (w : World Remote) :
  id stream ∈ ids -> dbHelpers.uploadIfNew userId ids stream w = (Ok tt, w).
Proof. intros Hin. unfold dbHelpers.uploadIfNew. by rewrite bool_decide_eq_true_2. Qed.

(** One turn of the loop on a record the remote set does not have. *)
Lemma uploadIfNew_new (userId : UserId) (ids : gset Z) (stream : Stream)
    (w : World Remote) :
  id stream ∉ ids -> supabase w = true ->
  exists resp w',
    dbHelpers.uploadIfNew userId ids stream w
    = (match error resp with
       | Some e => Throw (RemoteError e)
       | None => Ok tt
       end, w')
    /\ insertStream (withUser userId stream) (remote w) = (resp, remote w')
    /\ net w' = net w ++ [NetInsert (withUser userId stream) resp]
    /\ console w' = console w
    /\ sameApp w w'.
Proof.
  intros Hnew Hsb. unfold dbHelpers.uploadIfNew. rewrite bool_decide_eq_false_2 by done.
  destruct (createStream_configured w (withUser userId stream) Hsb)
    as (resp & w' & Hrun & Hins & Hnet & Hcon & Hsame).
  exists resp, w'. split; [|done]. run. rewrite Hrun. by destruct (error resp).
Qed.

(** The loop when the remote service accepts the rows: exactly the
    records with an id the remote set does not have are inserted. *)
Lemma push_all (userId : UserId) (ids : gset Z) (l : list Stream)
    (w : World Remote) :
  supabase w = true ->
  accepts (withUser userId <$> filter (fun s => id s ∉ ids) l) (remote w) ->
  exists w' t,
    forOf l (dbHelpers.uploadIfNew userId ids) w = (Ok tt, w')
    /\ net w' = net w ++ t
    /\ creates t = withUser userId <$> filter (fun s => id s ∉ ids) l
    /\ fetches t = []
    /\ console w' = console w
    /\ sameApp w w'.
Proof.
  revert w. induction l as [|x l IH]; intros w Hsb Hacc.
  - exists w, []. rewrite app_nil_r. repeat split; done.
  - rewrite forOf_cons_run. destruct (decide (id x ∈ ids)) as [Hin|Hnew].
    + rewrite uploadIfNew_known by done.
      rewrite filter_cons_False in Hacc |- * by (by intros ?).
      by apply IH.
    + destruct (uploadIfNew_new userId ids x w Hnew Hsb)
        as (resp & w1 & Hrun1 & Hins & Hnet1 & Hcon1 & Hsame1).
      rewrite Hrun1. rewrite filter_cons_True in Hacc |- * by done.
      cbn [fmap list_fmap accepts] in Hacc. rewrite Hins in Hacc.
      cbn [fst snd] in Hacc. destruct Hacc as [Herr Hacc]. rewrite Herr.
      assert (Hsb1 : supabase w1 = true) by (destruct Hsame1 as (-> & _); done).
      destruct (IH w1 Hsb1 Hacc) as (w' & t & Hrun & Hnet & Hcr & Hfe & Hcon & Hsame).
      exists w', (NetInsert (withUser userId x) resp :: t).
      split; [done|]. split; [by rewrite Hnet, Hnet1, <- app_assoc|].
      split; [by rewrite creates_insert, Hcr|].
      split; [by rewrite fetches_insert|]. split; [congruence|].
      eapply sameApp_trans; done.
Qed.




Lemma pushTrace_fetches (rows : list Stream) (r : Remote) :
  fetches (pushTrace rows r).1 = [].
Proof.
  revert r. induction rows as [|row rows IH]; intros r; [done|].
  cbn [pushTrace]. cbv zeta. destruct (error _); [done|].
  cbn [fst]. by rewrite fetches_insert.
Qed.


End PushLemmas.

Section SyncLemmas.
Context {Remote : Type} {backend : Backend Remote} {host : Host}.

Lemma filter_known_ids (R l : list Stream) :
  filter (fun s => id s ∉ (list_to_set (id <$> R) : gset Z)) l
  = filter (fun s => id s ∉ (id <$> R)) l.
Proof. apply list_filter_iff. intros s. by rewrite elem_of_list_to_set. Qed.

(** [syncLocalData] on a configured client: one fetch, then the loop; an
    exception of the loop is caught and logged. *)
Lemma syncLocalData_run (userId : UserId) (l : list Stream) (w : World Remote) :
  supabase w = true ->
  exists resp w0,
    selectStreams userId (remote w) = (resp, remote w0)
    /\ net w0 = net w ++ [NetSelect userId resp]
    /\ sameApp w w0
    /\ dbHelpers.syncLocalData userId l w
       = match forOf l (dbHelpers.uploadIfNew userId
                          (list_to_set (id <$> rowsOf resp))) w0 with
         | (Ok _, w1) => (Ok tt, addConsole (ConsoleLog "Data synced successfully") w1)
         | (Throw e, w1) => (Ok tt, addConsole (ConsoleError "Error syncing data:" e) w1)
         end.
Proof.
  intros Hsb.
  destruct (getStreams_configured w userId Hsb)
    as (resp & w0 & Hget & Hsel & Hnet & _ & Hsame).
  exists resp, w0. split; [done|]. split; [done|]. split; [done|].
  unfold dbHelpers.syncLocalData. run. rewrite Hsb. cbn [negb]. rewrite Hget.
  by destruct (forOf l _ w0) as [[[]|e] w1].
Qed.

Lemma sameApp_addConsole (c : ConsoleMsg) (w w' : World Remote) :
  sameApp w w' -> sameApp w (addConsole c w').
Proof. done. Qed.


(** The download phase of [syncData], case by case. *)
Lemma download_cases (userId : UserId) (w1 : World Remote) :
  supabase w1 = true ->
  exists resp w2,
    selectStreams userId (remote w1) = (resp, remote w2)
    /\ net w2 = net w1 ++ [NetSelect userId resp]
    /\ sameApp w1 w2
    /\ tryCatch
         (dbStreams ← dbHelpers.getStreams userId;
          (if bool_decide (0 < length dbStreams)%nat then
             setItem dbStreams;;
             toastSuccess "Data downloaded successfully!"
           else mret tt);;
          Home.handleSync)
         (fun e =>
            consoleError "Sync error:" e;;
            toastError "Failed to sync data") w1
       = (Ok tt,
          match rowsOf resp with
          | [] =>
              match storedStreams w2 with
              | Some parsed => tick (putStreams parsed w2)
              | None => w2
              end
          | _ =>
              if storageFits w2 (rowsOf resp)
              then tick (putStreams (rowsOf resp)
                           (addToast (ToastSuccess "Data downloaded successfully!")
                              (setStored (rowsOf resp) w2)))
              else addToast (ToastError "Failed to sync data")
                     (addConsole (ConsoleError "Sync error:" QuotaExceededError) w2)
          end).
Proof.
  intros Hsb.
  destruct (getStreams_configured w1 userId Hsb)
    as (resp & w2 & Hget & Hsel & Hnet & _ & Hsame).
  exists resp, w2. split; [done|]. split; [done|]. split; [done|].
  unfold Home.handleSync, Home.loadStreams, Home.calculateStats.
  run. rewrite Hget. destruct (rowsOf resp) as [|x R'] eqn:HR.
  - rewrite bool_decide_eq_false_2 by (cbn; lia).
    by destruct (storedStreams w2).
  - rewrite bool_decide_eq_true_2 by (cbn; lia).
    by destruct (storageFits w2 (x :: R')).
Qed.

End SyncLemmas.

Section SyncRun.
Context {Remote : Type} {backend : Backend Remote} {host : Host}.

Lemma tryCatch_after {A B} (m : M Remote A) (k : A -> M Remote B)
    (h : Exn -> M Remote B) (w w1 : World Remote) (a : A) :
  m w = (Ok a, w1) -> tryCatch (m ≫= k) h w = tryCatch (k a) h w1.
Proof. intros Hm. run. by rewrite Hm. Qed.

(** [syncData] for a signed-in user on a configured client: the upload
    phase, which always returns normally into the world [w1], followed by
    the download phase from [w1]. *)
Lemma syncData_phases (userId : UserId) (l : list Stream) (w w1 : World Remote) :
  supabase w = true ->
  (if bool_decide (0 < length l)%nat then
     dbHelpers.syncLocalData userId l;;
     toastSuccess "Data synced successfully!"
   else mret tt) w = (Ok tt, w1) ->
  AccountManager.syncData (Some userId) l w
  = tryCatch
      (dbStreams ← dbHelpers.getStreams userId;
       (if bool_decide (0 < length dbStreams)%nat then
          setItem dbStreams;;
          toastSuccess "Data downloaded successfully!"
        else mret tt);;
       Home.handleSync)
      (fun e =>
         consoleError "Sync error:" e;;
         toastError "Failed to sync data") w1.
Proof.
  intros Hsb Hup. unfold AccountManager.syncData.
  change ((sb ← gets supabase;
           if negb sb then mret tt else ?t) w)
    with ((if negb (supabase w) then mret tt else t) w).
  rewrite Hsb. cbn [negb].
  exact (tryCatch_after _ _ _ w w1 tt Hup).
Qed.

End SyncRun.

Section UploadPhase.
Context {Remote : Type} {backend : Backend Remote} {host : Host}.


End UploadPhase.







(* ===================================================================== *)
(** * Further properties of the record store *)
(* ===================================================================== *)


Section CreateRuns.
Context {Remote : Type} {backend : Backend Remote} {host : Host}.

(** On a number, the page's [createStream] is the one of the claims. *)
Lemma createStream_number (d : StreamDraft) :
  HomeMore.createStream (formOf d) = Home.createStream d.
Proof.
  unfold HomeMore.createStream, Home.createStream, HomeMore.newStreamOf,
    Home.newStreamOf, HomeMore.plusDueDays, formOf.
  cbn [f_agency_name f_due_days f_priority f_stream_type f_notes f_items].
  reflexivity.
Qed.

(** [createStream], in full. *)
Lemma createStream_full (w : World Remote) (fd : FormData) :
  let t0 := clock w (ticks w) in
  match setDate t0 (HomeMore.plusDueDays (getDate t0) (f_due_days fd)) with
  | None => HomeMore.createStream fd w = (Throw RangeError, tick (tick w))
  | Some due =>
      let newStream :=
        HomeMore.newStreamOf fd (clock w (S (ticks w))) due (clock w (S (S (ticks w)))) in
      let w2 := (Home.saveStreams (streams w ++ [newStream]) (tick (tick (tick w)))).2 in
      exists w',
        HomeMore.createStream fd w = (Ok tt, w')
        /\ sameStore w2 w'
        /\ ((user w = None \/ supabase w = false) ->
            net w' = net w
            /\ toasts w' = toasts w2 ++ [ToastSuccess "Stream created successfully! ✨"])
        /\ (forall uid, user w = Some uid -> supabase w = true ->
            let resp := (insertStream (withUser uid newStream) (remote w)).1 in
            net w' = net w ++ [NetInsert (withUser uid newStream) resp]
            /\ toasts w'
               = toasts w2
                 ++ match error resp with
                    | Some _ => [ToastError "Saved locally, but failed to sync to cloud"]
                    | None => [ToastSuccess "Stream created successfully! ✨"]
                    end)
  end.
Proof.
  intros t0.
  destruct (setDate t0 _) as [due|] eqn:Hdue.
  2: { unfold HomeMore.createStream, Home.toISOString. run.
       change (clock w (ticks w)) with t0. by rewrite Hdue. }
  intros newStream w2.
  set (w3 := tick (tick (tick w))) in *.
  destruct (saveStreams_frame (streams w ++ [newStream]) w3) as (Hu & Hsb & Hnet & Hrem & _).
  destruct (saveStreams_streams (streams w ++ [newStream]) w3) as (Hok & _).
  fold w2 in Hu, Hsb, Hnet, Hrem.
  unfold HomeMore.createStream, Home.toISOString. run.
  change (clock w (ticks w)) with t0. rewrite Hdue.
  change (clock (tick w) (ticks (tick w))) with (clock w (S (ticks w))).
  change (clock (tick (tick w)) (ticks (tick (tick w)))) with (clock w (S (S (ticks w)))).
  fold newStream. fold w3. change (streams w3) with (streams w).
  destruct (Home.saveStreams (streams w ++ [newStream]) w3) as [r w2'] eqn:Hsave.
  cbn [fst snd] in *. subst w2.
  change (user w3) with (user w) in Hu. change (supabase w3) with (supabase w) in Hsb.
  change (net w3) with (net w) in Hnet. change (remote w3) with (remote w) in Hrem.
  rewrite Hok, Hu, Hsb.
  destruct (user w) as [uid|]; [destruct (supabase w) eqn:Hs|].
  - rewrite dbCreate_run by congruence. rewrite Hrem.
    destruct (insertStream (withUser uid newStream) (remote w)) as [resp r'] eqn:Hins.
    cbn [fst snd]. destruct (error resp) as [e|] eqn:He; eexists; (split; [done|]);
      (split; [by repeat split|]); (split; [by intros [?|?]|]);
      intros u' [= <-] _; cbv zeta; rewrite Hins; cbn [fst snd]; rewrite ?He; cbn;
      rewrite Hnet; by split.
  - eexists. split; [done|]. split; [by repeat split|].
    split; [by intros _; cbn|]. by intros ? _ ?.
  - eexists. split; [done|]. split; [by repeat split|].
    split; [by intros _; cbn|]. by intros ? ?.
Qed.

End CreateRuns.

Section UpdateRuns.
Context {Remote : Type} {backend : Backend Remote} {host : Host}.




End UpdateRuns.

Section StoreFacts.
Context {Remote : Type} {backend : Backend Remote} {host : Host}.


Lemma inStep_saveStreams (l : list Stream) (w : World Remote) :
  inStep w -> inStep (Home.saveStreams l w).2.
Proof.
  unfold inStep. intros Hw. rewrite saveStreams_run.
  destruct (storageFits w l); cbn; congruence.
Qed.

Lemma inStep_sameStore (w w' : World Remote) : sameStore w w' -> inStep w -> inStep w'.
Proof. unfold inStep. intros (-> & -> & _). done. Qed.

End StoreFacts.

(** X1.  [deleteStream] is a true removal: when local storage takes the
    shortened list, no record with the id is left, every other record is
    kept, the stored slot holds the list shown, an id that was not in the
    list leaves the list as it was, and deleting the same id again changes
    nothing. *)
Theorem delete_removes_record {Remote : Type} {backend : Backend Remote}
    (w : World Remote) (streamId : Z) :
  storageFits w (filter (fun s => id s <> streamId) (streams w)) = true ->
  let w' := (Home.deleteStream streamId w).2 in
  (streamId ∉ (id <$> streams w'))
  /\ (forall s, s ∈ streams w' <-> s ∈ streams w /\ id s <> streamId)
  /\ storedStreams w' = Some (streams w')
  /\ (streamId ∉ (id <$> streams w) -> streams w' = streams w)
  /\ streams (Home.deleteStream streamId w').2 = streams w'.
Proof.
  intros Hfits w'.
  destruct (deleteStream_full w streamId) as (w1 & Hrun & Hsame & _).
  destruct (saveStreams_local (filter (fun s => id s <> streamId) (streams w)) w)
    as (Hloc & _).
  destruct (Hloc Hfits) as (Hs & Hst & _).
  destruct (saveStreams_frame (filter (fun s => id s <> streamId) (streams w)) w)
    as (_ & _ & _ & _ & Hfit2 & _).
  destruct Hsame as (Hs1 & Hs2 & Hs3 & _).
  assert (Hw' : streams w' = filter (fun s => id s <> streamId) (streams w)).
  { subst w'. rewrite Hrun. cbn [snd]. congruence. }
  assert (Hfit' : storageFits w' = storageFits w).
  { subst w'. rewrite Hrun. cbn [snd]. congruence. }
  split.
  { rewrite Hw'. intros Hin. apply list_elem_of_fmap in Hin as (s & Hid & Hin).
    apply list_elem_of_filter in Hin as [Hne _]. by apply Hne. }
  split.
  { intros s. rewrite Hw', list_elem_of_filter. tauto. }
  split.
  { subst w'. rewrite Hrun. cbn [snd]. congruence. }
  split.
  { intros Habs. rewrite Hw'. clear -Habs.
    induction (streams w) as [|x l IH]; [done|].
    rewrite filter_cons_True.
    - f_equal. apply IH. intros Hin. apply Habs. cbn. by right.
    - intros E. apply Habs. cbn. rewrite E. by left. }
  destruct (deleteStream_full w' streamId) as (w2 & Hrun2 & Hsame2 & _).
  rewrite Hrun2. cbn [snd]. destruct Hsame2 as (-> & _).
  destruct (saveStreams_local (filter (fun s => id s <> streamId) (streams w')) w')
    as (Hloc2 & _).
  assert (Hff : filter (fun s => id s <> streamId) (streams w') = streams w').
  { rewrite Hw'. by apply list_filter_filter_l. }
  rewrite Hff in Hloc2 |- *. apply Hloc2. rewrite Hfit', Hw'. done.
Qed.

Lemma delete_removes_record_witness :
  let w := Examples.signedOut [Instances.recA; Instances.recB; Instances.recA] in
  streams (Home.deleteStream (backend := Instances.memoryBackend) 1 w).2
  = [Instances.recB]
  /\ storedStreams (Home.deleteStream (backend := Instances.memoryBackend) 1 w).2
     = Some [Instances.recB].
Proof.
  intros w.
  destruct (delete_removes_record (backend := Instances.memoryBackend) w 1 eq_refl)
    as (_ & _ & Hst & _).
  split; [reflexivity|]. rewrite Hst. reflexivity.
Defined.



(** X3.  The stored slot and the list shown stay in step: if the slot holds
    the list the page shows, it still does after [createStream],
    [completeStream], [updateStream] or [deleteStream], whatever the data,
    whether local storage takes the new list or refuses it, and whatever
    the remote service answers. *)
Theorem store_stays_in_step {Remote : Type} {backend : Backend Remote} {host : Host}
    (w : World Remote) :
  inStep w ->
  (forall streamData, inStep (HomeMore.createStream streamData w).2)
  /\ (forall streamId, inStep (Home.completeStream streamId w).2)
  /\ (forall patch, inStep (Home.updateStream patch w).2)
  /\ (forall streamId, inStep (Home.deleteStream streamId w).2).
Proof.
  intros Hw. repeat split.
  - intros fd. pose proof (createStream_full w fd) as H. cbv zeta in H.
    destruct (setDate _ _) as [due|].
    + destruct H as (w' & -> & Hsame & _). cbn [snd].
      eapply inStep_sameStore; [exact Hsame|]. by apply inStep_saveStreams.
    + by rewrite H.
  - intros streamId. destruct (completeStream_run w streamId) as (l' & n & _ & ->).
    cbn [snd]. apply (inStep_saveStreams l' (Nat.iter n tick w)).
    unfold inStep. destruct (iter_tick_store n w) as (_ & _ & _ & _ & -> & _).
    destruct (iter_tick_fields n w) as (-> & _). done.
  - intros patch. destruct (updateStream_full w patch) as (w' & -> & Hsame & _).
    cbn [snd]. eapply inStep_sameStore; [exact Hsame|]. by apply inStep_saveStreams.
  - intros streamId. destruct (deleteStream_full w streamId) as (w' & -> & Hsame & _).
    cbn [snd]. eapply inStep_sameStore; [exact Hsame|]. by apply inStep_saveStreams.
Qed.

Lemma store_stays_in_step_witness :
  inStep (Home.deleteStream (backend := Examples.refusingBackend) 1
            (Examples.signedIn tt [Instances.recA; Instances.recB] (fun _ => false))).2.
Proof.
  apply (store_stays_in_step (backend := Examples.refusingBackend)
           (host := Instances.utcHost)
           (Examples.signedIn tt [Instances.recA; Instances.recB] (fun _ => false))).
  reflexivity.
Defined.





(** X6.  [completeStream] is never sent to the remote service: signed in or
    not, it makes no request and leaves the remote service as it was.  For
    a signed-in user on a configured client whose remote set holds the
    record, the remote copy therefore stays as it was stored. *)
Theorem complete_never_mirrored {Remote : Type} {backend : Backend Remote}
    (w : World Remote) (streamId : Z) :
  let out := Home.completeStream streamId w in
  out.1 = Ok tt
  /\ net out.2 = net w
  /\ remote out.2 = remote w
  /\ (forall uid, selectStreams uid (remote out.2) = selectStreams uid (remote w)).
Proof.
  intros out. destruct (completeStream_run w streamId) as (l' & n & _ & Hrun).
  subst out. rewrite Hrun. cbn [fst snd].
  destruct (saveStreams_frame l' (Nat.iter n tick w)) as (_ & _ & Hnet & Hrem & _).
  destruct (iter_tick_store n w) as (Hn & Hr & _).
  assert (Hrem' : remote (addToast (ToastSuccess "Stream completed successfully! ✨")
                            (Home.saveStreams l' (Nat.iter n tick w)).2) = remote w)
    by (cbn; congruence).
  split; [done|]. split; [cbn; congruence|]. split; [done|].
  intros uid. by rewrite Hrem'.
Qed.

(** X7.  Signed out, or on a client that is not configured, no operation of
    the page sends a request: [createStream], [updateStream] and
    [deleteStream] leave the trace of requests as it was. *)
Theorem offline_sends_nothing {Remote : Type} {backend : Backend Remote}
    {host : Host} (w : World Remote) :
  user w = None \/ supabase w = false ->
  (forall streamData, net (HomeMore.createStream streamData w).2 = net w)
  /\ (forall patch, net (Home.updateStream patch w).2 = net w)
  /\ (forall streamId, net (Home.deleteStream streamId w).2 = net w).
Proof.
  intros Hoff. repeat apply conj.
  - intros fd. pose proof (createStream_full w fd) as H. cbv zeta in H.
    destruct (setDate _ _) as [due|].
    + destruct H as (w' & -> & _ & Hnet & _). by apply Hnet.
    + by rewrite H.
  - intros patch. destruct (updateStream_full w patch) as (w' & -> & _ & _ & Hnet & _).
    apply Hnet. tauto.
  - intros streamId. destruct (deleteStream_full w streamId) as (w' & -> & _ & Hnet & _).
    by apply Hnet.
Qed.

Lemma offline_sends_nothing_witness :
  net (Home.deleteStream (backend := Instances.memoryBackend) 1
         (Examples.signedOut [Instances.recA])).2 = [].
Proof.
  apply (offline_sends_nothing (backend := Instances.memoryBackend)
           (host := Instances.utcHost) (Examples.signedOut [Instances.recA])).
  by left.
Defined.

(** X8.  The sign-in listener of a configured client only pulls: it records
    the user, sends one fetch and no other request, and never writes to
    local storage.  A non-empty remote set R replaces the list shown, an
    empty one (or a failed fetch) leaves it.  The stored slot is then out
    of step with the page, and the next operation that saves, here
    [deleteStream], stores what is left of R: the records that were only
    in local storage are no longer stored. *)
Theorem sign_in_pulls_remote {Remote : Type} {backend : Backend Remote}
    (w : World Remote) (uid : UserId) :
  supabase w = true ->
  let resp := (selectStreams uid (remote w)).1 in
  let R := rowsOf resp in
  let out := HomeMore.onAuthStateChange (Some uid) w in
  out.1 = Ok tt
  /\ user out.2 = Some uid
  /\ net out.2 = net w ++ [NetSelect uid resp]
  /\ storedStreams out.2 = storedStreams w
  /\ toasts out.2 = toasts w
  /\ streams out.2 = match R with [] => streams w | _ => R end
  /\ (R <> [] -> forall streamId,
        storageFits w (filter (fun s => id s <> streamId) R) = true ->
        storedStreams (Home.deleteStream streamId out.2).2
        = Some (filter (fun s => id s <> streamId) R)).
Proof.
  intros Hsb resp R out.
  assert (Hsb' : supabase (putUser (Some uid) w) = true) by done.
  destruct (getStreams_configured _ uid Hsb')
    as (resp' & w1 & Hget & Hsel & Hnet & _ & Hsame).
  change (remote (putUser (Some uid) w)) with (remote w) in Hsel.
  assert (Hresp : resp' = resp) by (subst resp; by rewrite Hsel).
  subst resp'. fold R in Hget.
  destruct Hsame as (Hs1 & Hs2 & Hs3 & Hs4 & Hs5 & Hs6 & Hs7 & Hs8 & Hs9).
  cbn [putUser supabase toasts storedStreams storageFits clock ticks
       streams user editingStream net] in *.
  assert (Hout :
    out = (Ok tt, match R with
                  | [] => w1
                  | _ => tick (putStreams R w1)
                  end)).
  { subst out. unfold HomeMore.onAuthStateChange, HomeMore.setUser, Home.calculateStats.
    run. rewrite Hget. by destruct R. }
  rewrite Hout. cbn [fst snd].
  split; [done|]. split; [by destruct R|]. split; [by destruct R|].
  split; [by destruct R|]. split; [by destruct R|]. split; [by destruct R|].
  intros HR streamId Hfits.
  destruct R as [|x R'] eqn:HReq; [done|].
  set (w2 := tick (putStreams (x :: R') w1)).
  destruct (deleteStream_full w2 streamId) as (w3 & Hrun & Hsame & _).
  rewrite Hrun. cbn [snd]. destruct Hsame as (_ & -> & _).
  destruct (saveStreams_local (filter (fun s => id s <> streamId) (streams w2)) w2)
    as (Hloc & _).
  change (streams w2) with (x :: R') in *.
  change (storageFits w2) with (storageFits w1) in Hloc. rewrite Hs4 in Hloc.
  by destruct (Hloc Hfits) as (_ & -> & _).
Qed.

Lemma sign_in_pulls_remote_witness :
  let w := putStreams [Instances.recA] (setStored [Instances.recA] Instances.remoteBC) in
  let w1 := (HomeMore.onAuthStateChange (backend := Instances.memoryBackend)
               (@Some UserId (str "user-1")) w).2 in
  (id <$> streams w1) = [3; 2]
  /\ (id <$> default [] (storedStreams w1)) = [1]
  /\ (id <$> default [] (storedStreams
                           (Home.deleteStream (backend := Instances.memoryBackend) 2 w1).2))
     = [3].
Proof.
  intros w w1.
  destruct (sign_in_pulls_remote (backend := Instances.memoryBackend) w (str "user-1")
              eq_refl) as (_ & _ & _ & Hst & _ & Hs & Hnext).
  subst w1. rewrite Hs, Hst, (Hnext ltac:(discriminate) 2 eq_refl).
  repeat split.
Defined.

(** X9.  [createStream] given the [due_days] of a form whose select was
    changed, a string of digits: the sum [getDate() + due_days] is then a
    concatenation, so the due date is not [due_days] days after the first
    reading of the clock but [d * (10^k - 1) + n] days after it, where [d]
    is the local day of the month of that reading, [n] the number the
    string spells and [k] its number of digits. *)
Theorem create_reads_string_due_days {Remote : Type} {backend : Backend Remote}
    {host : Host} (w : World Remote) (streamData : FormData) (n : N) :
  f_due_days streamData = DueString n ->
  let t0 := clock w (ticks w) in
  let days := getDate t0 * (10 ^ decimalLength n - 1) + Z.of_N n in
  let due := UTC (LocalTime t0 + days * msPerDay) in
  Z.abs due <= 8640000000000000 ->
  (forall l, storageFits w l = true) ->
  exists s,
    streams (HomeMore.createStream streamData w).2 = streams w ++ [s]
    /\ due_date s = Some due.
Proof.
  intros Hn t0 days due Hrange Hfits.
  pose proof (createStream_full w streamData) as H. cbv zeta in H. fold t0 in H.
  assert (Hdue : setDate t0 (HomeMore.plusDueDays (getDate t0) (f_due_days streamData))
                 = Some due).
  { rewrite Hn. unfold HomeMore.plusDueDays.
    replace (getDate t0 * 10 ^ decimalLength n + Z.of_N n) with (getDate t0 + days)
      by (subst days; lia).
    rewrite setDate_add_days. by apply TimeClip_in_range. }
  rewrite Hdue in H. destruct H as (w' & Hrun & Hsame & _).
  rewrite Hrun. cbn [snd]. eexists. destruct Hsame as (-> & _).
  destruct (saveStreams_local
              (streams w ++ [HomeMore.newStreamOf streamData (clock w (S (ticks w))) due
                               (clock w (S (S (ticks w))))])
              (tick (tick (tick w)))) as (Hloc & _).
  destruct (Hloc (Hfits _)) as (-> & _). done.
Qed.

Lemma create_reads_string_due_days_witness :
  exists s,
    streams (HomeMore.createStream (backend := Instances.memoryBackend)
               (host := Instances.utcHost) (Examples.formDue (DueString 3))
               (Examples.signedOut [])).2 = [s]
    /\ due_date s = Some (1709208000000 + 264 * msPerDay).
Proof.
  destruct (create_reads_string_due_days (backend := Instances.memoryBackend)
              (host := Instances.utcHost) (Examples.signedOut [])
              (Examples.formDue (DueString 3)) 3 eq_refl) as (s & Hs & Hd).
  - by vm_compute.
  - done.
  - exists s. split; [exact Hs|]. rewrite Hd. by vm_compute.
Defined.

(** X10.  [clearLocalData], once confirmed, empties the stored slot and the
    list of the account dialog, but not the list the page shows, and the
    page's [handleSync] then finds nothing to load.  The next operation
    that saves, here [deleteStream], writes the records shown back to the
    slot.  Declined, it changes nothing. *)
Theorem clear_local_data_undone {Remote : Type} {backend : Backend Remote}
    (w : World Remote) (localStreams : list Stream) :
  let out := AccountManagerMore.clearLocalData true localStreams w in
  out.1 = Ok []
  /\ storedStreams out.2 = None
  /\ streams out.2 = streams w
  /\ toasts out.2 = toasts w ++ [ToastSuccess "Local data cleared"]
  /\ Home.handleSync out.2 = (Ok tt, out.2)
  /\ (forall streamId,
        storageFits w (filter (fun s => id s <> streamId) (streams w)) = true ->
        storedStreams (Home.deleteStream streamId out.2).2
        = Some (filter (fun s => id s <> streamId) (streams w)))
  /\ AccountManagerMore.clearLocalData false localStreams w = (Ok localStreams, w).
Proof.
  intros out. split; [done|]. split; [done|]. split; [done|]. split; [done|].
  split; [done|]. split; [|done].
  intros streamId Hfits.
  destruct (deleteStream_full out.2 streamId) as (w3 & Hrun & Hsame & _).
  rewrite Hrun. cbn [snd]. destruct Hsame as (_ & -> & _).
  destruct (saveStreams_local (filter (fun s => id s <> streamId) (streams out.2)) out.2)
    as (Hloc & _).
  by destruct (Hloc Hfits) as (_ & -> & _).
Qed.

Lemma clear_local_data_undone_witness :
  let w := Examples.signedOut [Instances.recA; Instances.recB] in
  let w1 := (AccountManagerMore.clearLocalData true [Instances.recA; Instances.recB] w).2 in
  storedStreams w1 = None
  /\ storedStreams (Home.deleteStream (backend := Instances.memoryBackend) 1 w1).2
     = Some [Instances.recB].
Proof.
  intros w w1.
  destruct (clear_local_data_undone (backend := Instances.memoryBackend) w
              [Instances.recA; Instances.recB]) as (_ & Hst & _ & _ & _ & Hnext & _).
  split; [exact Hst|]. subst w1.
  assert (Hfits : storageFits w (filter (fun s => id s <> 1) (streams w)) = true)
    by reflexivity.
  rewrite (Hnext 1 Hfits). by vm_compute.
Defined.

(* ===================================================================== *)
(** * Reconciliation against any remote service *)
(* ===================================================================== *)

Section PushAny.
Context {Remote : Type} {backend : Backend Remote}.

Lemma acceptedInsert_only (t : list NetCall) :
  forallb acceptedInsert t = true ->
  fetches t = [] /\ deletes t = [] /\ updates t = [].
Proof.
  induction t as [|c t IH]; [done|]. cbn [forallb]. intros [Hc Ht]%andb_true_iff.
  destruct (IH Ht) as (H1 & H2 & H3). by destruct c.
Qed.

Lemma only_app (t1 t2 : list NetCall) :
  fetches t1 = [] /\ deletes t1 = [] /\ updates t1 = [] ->
  fetches t2 = [] /\ deletes t2 = [] /\ updates t2 = [] ->
  fetches (t1 ++ t2) = [] /\ deletes (t1 ++ t2) = [] /\ updates (t1 ++ t2) = [].
Proof.
  unfold fetches, deletes, updates. rewrite !omap_app.
  by intros (-> & -> & ->) (-> & -> & ->).
Qed.

(** The loop of [syncLocalData] against any remote service: it inserts the
    records with an id the remote set does not have, in order, until the
    first refusal. *)
Lemma push_any (userId : UserId) (ids : gset Z) (l : list Stream) (w : World Remote) :
  supabase w = true ->
  exists res w' t,
    forOf l (dbHelpers.uploadIfNew userId ids) w = (res, w')
    /\ net w' = net w ++ t
    /\ console w' = console w
    /\ sameApp w w'
    /\ creates t `prefix_of` (withUser userId <$> filter (fun s => id s ∉ ids) l)
    /\ match res with
       | Ok _ =>
           forallb acceptedInsert t = true
           /\ creates t = withUser userId <$> filter (fun s => id s ∉ ids) l
       | Throw e =>
           exists t0 row resp err,
             t = t0 ++ [NetInsert row resp]
             /\ error resp = Some err /\ e = RemoteError err
             /\ forallb acceptedInsert t0 = true
       end.
Proof.
  revert w. induction l as [|x l IH]; intros w Hsb.
  - exists (Ok tt), w, []. rewrite app_nil_r. repeat split; done.
  - rewrite forOf_cons_run. destruct (decide (id x ∈ ids)) as [Hin|Hnew].
    + rewrite uploadIfNew_known by done.
      rewrite filter_cons_False by (by intros ?). by apply IH.
    + destruct (uploadIfNew_new userId ids x w Hnew Hsb)
        as (resp & w1 & Hrun1 & Hins & Hnet1 & Hcon1 & Hsame1).
      rewrite Hrun1. rewrite filter_cons_True by done. cbn [fmap list_fmap].
      destruct (error resp) as [err|] eqn:Herr.
      * exists (Throw (RemoteError err)), w1, [NetInsert (withUser userId x) resp].
        split; [done|]. split; [done|]. split; [done|]. split; [done|].
        split; [by apply prefix_cons, prefix_nil|].
        by exists [], (withUser userId x), resp, err.
      * assert (Hsb1 : supabase w1 = true) by (destruct Hsame1 as (-> & _); done).
        destruct (IH w1 Hsb1) as (res & w' & t & Hrun & Hnet & Hcon & Hsame & Hpre & Hres).
        exists res, w', (NetInsert (withUser userId x) resp :: t).
        split; [done|]. split; [by rewrite Hnet, Hnet1, <- app_assoc|].
        split; [congruence|]. split; [by eapply sameApp_trans|].
        split; [rewrite creates_insert; by apply prefix_cons|].
        destruct res as [[]|e].
        -- destruct Hres as (Hacc & Hcr). split.
           ++ cbn [forallb acceptedInsert]. by rewrite Herr, Hacc.
           ++ by rewrite creates_insert, Hcr.
        -- destruct Hres as (t0 & row & resp' & err & -> & He & -> & Hacc).
           exists (NetInsert (withUser userId x) resp :: t0), row, resp', err.
           split; [done|]. split; [done|]. split; [done|].
           cbn [forallb acceptedInsert]. by rewrite Herr, Hacc.
Qed.

End PushAny.

(** X11.  [syncLocalData] on a configured client, whatever the remote
    service answers: it returns normally and leaves the local state alone;
    after its one fetch it sends inserts only, for the local records whose
    id the fetched set does not have, tagged with the user and in the order
    of the local list; it stops at the first refused insert, which it logs,
    and otherwise inserts them all and logs the success. *)
Theorem syncLocalData_stops_at_refusal {Remote : Type} {backend : Backend Remote}
    (w : World Remote) (userId : UserId) (localStreams : list Stream) :
  supabase w = true ->
  let resp := (selectStreams userId (remote w)).1 in
  let new := withUser userId
               <$> filter (fun s => id s ∉ (id <$> rowsOf resp)) localStreams in
  exists w' t,
    dbHelpers.syncLocalData userId localStreams w = (Ok tt, w')
    /\ sameApp w w'
    /\ net w' = net w ++ NetSelect userId resp :: t
    /\ creates t `prefix_of` new
    /\ fetches t = [] /\ deletes t = [] /\ updates t = []
    /\ ((forallb acceptedInsert t = true /\ creates t = new
         /\ last (console w') = Some (ConsoleLog "Data synced successfully"))
        \/ (exists t0 row refused err,
              t = t0 ++ [NetInsert row refused]
              /\ error refused = Some err
              /\ forallb acceptedInsert t0 = true
              /\ last (console w')
                 = Some (ConsoleError "Error syncing data:" (RemoteError err)))).
Proof.
  intros Hsb resp new.
  destruct (syncLocalData_run userId localStreams w Hsb)
    as (resp' & w0 & Hsel & Hnet0 & Hsame0 & Hrun).
  assert (Hresp : resp' = resp) by (subst resp; by rewrite Hsel). subst resp'.
  assert (Hsb0 : supabase w0 = true) by (destruct Hsame0 as (-> & _); done).
  destruct (push_any userId (list_to_set (id <$> rowsOf resp)) localStreams w0 Hsb0)
    as (res & w1 & t & Hloop & Hnet & Hcon & Hsame & Hpre & Hres).
  rewrite filter_known_ids in Hpre, Hres. fold new in Hpre, Hres.
  rewrite Hloop in Hrun.
  assert (Hnet' : net w1 = net w ++ NetSelect userId resp :: t).
  { rewrite Hnet, Hnet0, <- app_assoc. done. }
  assert (Happ : sameApp w w1) by (by eapply sameApp_trans).
  destruct res as [[]|e].
  - destruct Hres as (Hacc & Hcr). eexists _, t. split; [exact Hrun|].
    split; [by apply sameApp_addConsole|]. split; [done|]. split; [done|].
    destruct (acceptedInsert_only t Hacc) as (? & ? & ?).
    split; [done|]. split; [done|]. split; [done|]. left.
    split; [done|]. split; [done|]. cbn. by rewrite last_snoc.
  - destruct Hres as (t0 & row & refused & err & -> & He & -> & Hacc).
    eexists _, _. split; [exact Hrun|].
    split; [by apply sameApp_addConsole|]. split; [done|]. split; [done|].
    destruct (only_app t0 [NetInsert row refused] (acceptedInsert_only t0 Hacc))
      as (? & ? & ?); [done|].
    split; [done|]. split; [done|]. split; [done|]. right.
    exists t0, row, refused, err. split; [done|]. split; [done|]. split; [done|].
    cbn. by rewrite last_snoc.
Qed.

Lemma syncLocalData_stops_at_refusal_witness :
  exists w' t,
    dbHelpers.syncLocalData (backend := Examples.refusingBackend) (str "user-1")
      [Instances.recA; Instances.recB]
      (Examples.signedIn tt [] (fun _ => true)) = (Ok tt, w')
    /\ net w' = NetSelect (str "user-1")
                  (selectStreams (Backend := Examples.refusingBackend)
                     (str "user-1") tt).1 :: t
    /\ creates t `prefix_of` [withUser (str "user-1") Instances.recA;
                              withUser (str "user-1") Instances.recB].
Proof.
  destruct (syncLocalData_stops_at_refusal (backend := Examples.refusingBackend)
              (Examples.signedIn tt [] (fun _ => true)) (str "user-1")
              [Instances.recA; Instances.recB] eq_refl)
    as (w' & t & Hrun & _ & Hnet & Hpre & _).
  exists w', t. split; [exact Hrun|]. split; [exact Hnet|]. exact Hpre.
Defined.

Section DownloadAny.
Context {Remote : Type} {backend : Backend Remote} {host : Host}.

(** The upload phase of [syncData] against any remote service. *)
Lemma upload_any (userId : UserId) (l : list Stream) (w : World Remote) :
  supabase w = true ->
  exists w1 t,
    (if bool_decide (0 < length l)%nat then
       dbHelpers.syncLocalData userId l;;
       toastSuccess "Data synced successfully!"
     else mret tt) w = (Ok tt, w1)
    /\ net w1 = net w ++ t
    /\ deletes t = [] /\ updates t = []
    /\ supabase w1 = true /\ storedStreams w1 = storedStreams w
    /\ storageFits w1 = storageFits w /\ streams w1 = streams w
    /\ toasts w1 = toasts w ++ (if bool_decide (0 < length l)%nat
                                then [ToastSuccess "Data synced successfully!"]
                                else []).
Proof.
  intros Hsb. destruct l as [|x l].
  - exists w, []. rewrite !app_nil_r. by repeat split.
  - rewrite bool_decide_eq_true_2 by (cbn; lia).
    destruct (syncLocalData_run userId (x :: l) w Hsb)
      as (resp & w0 & Hsel & Hnet0 & Hsame0 & Hrun).
    assert (Hsb0 : supabase w0 = true) by (destruct Hsame0 as (-> & _); done).
    destruct (push_any userId (list_to_set (id <$> rowsOf resp)) (x :: l) w0 Hsb0)
      as (res & w1 & t & Hloop & Hnet & Hcon & Hsame & Hpre & Hres).
    rewrite Hloop in Hrun.
    assert (Honly : deletes t = [] /\ updates t = []).
    { destruct res as [[]|e].
      - destruct Hres as (Hacc & _). by destruct (acceptedInsert_only t Hacc) as (_ & ? & ?).
      - destruct Hres as (t0 & row & refused & err & -> & _ & _ & Hacc).
        by destruct (only_app t0 [NetInsert row refused] (acceptedInsert_only t0 Hacc))
          as (_ & ? & ?). }
    destruct Honly as (Hdel & Hupd).
    destruct (sameApp_trans _ _ _ Hsame0 Hsame) as (H1 & H2 & H3 & H4 & H5 & H6 & H7 & _).
    run. rewrite Hrun.
    destruct res as [[]|e]; eexists _, (NetSelect userId resp :: t);
      (split; [done|]);
      change (deletes (NetSelect userId resp :: t)) with (deletes t);
      change (updates (NetSelect userId resp :: t)) with (updates t);
      cbn [net supabase storedStreams storageFits streams toasts addToast addConsole];
      (split; [by rewrite Hnet, Hnet0, <- app_assoc|]);
      (split; [done|]); (split; [done|]); repeat split; congruence.
Qed.

End DownloadAny.

(** X12.  [syncData] for a signed-in user on a configured client, whatever
    the remote service answers and whatever local storage takes: it returns
    normally; it sends no update and no delete; its last request is a fetch
    of a set R'.  If R' is not empty and local storage takes it, the slot
    and the list shown become R'.  If R' is not empty and local storage
    refuses it, slot and list stay as they were, the page is not asked to
    reload, and the last toast is the failure.  If R' is empty (or the fetch
    failed) the slot stays as it was, and the page shows what the slot
    holds. *)
Theorem syncData_download_outcomes {Remote : Type} {backend : Backend Remote}
    (w : World Remote) (userId : UserId) (localStreams : list Stream) :
  supabase w = true ->
  exists w' t resp,
    AccountManager.syncData (Some userId) localStreams w = (Ok tt, w')
    /\ net w' = net w ++ t ++ [NetSelect userId resp]
    /\ deletes t = [] /\ updates t = []
    /\ (rowsOf resp <> [] -> storageFits w (rowsOf resp) = true ->
        storedStreams w' = Some (rowsOf resp) /\ streams w' = rowsOf resp
        /\ last (toasts w') = Some (ToastSuccess "Data downloaded successfully!"))
    /\ (rowsOf resp <> [] -> storageFits w (rowsOf resp) = false ->
        storedStreams w' = storedStreams w /\ streams w' = streams w
        /\ last (toasts w') = Some (ToastError "Failed to sync data"))
    /\ (rowsOf resp = [] ->
        storedStreams w' = storedStreams w
        /\ streams w' = default (streams w) (storedStreams w)).
Proof.
  intros Hsb.
  destruct (upload_any userId localStreams w Hsb)
    as (w1 & t & Hup & Hnet1 & Hdel & Hupd & Hsb1 & Hst1 & Hfit1 & Hstr1 & Hto1).
  destruct (download_cases userId w1 Hsb1) as (resp & w2 & Hsel & Hnet2 & Hsame & Hdown).
  destruct Hsame as (Hs1 & Hs2 & Hs3 & Hs4 & Hs5 & Hs6 & Hs7 & Hs8 & Hs9).
  rewrite (syncData_phases userId localStreams w w1 Hsb Hup), Hdown.
  eexists _, t, resp. split; [done|].
  destruct (rowsOf resp) as [|x R'] eqn:HR.
  - split; [destruct (storedStreams w2); cbn; by rewrite Hnet2, Hnet1, <- app_assoc|].
    split; [done|]. split; [done|]. split; [done|]. split; [done|].
    intros _. rewrite <- Hst1, <- Hs3, <- Hstr1, <- Hs7.
    destruct (storedStreams w2) as [parsed|] eqn:Hst2; by cbn.
  - rewrite Hs4, Hfit1.
    split; [destruct (storageFits w (x :: R')); cbn; by rewrite Hnet2, Hnet1, <- app_assoc|].
    split; [done|]. split; [done|].
    split; [|split].
    + intros _ ->. cbn. by rewrite last_snoc.
    + intros _ ->. cbn. rewrite last_snoc. split; [congruence|]. split; [congruence|done].
    + done.
Qed.

Lemma syncData_download_outcomes_witness :
  let w := Examples.signedIn [withUser (str "user-1") Instances.recB] [Instances.recA]
             (fun l => bool_decide (length l <= 1)%nat) in
  exists w',
    AccountManager.syncData (backend := Instances.memoryBackend)
      (@Some UserId (str "user-1")) [Instances.recA] w = (Ok tt, w')
    /\ deletes (net w') = [] /\ updates (net w') = []
    /\ (id <$> creates (net w')) = [1]
    /\ streams w' = [Instances.recA]
    /\ last (toasts w') = Some (ToastError "Failed to sync data").
Proof.
  intros w.
  destruct (syncData_download_outcomes (backend := Instances.memoryBackend) w
              (str "user-1") [Instances.recA] eq_refl)
    as (w' & t & resp & Hrun & Hnet & Hdel & Hupd & _ & Hrefused & _).
  exists w'. split; [exact Hrun|].
  assert (Hw' : w' = (AccountManager.syncData (backend := Instances.memoryBackend)
                        (@Some UserId (str "user-1")) [Instances.recA] w).2)
    by (by rewrite Hrun).
  rewrite Hw'. by vm_compute.
Defined.

Section KnownRecords.
Context {Remote : Type} {backend : Backend Remote}.


End KnownRecords.



(** X14.  The guards of reconciliation: with nobody signed in, or on a
    client that is not configured, [syncData] returns at once, and so does
    [syncLocalData] on a client that is not configured: no request, no
    toast, no line on the console, nothing stored. *)
Theorem sync_guards {Remote : Type} {backend : Backend Remote}
    (w : World Remote) (localStreams : list Stream) :
  AccountManager.syncData None localStreams w = (Ok tt, w)
  /\ (supabase w = false ->
      forall userId,
        AccountManager.syncData (Some userId) localStreams w = (Ok tt, w)
        /\ dbHelpers.syncLocalData userId localStreams w = (Ok tt, w)).
Proof.
  split; [done|]. intros Hsb userId.
  unfold AccountManager.syncData, dbHelpers.syncLocalData. run. by rewrite Hsb.
Qed.

Lemma sync_guards_witness :
  let w := Instances.emptyWorld false [] 0 in
  AccountManager.syncData (backend := Instances.memoryBackend)
    (@Some UserId (str "user-1")) [Instances.recA] w = (Ok tt, w).
Proof.
  intros w.
  destruct (sync_guards (backend := Instances.memoryBackend) w [Instances.recA])
    as (_ & H).
  by destruct (H eq_refl (str "user-1")) as (-> & _).
Defined.

(* ===================================================================== *)
(** * Templates: where they come from and what they leave unfilled *)
(* ===================================================================== *)

Section TemplateFacts.
Import CaptionGenerator.

Lemma default_template_lookup (p : jsstring) :
  p ∈ PLATFORMS ->
  exists c d,
    defaultTemplates !! p = Some (c :: d)
    /\ getDefaultTemplate p = JString (c :: d).
Proof.
  intros Hp. unfold PLATFORMS in Hp.
  repeat (apply elem_of_cons in Hp as [->|Hp];
          [eexists _, _; split; by vm_compute|]).
  by apply elem_of_nil in Hp.
Qed.

Lemma getProp_recognized (obj : gmap jsstring jsstring) (p : jsstring) :
  p ∈ PLATFORMS ->
  getProp obj p = match obj !! p with Some s => JString s | None => JUndefined end.
Proof.
  intros Hp. unfold getProp. destruct (obj !! p); [done|].
  rewrite bool_decide_eq_false_2; [done|]. by apply recognized_not_inherited.
Qed.

Lemma lookupVar_plain (vars : list (jsstring * jsstring)) (k v : jsstring) :
  plainVars vars = true -> lookupVar vars k = Some v -> hasChar "{" v = false.
Proof.
  induction vars as [|[k' v'] vars IH]; [done|].
  cbn [plainVars forallb lookupVar]. intros [Hkv Hvars]%andb_true_iff.
  case_bool_decide.
  - intros [= <-]. unfold plainVar in Hkv. cbn [fst snd] in Hkv.
    apply andb_true_iff in Hkv as [Hkv _]. apply andb_true_iff in Hkv as [_ Hv].
    by apply negb_true_iff in Hv.
  - by apply IH.
Qed.

Lemma holes_cons_hole (k : jsstring) (toks : list Token) :
  holes (Hole k :: toks) = k :: holes toks.
Proof. done. Qed.

(** A template all of whose placeholders have a variable renders without
    an opening brace. *)
Lemma filled_no_open (vars : list (jsstring * jsstring)) (toks : list Token) :
  plainVars vars = true -> wfTemplate toks = true ->
  (forall k, k ∈ holes toks -> is_Some (lookupVar vars k)) ->
  hasChar "{" (specRender vars toks) = false.
Proof.
  intros Hvars. induction toks as [|tok toks IH]; [done|].
  cbn [wfTemplate forallb]. intros [Htok Hwf]%andb_true_iff Hall.
  change (specRender vars (tok :: toks))
    with (tokenText (fillToken vars tok) ++ specRender vars toks).
  rewrite hasChar_app. destruct tok as [s|k].
  - cbn [fillToken tokenText wfToken] in *. apply negb_true_iff in Htok.
    rewrite Htok. by apply IH.
  - rewrite holes_cons_hole in Hall.
    destruct (Hall k) as [v Hv]; [by left|]. cbn [fillToken]. rewrite Hv.
    cbn [tokenText]. rewrite (lookupVar_plain vars k v Hvars Hv).
    apply IH; [done|]. intros k' Hk'. apply Hall. by right.
Qed.

End TemplateFacts.

(** X15.  Where the template of a caption comes from, on a recognized
    platform: the template the chosen agency has for the platform, if an
    agency is chosen, the first agency of the list with that id exists,
    and its template for the platform is not empty; in every other case
    the default template of the platform, which is never empty. *)
Theorem resolve_template_precedence (st : CaptionGenerator.State) :
  CaptionGenerator.selectedPlatform st ∈ CaptionGenerator.PLATFORMS ->
  let own :=
    agencyId ← CaptionGenerator.selectedAgency st;
    agency ← List.find (fun a => bool_decide (CaptionGenerator.agency_id a = agencyId))
                (CaptionGenerator.agencies st);
    CaptionGenerator.templates agency !! CaptionGenerator.selectedPlatform st in
  exists c d,
    CaptionGenerator.defaultTemplates !! CaptionGenerator.selectedPlatform st
    = Some (c :: d)
    /\ CaptionGenerator.resolveTemplate st
       = JString (match own with
                  | Some (a :: t) => a :: t
                  | _ => c :: d
                  end).
Proof.
  intros Hp own.
  destruct (default_template_lookup _ Hp) as (c & d & Hd & Hget).
  exists c, d. split; [done|].
  unfold CaptionGenerator.resolveTemplate. rewrite Hget. subst own.
  destruct (CaptionGenerator.selectedAgency st) as [agencyId|]; [|done].
  cbn [mbind option_bind].
  destruct (List.find _ _) as [agency|]; [|done].
  cbn [option_bind]. rewrite getProp_recognized by done.
  change (Some agency ≫= _)
    with (CaptionGenerator.templates agency !! CaptionGenerator.selectedPlatform st).
  by destruct (CaptionGenerator.templates agency !! _) as [[|a t]|].
Qed.

Lemma resolve_template_precedence_witness :
  let agency := Instances.agencyWith 1 "request" "Hello {item_name}" in
  (exists c d,
     CaptionGenerator.defaultTemplates !! str "request" = Some (c :: d)
     /\ CaptionGenerator.resolveTemplate
          (Instances.openOn "request" (Some 7) [agency] Instances.recordAB)
        = JString (c :: d))
  /\ CaptionGenerator.resolveTemplate
       (Instances.openOn "request" (Some 1) [agency] Instances.recordAB)
     = JString (str "Hello {item_name}").
Proof.
  intros agency. split.
  - destruct (resolve_template_precedence
                (Instances.openOn "request" (Some 7) [agency] Instances.recordAB))
      as (c & d & Hd & Hres).
    + eapply bool_decide_eq_true_1. by vm_compute.
    + exists c, d. split; [exact Hd|exact Hres].
  - destruct (resolve_template_precedence
                (Instances.openOn "request" (Some 1) [agency] Instances.recordAB))
      as (c & d & Hd & Hres).
    + eapply bool_decide_eq_true_1. by vm_compute.
    + rewrite Hres. by vm_compute.
Defined.

Section DefaultTemplates.
Context {host : Host}.
Import CaptionGenerator.

Lemma forallb_holes (vars : list (jsstring * jsstring)) (ks : list jsstring) :
  forallb (fun k => match lookupVar vars k with Some _ => true | None => false end) ks
  = true ->
  forall k, k ∈ ks -> is_Some (lookupVar vars k).
Proof.
  intros Hall k Hk. rewrite forallb_forall in Hall.
  specialize (Hall k). rewrite <- list_elem_of_In in Hall. specialize (Hall Hk).
  by destruct (lookupVar vars k).
Qed.

(** A template that reads as well-formed tokens, all of them filled,
    renders without an opening brace. *)
Lemma tokens_filled (vars : list (jsstring * jsstring)) (d : jsstring) :
  templateText (tokenize d) = d -> wfTemplate (tokenize d) = true ->
  (forall k, k ∈ holes (tokenize d) -> is_Some (lookupVar vars k)) ->
  plainVars vars = true -> hasChar "{" (substitute vars d) = false.
Proof.
  intros Hd Hwf Hall Hvars. rewrite <- Hd.
  rewrite substitute_tokens by done. by apply filled_no_open.
Qed.

End DefaultTemplates.

(** X16.  The default template of each recognized platform reads as text
    and placeholders, and every one of its placeholders is a variable the
    platform fills: the variables of the whole record on the feed
    platforms, those of the item on the others.  So, the values being
    plain, a caption made from a default template has no opening brace
    left. *)
Theorem default_placeholders_filled {host : Host} (p : jsstring) (sd : Stream)
    (item : StreamItem) :
  p ∈ CaptionGenerator.PLATFORMS ->
  let vars :=
    if CaptionGenerator.isFeed p then CaptionGenerator.basicVariables p sd
    else CaptionGenerator.itemVariables sd item in
  exists d,
    CaptionGenerator.getDefaultTemplate p = JString d
    /\ templateText (tokenize d) = d
    /\ wfTemplate (tokenize d) = true
    /\ (forall k, k ∈ holes (tokenize d) -> is_Some (lookupVar vars k))
    /\ (plainVars vars = true -> hasChar "{" (substitute vars d) = false).
Proof.
  intros Hp vars. unfold CaptionGenerator.PLATFORMS in Hp.
  assert (Hcases :
    exists d,
      CaptionGenerator.getDefaultTemplate p = JString d
      /\ templateText (tokenize d) = d
      /\ wfTemplate (tokenize d) = true
      /\ forallb (fun k => match lookupVar vars k with Some _ => true | None => false end)
           (holes (tokenize d)) = true).
  { subst vars.
    repeat (apply elem_of_cons in Hp as [->|Hp];
            [eexists; split; [by vm_compute|]; split; [by vm_compute|];
             split; by vm_compute|]).
    by apply elem_of_nil in Hp. }
  destruct Hcases as (d & Hd & Htok & Hwf & Hall).
  exists d. split; [done|]. split; [done|]. split; [done|].
  split; [by apply forallb_holes|].
  intros Hvars. apply tokens_filled; [done|done| |done]. by apply forallb_holes.
Qed.

Lemma default_placeholders_filled_witness :
  exists d,
    CaptionGenerator.getDefaultTemplate (str "request") = JString d
    /\ hasChar "{"
         (substitute
            (CaptionGenerator.itemVariables (host := Instances.utcHost)
               Instances.recordAB (Instances.mkItem 1 "A" "Ann")) d) = false.
Proof.
  destruct (default_placeholders_filled (host := Instances.utcHost) (str "request")
              Instances.recordAB (Instances.mkItem 1 "A" "Ann"))
    as (d & Hd & _ & _ & _ & Hno).
  - eapply bool_decide_eq_true_1. by vm_compute.
  - exists d. split; [exact Hd|]. apply Hno. by vm_compute.
Defined.

(** X17.  The variables the template editor offers and the variables the
    caption generator fills.  On the item platforms all six offered
    variables are filled.  On the feed platforms they are not:
    [creator_name] is never filled, and on [imvu_feed] neither are
    [item_name] and [product_id]; in a caption of a feed platform such a
    placeholder stays as it was written, braces included. *)
Theorem offered_variables_on_feeds {host : Host} (sd : Stream) :
  (forall item v, v ∈ AgencyTemplates.AVAILABLE_VARIABLES ->
     is_Some (lookupVar (CaptionGenerator.itemVariables sd item) v))
  /\ List.filter
       (fun v => match lookupVar (CaptionGenerator.basicVariables (str "imvu_feed") sd) v
                 with Some _ => false | None => true end)
       AgencyTemplates.AVAILABLE_VARIABLES
     = [str "item_name"; str "creator_name"; str "product_id"]
  /\ List.filter
       (fun v => match lookupVar (CaptionGenerator.basicVariables (str "ig_feed") sd) v
                 with Some _ => false | None => true end)
       AgencyTemplates.AVAILABLE_VARIABLES
     = [str "creator_name"]
  /\ (forall st pre post k,
        CaptionGenerator.streamData st = Some sd ->
        CaptionGenerator.isFeed (CaptionGenerator.selectedPlatform st) = true ->
        let vars :=
          CaptionGenerator.basicVariables (CaptionGenerator.selectedPlatform st) sd in
        CaptionGenerator.resolveTemplate st
        = JString (templateText (pre ++ Hole k :: post)) ->
        wfTemplate (pre ++ Hole k :: post) = true ->
        plainVars vars = true ->
        lookupVar vars k = None ->
        CaptionGenerator.generateSingleCaptionForAllItems st
        = Ok (JString (specRender vars pre ++ placeholder k ++ specRender vars post))).
Proof.
  split; [|split; [by vm_compute|split; [by vm_compute|]]].
  - intros item v Hv. apply (forallb_holes _ AgencyTemplates.AVAILABLE_VARIABLES);
      [by vm_compute|done].
  - intros st pre post k Hsd Hfeed vars Ht Hwf Hvars Hk.
    rewrite (generateSingle_string st sd _ Hsd Hfeed Ht).
    fold vars. rewrite substitute_tokens by done.
    by rewrite specRender_unknown_hole.
Qed.

Lemma offered_variables_on_feeds_witness :
  CaptionGenerator.generateSingleCaptionForAllItems (host := Instances.utcHost)
    (Instances.openOn "ig_feed" (Some 1)
       [Instances.agencyWith 1 "ig_feed" "{item_name} by {creator_name}"]
       Instances.recordAB)
  = Ok (JString (str "A by {creator_name}")).
Proof.
  destruct (offered_variables_on_feeds (host := Instances.utcHost) Instances.recordAB)
    as (_ & _ & _ & H).
  rewrite (H (Instances.openOn "ig_feed" (Some 1)
                [Instances.agencyWith 1 "ig_feed" "{item_name} by {creator_name}"]
                Instances.recordAB)
             [Hole (str "item_name"); Text (str " by ")] [] (str "creator_name"));
    by vm_compute.
Defined.

Section AgencyFacts.
Import CaptionGenerator.

(** The agencies after [updateTemplate]: every agency with the id of the
    selected one has the new content. *)
Lemma find_updated (i : Z) (f : Agency -> Agency) (l : list Agency) :
  (forall a, agency_id (f a) = agency_id a) ->
  List.find (fun a => bool_decide (agency_id a = i))
    (map (fun a => if bool_decide (agency_id a = i) then f a else a) l)
  = f <$> List.find (fun a => bool_decide (agency_id a = i)) l.
Proof.
  intros Hf. induction l as [|a l IH]; [done|]. cbn [map List.find].
  destruct (decide (agency_id a = i)) as [E|E].
  - rewrite (bool_decide_eq_true_2 _ E).
    by rewrite (bool_decide_eq_true_2 (agency_id (f a) = i)) by (by rewrite Hf).
  - by rewrite !(bool_decide_eq_false_2 _ E).
Qed.

Lemma find_known (i : Z) (l : list Agency) :
  i ∈ (agency_id <$> l) ->
  exists a, List.find (fun a => bool_decide (agency_id a = i)) l = Some a
            /\ agency_id a = i.
Proof.
  induction l as [|a l IH]; [by intros ?%elem_of_nil|]. cbn [fmap list_fmap List.find].
  destruct (decide (agency_id a = i)) as [E|E].
  - intros _. exists a. by rewrite (bool_decide_eq_true_2 _ E).
  - intros [?|Hin]%elem_of_cons; [congruence|].
    rewrite (bool_decide_eq_false_2 _ E). by apply IH.
Qed.

Lemma ids_updated (i : Z) (f : Agency -> Agency) (l : list Agency) :
  (forall a, agency_id (f a) = agency_id a) ->
  agency_id <$> map (fun a => if bool_decide (agency_id a = i) then f a else a) l
  = agency_id <$> l.
Proof.
  intros Hf. induction l as [|a l IH]; [done|]. cbn [map fmap list_fmap] in *.
  f_equal; [|exact IH]. by case_bool_decide.
Qed.

(** [updateTemplate] with an agency selected, when local storage takes the
    new list. *)
Lemma updateTemplate_run (st : AgencyTemplates.State) (selected : Agency)
    (ty : AgencyTemplates.TemplateType) (content : jsstring) :
  AgencyTemplates.selectedAgency st = Some selected ->
  let updated :=
    map (fun agency =>
           if bool_decide (agency_id agency = agency_id selected)
           then AgencyTemplates.withTemplate (AgencyTemplates.typeId ty) content agency
           else agency) (AgencyTemplates.agencies st) in
  AgencyTemplates.updateTemplate ty content st
  = if AgencyTemplates.storageFits st updated
    then (Ok tt,
          {| AgencyTemplates.agencies := updated;
             AgencyTemplates.selectedAgency :=
               AgencyTemplates.withTemplate (AgencyTemplates.typeId ty) content
                 <$> List.find (fun a => bool_decide (agency_id a = agency_id selected))
                       (AgencyTemplates.agencies st);
             AgencyTemplates.storedAgencies := Some updated;
             AgencyTemplates.storageFits := AgencyTemplates.storageFits st |})
    else (Throw QuotaExceededError, st).
Proof.
  intros Hsel updated. unfold AgencyTemplates.updateTemplate. rewrite Hsel.
  fold updated. unfold AgencyTemplates.saveAgencies.
  destruct (AgencyTemplates.storageFits st updated); [|done].
  unfold AgencyTemplates.setSelectedAgency. cbn. f_equal. f_equal.
  subst updated. by rewrite find_updated.
Qed.

End AgencyFacts.

(** X18.  From the template editor to the caption: after [updateTemplate]
    on the selected agency (its id being in the list, and local storage
    taking the new list), the slot holds the list shown, the ids of the
    agencies are as before, the selected agency has the new content for
    the type, and the caption generator, opened on these agencies with that
    agency and that type chosen, resolves to the new content -- unless the
    content is empty, in which case it resolves to the default template.
    When local storage refuses the list, [updateTemplate] throws and
    changes nothing. *)
Theorem template_edit_reaches_captions (st : AgencyTemplates.State)
    (selected : CaptionGenerator.Agency) (ty : AgencyTemplates.TemplateType)
    (content : jsstring) (sd : Stream) :
  AgencyTemplates.selectedAgency st = Some selected ->
  (CaptionGenerator.agency_id selected
     ∈ (CaptionGenerator.agency_id <$> AgencyTemplates.agencies st)) ->
  let out := AgencyTemplates.updateTemplate ty content st in
  ((forall l, AgencyTemplates.storageFits st l = true) ->
   out.1 = Ok tt
   /\ AgencyTemplates.storedAgencies out.2 = Some (AgencyTemplates.agencies out.2)
   /\ (CaptionGenerator.agency_id <$> AgencyTemplates.agencies out.2)
      = (CaptionGenerator.agency_id <$> AgencyTemplates.agencies st)
   /\ (exists a,
         AgencyTemplates.selectedAgency out.2 = Some a
         /\ CaptionGenerator.agency_id a = CaptionGenerator.agency_id selected
         /\ CaptionGenerator.templates a !! AgencyTemplates.typeId ty = Some content)
   /\ exists c d,
        CaptionGenerator.defaultTemplates !! AgencyTemplates.typeId ty = Some (c :: d)
        /\ CaptionGenerator.resolveTemplate
             (AgencyTemplates.captionsFor out.2
                (Some (CaptionGenerator.agency_id selected))
                (AgencyTemplates.typeId ty) sd)
           = JString (match content with [] => c :: d | _ => content end))
  /\ ((forall l, AgencyTemplates.storageFits st l = false) ->
      out = (Throw QuotaExceededError, st)).
Proof.
  intros Hsel Hin out. subst out.
  rewrite (updateTemplate_run st selected ty content Hsel). cbv zeta. split.
  - intros Hfits. rewrite Hfits. cbn [fst snd AgencyTemplates.storedAgencies
      AgencyTemplates.agencies AgencyTemplates.selectedAgency].
    destruct (find_known _ _ Hin) as (a & Hfind & Ha).
    split; [done|]. split; [done|].
    split; [by apply ids_updated|].
    split.
    { rewrite Hfind. eexists. split; [done|]. split; [done|]. cbn.
      by rewrite lookup_insert_eq. }
    assert (Hp : AgencyTemplates.typeId ty ∈ CaptionGenerator.PLATFORMS).
    { destruct ty; eapply bool_decide_eq_true_1; by vm_compute. }
    destruct (default_template_lookup _ Hp) as (c & d & Hd & Hget).
    exists c, d. split; [done|].
    unfold CaptionGenerator.resolveTemplate, AgencyTemplates.captionsFor.
    cbn [CaptionGenerator.selectedAgency CaptionGenerator.agencies
         CaptionGenerator.selectedPlatform AgencyTemplates.agencies].
    rewrite Hget, find_updated, Hfind by done. cbn [fmap option_fmap option_map].
    rewrite getProp_recognized by done. cbn [CaptionGenerator.templates
      AgencyTemplates.withTemplate]. rewrite lookup_insert_eq.
    by destruct content.
  - intros Hfits. by rewrite Hfits.
Qed.

Lemma template_edit_reaches_captions_witness :
  let agency := Instances.agencyWith 1 "request" "Hello {item_name}" in
  let st := {| AgencyTemplates.agencies := [agency];
               AgencyTemplates.selectedAgency := Some agency;
               AgencyTemplates.storedAgencies := Some [agency];
               AgencyTemplates.storageFits := fun _ => true |} in
  let out := AgencyTemplates.updateTemplate AgencyTemplates.end_stream (str "Bye") st in
  CaptionGenerator.resolveTemplate
    (AgencyTemplates.captionsFor out.2 (Some 1) (str "end_stream") Instances.recordAB)
  = JString (str "Bye").
Proof.
  intros agency st out.
  destruct (template_edit_reaches_captions st agency AgencyTemplates.end_stream
              (str "Bye") Instances.recordAB eq_refl) as (H & _).
  - eapply bool_decide_eq_true_1. by vm_compute.
  - destruct (H (fun _ => eq_refl)) as (_ & _ & _ & _ & c & d & _ & Hres).
    exact Hres.
Defined.

(** X19.  [insertVariable] appends the placeholder of the variable to the
    text the selected agency has for the type, or to the empty text when it
    has none, and saves the result as [updateTemplate] does: afterwards the
    selected agency has exactly the old text followed by the placeholder.
    With no agency selected it changes nothing. *)
Theorem insert_variable_appends (st : AgencyTemplates.State)
    (ty : AgencyTemplates.TemplateType) (variable : jsstring) :
  (AgencyTemplates.selectedAgency st = None ->
   AgencyTemplates.insertVariable ty variable st = (Ok tt, st))
  /\ (forall selected,
        AgencyTemplates.selectedAgency st = Some selected ->
        (CaptionGenerator.agency_id selected
           ∈ (CaptionGenerator.agency_id <$> AgencyTemplates.agencies st)) ->
        (forall l, AgencyTemplates.storageFits st l = true) ->
        let old := default [] (CaptionGenerator.templates selected
                                 !! AgencyTemplates.typeId ty) in
        let out := AgencyTemplates.insertVariable ty variable st in
        out.1 = Ok tt
        /\ exists a,
             AgencyTemplates.selectedAgency out.2 = Some a
             /\ CaptionGenerator.templates a !! AgencyTemplates.typeId ty
                = Some (old ++ placeholder variable)).
Proof.
  split.
  - intros Hnone. unfold AgencyTemplates.insertVariable, AgencyTemplates.updateTemplate.
    by rewrite Hnone.
  - intros selected Hsel Hin Hfits old out. subst out.
    unfold AgencyTemplates.insertVariable.
    rewrite (updateTemplate_run st selected ty _ Hsel). cbv zeta. rewrite Hfits.
    cbn [fst snd AgencyTemplates.selectedAgency].
    destruct (find_known _ _ Hin) as (a & Hfind & Ha).
    split; [done|]. rewrite Hfind. eexists. split; [done|]. cbn.
    rewrite lookup_insert_eq. f_equal. f_equal.
    unfold AgencyTemplates.currentContent. rewrite Hsel.
    assert (Hp : AgencyTemplates.typeId ty ∈ CaptionGenerator.PLATFORMS).
    { destruct ty; eapply bool_decide_eq_true_1; by vm_compute. }
    rewrite getProp_recognized by done. subst old.
    by destruct (CaptionGenerator.templates selected !! _) as [[|c s]|].
Qed.

Lemma insert_variable_appends_witness :
  let agency := Instances.agencyWith 1 "request" "Hello " in
  let st := {| AgencyTemplates.agencies := [agency];
               AgencyTemplates.selectedAgency := Some agency;
               AgencyTemplates.storedAgencies := Some [agency];
               AgencyTemplates.storageFits := fun _ => true |} in
  exists a,
    AgencyTemplates.selectedAgency
      (AgencyTemplates.insertVariable AgencyTemplates.request (str "item_name") st).2
    = Some a
    /\ CaptionGenerator.templates a !! AgencyTemplates.typeId AgencyTemplates.request
       = Some (str "Hello {item_name}").
Proof.
  intros agency st.
  destruct (insert_variable_appends st AgencyTemplates.request (str "item_name"))
    as (_ & H).
  destruct (H agency eq_refl) as (_ & a & Ha & Ht).
  - eapply bool_decide_eq_true_1. by vm_compute.
  - done.
  - exists a. split; [exact Ha|]. etrans; [exact Ht|]. by vm_compute.
Defined.

Section DeleteAgencyLemmas.
Import CaptionGenerator.

Lemma find_deleted (i : Z) (l : list Agency) :
  List.find (fun a => bool_decide (agency_id a = i))
    (filter (fun a => agency_id a <> i) l) = None.
Proof.
  induction l as [|a l IH]; [done|].
  destruct (decide (agency_id a = i)) as [E|E].
  - by rewrite filter_cons_False by (by intros ?).
  - rewrite filter_cons_True by done. cbn [List.find].
    by rewrite bool_decide_eq_false_2.
Qed.

End DeleteAgencyLemmas.

(** X20.  [deleteAgency] (local storage taking the shorter list) removes
    every agency with the id, stores the list, and clears the selection of
    the editor if it was that agency.  The choice made in the caption
    generator is not part of that state: opened on the remaining agencies
    with the deleted id still chosen, it resolves a recognized platform to
    its default template. *)
Theorem delete_agency_falls_back (st : AgencyTemplates.State) (agencyId : Z)
    (p : jsstring) (sd : Stream) :
  (forall l, AgencyTemplates.storageFits st l = true) ->
  p ∈ CaptionGenerator.PLATFORMS ->
  let out := AgencyTemplates.deleteAgency agencyId st in
  out.1 = Ok tt
  /\ (agencyId ∉ (CaptionGenerator.agency_id <$> AgencyTemplates.agencies out.2))
  /\ (forall a, a ∈ AgencyTemplates.agencies out.2 <->
                a ∈ AgencyTemplates.agencies st
                /\ CaptionGenerator.agency_id a <> agencyId)
  /\ AgencyTemplates.storedAgencies out.2 = Some (AgencyTemplates.agencies out.2)
  /\ (CaptionGenerator.agency_id <$> AgencyTemplates.selectedAgency out.2)
     <> Some agencyId
  /\ CaptionGenerator.resolveTemplate
       (AgencyTemplates.captionsFor out.2 (Some agencyId) p sd)
     = CaptionGenerator.getDefaultTemplate p.
Proof.
  intros Hfits Hp out. subst out.
  unfold AgencyTemplates.deleteAgency, AgencyTemplates.saveAgencies.
  rewrite Hfits. cbn [AgencyTemplates.selectedAgency].
  set (kept := filter (fun a => CaptionGenerator.agency_id a <> agencyId)
                 (AgencyTemplates.agencies st)).
  assert (Hag : forall b : bool,
            AgencyTemplates.agencies
              (if b then AgencyTemplates.setSelectedAgency None
                           {| AgencyTemplates.agencies := kept;
                              AgencyTemplates.selectedAgency :=
                                AgencyTemplates.selectedAgency st;
                              AgencyTemplates.storedAgencies := Some kept;
                              AgencyTemplates.storageFits :=
                                AgencyTemplates.storageFits st |}
               else {| AgencyTemplates.agencies := kept;
                       AgencyTemplates.selectedAgency :=
                         AgencyTemplates.selectedAgency st;
                       AgencyTemplates.storedAgencies := Some kept;
                       AgencyTemplates.storageFits := AgencyTemplates.storageFits st |})
            = kept) by (by intros []).
  cbn [fst snd]. rewrite !Hag.
  split; [done|]. split.
  { intros Hin. apply list_elem_of_fmap in Hin as (a & Ha & Hin).
    apply list_elem_of_filter in Hin as [Hne _]. by apply Hne. }
  split; [intros a; subst kept; rewrite list_elem_of_filter; tauto|].
  split; [by case_bool_decide|].
  split; [case_bool_decide as E; [done|exact E]|].
  destruct (default_template_lookup _ Hp) as (c & d & _ & Hget).
  unfold CaptionGenerator.resolveTemplate, AgencyTemplates.captionsFor.
  cbn [CaptionGenerator.selectedAgency CaptionGenerator.agencies
       CaptionGenerator.selectedPlatform].
  rewrite Hag. subst kept. by rewrite find_deleted.
Qed.

Lemma delete_agency_falls_back_witness :
  let agency := Instances.agencyWith 1 "request" "Hello {item_name}" in
  let st := {| AgencyTemplates.agencies := [agency];
               AgencyTemplates.selectedAgency := Some agency;
               AgencyTemplates.storedAgencies := Some [agency];
               AgencyTemplates.storageFits := fun _ => true |} in
  AgencyTemplates.selectedAgency (AgencyTemplates.deleteAgency 1 st).2 = None
  /\ CaptionGenerator.resolveTemplate
       (AgencyTemplates.captionsFor (AgencyTemplates.deleteAgency 1 st).2 (Some 1)
          (str "request") Instances.recordAB)
     = CaptionGenerator.getDefaultTemplate (str "request").
Proof.
  intros agency st.
  destruct (delete_agency_falls_back st 1 (str "request") Instances.recordAB)
    as (_ & _ & _ & _ & _ & H).
  - done.
  - eapply bool_decide_eq_true_1. by vm_compute.
  - split; [reflexivity|exact H].
Defined.

(* ===================================================================== *)
(** * The link parser *)
(* ===================================================================== *)

Section SearchLemmas.
Import JsText.

Lemma takeDigits_digits (s : jsstring) : forallb isDigit (takeDigits s) = true.
Proof.
  induction s as [|c r IH]; [done|]. cbn [takeDigits].
  destruct (isDigit c) eqn:Hc; [|done]. cbn [forallb]. by rewrite Hc, IH.
Qed.

Lemma searchDigits_cons (lit : jsstring) (c : ascii) (r : jsstring) :
  searchDigits lit (c :: r)
  = if isPrefix lit (c :: r) then
      match takeDigits (drop (length lit) (c :: r)) with
      | [] => searchDigits lit r
      | d => Some d
      end
    else searchDigits lit r.
Proof. done. Qed.

(** What a search captures is a run of digits that is not empty. *)
Lemma searchDigits_capture (lit s d : jsstring) :
  searchDigits lit s = Some d -> d <> [] /\ forallb isDigit d = true.
Proof.
  induction s as [|c r IH]; [done|]. rewrite searchDigits_cons.
  destruct (isPrefix lit (c :: r)); [|exact IH].
  pose proof (takeDigits_digits (drop (length lit) (c :: r))) as Hd.
  destruct (takeDigits _) as [|x xs]; [exact IH|].
  intros [= <-]. by split.
Qed.

(** A match in a later part of the text is a match in the text. *)
Lemma searchDigits_later (lit : jsstring) (c : ascii) (r : jsstring) :
  searchDigits lit r <> None -> searchDigits lit (c :: r) <> None.
Proof.
  intros Hr. rewrite searchDigits_cons.
  destruct (isPrefix lit (c :: r)); [|done]. by destruct (takeDigits _).
Qed.

Lemma searchDigits_drop (lit : jsstring) (n : nat) (s : jsstring) :
  searchDigits lit (drop n s) <> None -> searchDigits lit s <> None.
Proof.
  revert s. induction n as [|n IH]; intros s; [by rewrite drop_0|].
  destruct s as [|c r]; [done|]. cbn [drop]. intros H.
  apply searchDigits_later. by apply IH.
Qed.

Lemma greedyTail_found (lit s : jsstring) :
  greedyTail lit s <> None -> searchDigits lit s <> None.
Proof.
  induction s as [|c r IH].
  - cbn. destruct (isPrefix lit []); [|done]. by rewrite drop_nil.
  - cbn [greedyTail]. rewrite searchDigits_cons.
    destruct (if lineTerminatorAt (c :: r) then None else greedyTail lit r) as [d|] eqn:E.
    + intros _. assert (Hr : searchDigits lit r <> None).
      { apply IH. destruct (lineTerminatorAt (c :: r)); [done|]. by rewrite E. }
      destruct (isPrefix lit (c :: r)); [|done]. by destruct (takeDigits _).
    + destruct (isPrefix lit (c :: r)); [|done]. by destruct (takeDigits _).
Qed.

(** The third pattern of [parseProductUrl] matches only where the first
    does. *)
Lemma searchAfter_found (first lit s : jsstring) :
  searchAfter first lit s <> None -> searchDigits lit s <> None.
Proof.
  induction s as [|c r IH]; [done|]. cbn [searchAfter].
  destruct (isPrefix first (c :: r)).
  - destruct (greedyTail lit (drop (length first) (c :: r))) as [d|] eqn:E.
    + intros _. apply (searchDigits_drop lit (length first)).
      apply greedyTail_found. by rewrite E.
    + intros H. apply searchDigits_later. by apply IH.
  - intros H. apply searchDigits_later. by apply IH.
Qed.

(** [parseProductUrl] without its third pattern. *)
Lemma parseProductUrl_two (url : jsstring) :
  IMVULinkParser.parseProductUrl url
  = match url with
    | [] => IMVULinkParser.invalidUrl
    | _ =>
        match searchDigits (str "products_id=") (trim url) with
        | Some d => IMVULinkParser.validUrl d IMVULinkParser.classic (trim url)
        | None =>
            match searchDigits (str "product-") (trim url) with
            | Some d => IMVULinkParser.validUrl d IMVULinkParser.beta (trim url)
            | None => IMVULinkParser.invalidUrl
            end
        end
    end.
Proof.
  unfold IMVULinkParser.parseProductUrl. destruct url as [|c r]; [done|].
  cbv zeta. destruct (searchDigits (str "products_id=") _) as [d|] eqn:E1; [done|].
  destruct (searchDigits (str "product-") _) as [d|]; [done|].
  destruct (searchAfter _ _ _) as [d|] eqn:E3; [|done].
  exfalso. apply (searchAfter_found (str "fr.imvu.com") (str "products_id=")
                    (trim (c :: r))); [by rewrite E3|done].
Qed.

End SearchLemmas.

(** X21.  The third pattern of [parseProductUrl], the one for the French
    site, never decides: wherever it matches, the first pattern has matched
    already.  So the result is that of the first two patterns alone, a
    French address is read by the first pattern, and a text neither of the
    first two patterns matches is invalid. *)
Theorem third_pattern_never_decides (url : jsstring) :
  let cleanUrl := JsText.trim url in
  (JsText.searchAfter (str "fr.imvu.com") (str "products_id=") cleanUrl <> None ->
   JsText.searchDigits (str "products_id=") cleanUrl <> None)
  /\ (JsText.searchDigits (str "products_id=") cleanUrl = None ->
      JsText.searchDigits (str "product-") cleanUrl = None ->
      IMVULinkParser.parseProductUrl url = IMVULinkParser.invalidUrl).
Proof.
  intros cleanUrl. split; [apply searchAfter_found|].
  intros H1 H2. rewrite parseProductUrl_two. fold cleanUrl. rewrite H1, H2.
  by destruct url.
Qed.

Lemma third_pattern_never_decides_witness :
  IMVULinkParser.parseProductUrl (str "see fr.imvu.com for products_id= or product-x")
  = IMVULinkParser.invalidUrl
  /\ IMVULinkParser.productId
       (IMVULinkParser.parseProductUrl
          (str "https://fr.imvu.com/shop/product.php?products_id=123456"))
     = Some (str "123456").
Proof.
  split; [|by vm_compute].
  apply (third_pattern_never_decides
           (str "see fr.imvu.com for products_id= or product-x")); by vm_compute.
Defined.

(** X22.  What [parseProductUrl] returns: the result is valid exactly when
    it carries an id, and exactly when it carries a type; the id is a run
    of decimal digits that is not empty; a valid result carries the trimmed
    text as [originalUrl]; and the first pattern has priority: a text with
    [products_id=] and digits is [classic], with the digits of the first
    such place, even when it also has [product-] and digits. *)
Theorem parsed_url_shape (url : jsstring) :
  let parsed := IMVULinkParser.parseProductUrl url in
  (IMVULinkParser.isValid parsed = true <-> is_Some (IMVULinkParser.productId parsed))
  /\ (IMVULinkParser.isValid parsed = true <-> is_Some (IMVULinkParser.urlType parsed))
  /\ (forall d, IMVULinkParser.productId parsed = Some d ->
        d <> [] /\ forallb JsText.isDigit d = true)
  /\ (IMVULinkParser.isValid parsed = true ->
      IMVULinkParser.originalUrl parsed = Some (JsText.trim url))
  /\ (forall d, url <> [] ->
        JsText.searchDigits (str "products_id=") (JsText.trim url) = Some d ->
        parsed = IMVULinkParser.validUrl d IMVULinkParser.classic (JsText.trim url)).
Proof.
  intros parsed. subst parsed. rewrite parseProductUrl_two.
  destruct url as [|c r].
  { split; [split; [done|by intros []]|]. split; [split; [done|by intros []]|].
    split; [done|]. split; [done|]. by intros d []. }
  generalize (JsText.trim (c :: r)). intros clean.
  destruct (JsText.searchDigits (str "products_id=") clean) as [d1|] eqn:E1.
  { pose proof (searchDigits_capture _ _ _ E1) as Hd.
    cbn [IMVULinkParser.validUrl IMVULinkParser.isValid IMVULinkParser.productId
         IMVULinkParser.urlType IMVULinkParser.originalUrl].
    split; [split; [by eauto|done]|]. split; [split; [by eauto|done]|].
    split; [by intros d [= <-]|]. split; [done|]. by intros d _ [= <-]. }
  destruct (JsText.searchDigits (str "product-") clean) as [d2|] eqn:E2.
  { pose proof (searchDigits_capture _ _ _ E2) as Hd.
    cbn [IMVULinkParser.validUrl IMVULinkParser.isValid IMVULinkParser.productId
         IMVULinkParser.urlType IMVULinkParser.originalUrl].
    split; [split; [by eauto|done]|]. split; [split; [by eauto|done]|].
    split; [by intros d [= <-]|]. split; [done|]. by intros d _ [=]. }
  split; [split; [done|by intros []]|]. split; [split; [done|by intros []]|].
  split; [done|]. split; [done|]. by intros d _ [=].
Qed.

Lemma parsed_url_shape_witness :
  IMVULinkParser.parseProductUrl
    (str "  https://www.imvu.com/next/shop/product-42/?ref=products_id=7 ")
  = IMVULinkParser.validUrl (str "7") IMVULinkParser.classic
      (str "https://www.imvu.com/next/shop/product-42/?ref=products_id=7").
Proof.
  destruct (parsed_url_shape
              (str "  https://www.imvu.com/next/shop/product-42/?ref=products_id=7 "))
    as (_ & _ & _ & _ & H).
  rewrite (H (str "7")); by vm_compute.
Defined.

Section TrimLemmas.
Import JsText.

Lemma trimStart_kept (c : ascii) (r : jsstring) :
  afterSpace whiteSpace (c :: r) = None -> trimStart (c :: r) = c :: r.
Proof. intros H. unfold trimStart. cbn [length dropSpaces]. by rewrite H. Qed.

Lemma trimEnd_kept (s : jsstring) (c : ascii) :
  afterSpace (map (@rev ascii) whiteSpace) (c :: rev s) = None ->
  trimEnd (s ++ [c]) = s ++ [c].
Proof.
  intros H. unfold trimEnd. rewrite rev_app_distr, length_app, Nat.add_1_r.
  cbn [rev app dropSpaces]. rewrite H. cbn [rev]. by rewrite rev_involutive.
Qed.

(** A digit is no white space, whatever comes before it. *)
Lemma digit_ends_no_space (c : ascii) (r : jsstring) :
  isDigit c = true -> afterSpace (map (@rev ascii) whiteSpace) (c :: r) = None.
Proof.
  destruct c as [[] [] [] [] [] [] [] []]; intros Hc; try discriminate Hc;
    reflexivity.
Qed.

Lemma takeDigits_all (d rest : jsstring) :
  forallb isDigit d = true -> takeDigits rest = [] -> takeDigits (d ++ rest) = d.
Proof.
  intros Hd Hrest. induction d as [|c d IH]; [done|].
  cbn [forallb] in Hd. apply andb_true_iff in Hd as [Hc Hd].
  cbn [app takeDigits]. rewrite Hc. by rewrite IH.
Qed.

Lemma takeDigits_self (d : jsstring) :
  forallb isDigit d = true -> takeDigits d = d.
Proof.
  intros Hd. rewrite <- (app_nil_r d) at 1. by apply takeDigits_all.
Qed.

Lemma searchDigits_skip (lit : jsstring) (c : ascii) (r : jsstring) :
  isPrefix lit (c :: r) = false -> searchDigits lit (c :: r) = searchDigits lit r.
Proof. intros H. by rewrite searchDigits_cons, H. Qed.

(** A pattern that starts with a letter finds nothing in a run of
    digits. *)
Lemma searchDigits_over_digits (a : ascii) (lit d rest : jsstring) :
  isDigit a = false -> forallb isDigit d = true ->
  searchDigits (a :: lit) (d ++ rest) = searchDigits (a :: lit) rest.
Proof.
  intros Ha Hd. induction d as [|c d IH]; [done|].
  cbn [forallb] in Hd. apply andb_true_iff in Hd as [Hc Hd].
  cbn [app]. rewrite searchDigits_skip; [by apply IH|].
  cbn [isPrefix]. destruct (Ascii.eqb_spec a c) as [->|_]; [congruence|done].
Qed.

End TrimLemmas.

(** X23.  The addresses [extractProductInfo] builds are read back by
    [parseProductUrl]: for an id that is a run of digits and a type, the
    address built from them parses as valid, with that id and that type,
    and is not changed by the trimming. *)
Theorem built_url_parses_back (d : jsstring) (ty : IMVULinkParser.UrlType) :
  d <> [] -> forallb JsText.isDigit d = true ->
  IMVULinkParser.parseProductUrl (IMVULinkParser.productUrl d ty)
  = IMVULinkParser.validUrl d ty (IMVULinkParser.productUrl d ty).
Proof.
  intros Hne Hd.
  assert (Htrim : JsText.trim (IMVULinkParser.productUrl d ty)
                  = IMVULinkParser.productUrl d ty).
  { unfold JsText.trim. destruct ty.
    - change (IMVULinkParser.productUrl d IMVULinkParser.classic)
        with ("h"%char :: (str "ttps://www.imvu.com/shop/product.php?products_id=" ++ d)).
      rewrite trimStart_kept by reflexivity.
      destruct (exists_last Hne) as (d0 & c & ->).
      rewrite forallb_app in Hd. apply andb_true_iff in Hd as [_ Hc].
      cbn [forallb] in Hc. apply andb_true_iff in Hc as [Hc _].
      rewrite app_comm_cons, app_assoc.
      apply trimEnd_kept. by apply digit_ends_no_space.
    - change (IMVULinkParser.productUrl d IMVULinkParser.beta)
        with ("h"%char :: ((str "ttps://www.imvu.com/next/shop/product-" ++ d)
                             ++ ["/"%char])).
      rewrite trimStart_kept by reflexivity.
      rewrite app_comm_cons. apply trimEnd_kept. reflexivity. }
  rewrite parseProductUrl_two, Htrim.
  destruct ty.
  - change (IMVULinkParser.productUrl d IMVULinkParser.classic)
      with (str "https://www.imvu.com/shop/product.php?" ++ str "products_id=" ++ d).
    cbn [str list_ascii_of_string app].
    do 38 (rewrite searchDigits_skip by reflexivity).
    rewrite searchDigits_cons.
    change (isPrefix (str "products_id=") _) with true. cbv iota.
    change (drop _ _) with d.
    rewrite takeDigits_self by done.
    by destruct d.
  - change (IMVULinkParser.productUrl d IMVULinkParser.beta)
      with (str "https://www.imvu.com/next/shop/" ++ str "product-" ++ d ++ str "/").
    cbn [str list_ascii_of_string app].
    do 39 (rewrite searchDigits_skip by reflexivity).
    rewrite (searchDigits_over_digits "p" (str "roducts_id=") d) by done.
    rewrite searchDigits_skip by reflexivity.
    change (JsText.searchDigits _ []) with (@None jsstring). cbv iota.
    do 31 (rewrite searchDigits_skip by reflexivity).
    rewrite searchDigits_cons.
    change (isPrefix (str "product-") _) with true. cbv iota.
    change (drop _ _) with (d ++ ["/"%char]).
    rewrite takeDigits_all by done.
    by destruct d.
Qed.

Lemma built_url_parses_back_witness :
  IMVULinkParser.parseProductUrl (str "https://www.imvu.com/next/shop/product-123456/")
  = IMVULinkParser.validUrl (str "123456") IMVULinkParser.beta
      (str "https://www.imvu.com/next/shop/product-123456/").
Proof.
  apply (built_url_parses_back (str "123456") IMVULinkParser.beta); by vm_compute.
Defined.

(** The three marks of a valid result go together. *)
Lemma parsed_shape_link (url : jsstring) :
  (IMVULinkParser.isValid (IMVULinkParser.parseProductUrl url) = true
   <-> is_Some (IMVULinkParser.productId (IMVULinkParser.parseProductUrl url)))
  /\ (IMVULinkParser.isValid (IMVULinkParser.parseProductUrl url) = true
      <-> is_Some (IMVULinkParser.urlType (IMVULinkParser.parseProductUrl url))).
Proof.
  rewrite parseProductUrl_two. destruct url as [|c r].
  { split; (split; [done|by intros []]). }
  destruct (JsText.searchDigits (str "products_id=") _) as [d1|].
  { split; (split; [by eauto|done]). }
  destruct (JsText.searchDigits (str "product-") _) as [d2|].
  { split; (split; [by eauto|done]). }
  split; (split; [done|by intros []]).
Qed.

Section CacheLemmas.
Import IMVULinkParser.
Variable fetch : nat -> jsstring -> option jsstring.
Variable parseProductPage : jsstring -> ProductInfo.

(** What [extractProductInfo] does when nothing usable is cached. *)
Lemma extract_uncached (d : jsstring) (ty : UrlType) (p p1 : Parser) :
  getCachedProduct d p = (None, p1) ->
  extractProductInfo fetch parseProductPage d ty p
  = match fetch (length (fetched p1)) (productUrl d ty) with
    | None => (failedExtract, logError (recordFetch (productUrl d ty) p1))
    | Some html =>
        match productName (parseProductPage html) with
        | Some (c :: n) =>
            ({| x_productName := productName (parseProductPage html);
                x_creatorName := creatorName (parseProductPage html);
                success := true; fromCache := Some false |},
             cacheProduct d (parseProductPage html) (recordFetch (productUrl d ty) p1))
        | _ => (failedExtract, logError (recordFetch (productUrl d ty) p1))
        end
    end.
Proof. intros H. unfold extractProductInfo. by rewrite H. Qed.

Lemma getCached_frame (d : jsstring) (p : Parser) :
  let out := getCachedProduct d p in
  productCache out.2 = productCache p /\ clock out.2 = clock p
  /\ fetched out.2 = fetched p /\ errors out.2 = errors p.
Proof. unfold getCachedProduct. by destruct (productCache p !! d). Qed.

(** One call sends at most one request and keeps the clock. *)
Lemma extract_fetches (d : jsstring) (ty : UrlType) (p : Parser) :
  let out := extractProductInfo fetch parseProductPage d ty p in
  clock out.2 = clock p
  /\ exists t, fetched out.2 = fetched p ++ t /\ (length t <= 1)%nat.
Proof.
  cbv zeta. destruct (getCached_frame d p) as (_ & Hc & Hf & _).
  destruct (getCachedProduct d p) as [[cached|] p1] eqn:Hget; cbn [snd] in Hc, Hf.
  - unfold extractProductInfo. rewrite Hget. cbn [snd]. split; [done|].
    exists []. rewrite app_nil_r. split; [done|cbn; lia].
  - rewrite (extract_uncached d ty p p1 Hget).
    destruct (fetch _ _) as [html|];
      [destruct (productName (parseProductPage html)) as [[|c n]|]|];
      cbn; (split; [done|]); exists [productUrl d ty]; rewrite Hf;
      (split; [done|cbn; lia]).
Qed.

End CacheLemmas.

(** X24.  The cache of the link parser.  An entry younger than seven days
    is served without a request; an entry of exactly seven days or more is
    not served, and a request is sent.  A call that fails leaves the cache
    as it was and writes one line to the console; a call that succeeds
    over the network stores what it read under the id.  So of two calls
    for the same id, the first finding nothing cached and reading a page
    with a product name, the second is served from the cache, with the
    same names and no further request, if the clock has advanced by less
    than seven days. *)
Theorem cache_policy (fetch : nat -> jsstring -> option jsstring)
    (parseProductPage : jsstring -> IMVULinkParser.ProductInfo)
    (p : IMVULinkParser.Parser) (d : jsstring) (ty : IMVULinkParser.UrlType) :
  let extract := IMVULinkParser.extractProductInfo fetch parseProductPage in
  let now := IMVULinkParser.clock p (IMVULinkParser.ticks p) in
  (forall e, IMVULinkParser.productCache p !! d = Some e ->
     now - IMVULinkParser.timestamp e < 604800000 ->
     extract d ty p
     = ({| IMVULinkParser.x_productName :=
             IMVULinkParser.productName (IMVULinkParser.data e);
           IMVULinkParser.x_creatorName :=
             IMVULinkParser.creatorName (IMVULinkParser.data e);
           IMVULinkParser.success := true;
           IMVULinkParser.fromCache := Some true |},
        IMVULinkParser.tickParser p))
  /\ (forall e, IMVULinkParser.productCache p !! d = Some e ->
        604800000 <= now - IMVULinkParser.timestamp e ->
        IMVULinkParser.fetched (extract d ty p).2
        = IMVULinkParser.fetched p ++ [IMVULinkParser.productUrl d ty])
  /\ (IMVULinkParser.success (extract d ty p).1 = false ->
      IMVULinkParser.productCache (extract d ty p).2 = IMVULinkParser.productCache p
      /\ IMVULinkParser.errors (extract d ty p).2 = S (IMVULinkParser.errors p))
  /\ (forall html c n ty',
        IMVULinkParser.productCache p !! d = None ->
        fetch (length (IMVULinkParser.fetched p)) (IMVULinkParser.productUrl d ty)
        = Some html ->
        IMVULinkParser.productName (parseProductPage html) = Some (c :: n) ->
        let first := extract d ty p in
        let second := extract d ty' first.2 in
        IMVULinkParser.fromCache first.1 = Some false
        /\ IMVULinkParser.productCache first.2 !! d
           = Some {| IMVULinkParser.data := parseProductPage html;
                     IMVULinkParser.timestamp := now |}
        /\ (IMVULinkParser.clock p (S (IMVULinkParser.ticks p)) - now < 604800000 ->
            IMVULinkParser.fromCache second.1 = Some true
            /\ IMVULinkParser.x_productName second.1
               = IMVULinkParser.x_productName first.1
            /\ IMVULinkParser.x_creatorName second.1
               = IMVULinkParser.x_creatorName first.1
            /\ IMVULinkParser.fetched second.2
               = IMVULinkParser.fetched p ++ [IMVULinkParser.productUrl d ty])).
Proof.
  intros extract now. subst extract now.
  assert (Hhit : forall q e,
            IMVULinkParser.productCache q !! d = Some e ->
            IMVULinkParser.clock q (IMVULinkParser.ticks q) - IMVULinkParser.timestamp e
            < 604800000 ->
            forall ty0,
            IMVULinkParser.extractProductInfo fetch parseProductPage d ty0 q
            = ({| IMVULinkParser.x_productName :=
                    IMVULinkParser.productName (IMVULinkParser.data e);
                  IMVULinkParser.x_creatorName :=
                    IMVULinkParser.creatorName (IMVULinkParser.data e);
                  IMVULinkParser.success := true;
                  IMVULinkParser.fromCache := Some true |},
               IMVULinkParser.tickParser q)).
  { intros q e He Hage ty0.
    unfold IMVULinkParser.extractProductInfo, IMVULinkParser.getCachedProduct.
    rewrite He. unfold IMVULinkParser.cacheExpiry.
    destruct (Z.ltb_spec (IMVULinkParser.clock q (IMVULinkParser.ticks q)
                          - IMVULinkParser.timestamp e) (7 * 24 * 60 * 60 * 1000));
      [done|lia]. }
  split; [by intros e He Hage; apply Hhit|]. split; [|split].
  - intros e He Hage.
    rewrite (extract_uncached fetch parseProductPage d ty p (IMVULinkParser.tickParser p)).
    + destruct (fetch _ _) as [html|];
        [destruct (IMVULinkParser.productName (parseProductPage html)) as [[|c n]|]|];
        done.
    + unfold IMVULinkParser.getCachedProduct. rewrite He.
      unfold IMVULinkParser.cacheExpiry.
      destruct (Z.ltb_spec (IMVULinkParser.clock p (IMVULinkParser.ticks p)
                            - IMVULinkParser.timestamp e) (7 * 24 * 60 * 60 * 1000));
        [lia|done].
  - destruct (getCached_frame d p) as (Hc & _ & _ & He).
    destruct (IMVULinkParser.getCachedProduct d p) as [[cached|] p1] eqn:Hget;
      cbn [snd] in Hc, He.
    + unfold IMVULinkParser.extractProductInfo. by rewrite Hget.
    + rewrite (extract_uncached fetch parseProductPage d ty p p1 Hget).
      destruct (fetch _ _) as [html|];
        [destruct (IMVULinkParser.productName (parseProductPage html)) as [[|c n]|]|];
        cbn; try done; intros _; by rewrite Hc, He.
  - intros html c n ty' Hnone Hfetch Hname first second.
    assert (Hfirst :
      first = ({| IMVULinkParser.x_productName :=
                    IMVULinkParser.productName (parseProductPage html);
                  IMVULinkParser.x_creatorName :=
                    IMVULinkParser.creatorName (parseProductPage html);
                  IMVULinkParser.success := true;
                  IMVULinkParser.fromCache := Some false |},
               IMVULinkParser.cacheProduct d (parseProductPage html)
                 (IMVULinkParser.recordFetch (IMVULinkParser.productUrl d ty) p))).
    { subst first.
      rewrite (extract_uncached fetch parseProductPage d ty p p).
      - by rewrite Hfetch, Hname.
      - unfold IMVULinkParser.getCachedProduct. by rewrite Hnone. }
    subst second. rewrite Hfirst. cbn [fst snd].
    split; [done|]. split; [cbn; by rewrite lookup_insert_eq|].
    intros Hage.
    rewrite (Hhit _ {| IMVULinkParser.data := parseProductPage html;
                       IMVULinkParser.timestamp :=
                         IMVULinkParser.clock p (IMVULinkParser.ticks p) |}).
    + done.
    + cbn. by rewrite lookup_insert_eq.
    + done.
Qed.

Lemma cache_policy_witness :
  let p := {| IMVULinkParser.productCache :=
                {[ str "42" := {| IMVULinkParser.data :=
                                    {| IMVULinkParser.productName := Some (str "Hat");
                                       IMVULinkParser.creatorName := None |};
                                  IMVULinkParser.timestamp := 0 |} ]};
              IMVULinkParser.clock := fun _ => 604800000;
              IMVULinkParser.ticks := 0;
              IMVULinkParser.fetched := [];
              IMVULinkParser.errors := 0 |} in
  IMVULinkParser.fetched
    (IMVULinkParser.extractProductInfo (fun _ _ => None)
       (fun _ => {| IMVULinkParser.productName := None;
                    IMVULinkParser.creatorName := None |})
       (str "42") IMVULinkParser.classic p).2
  = [str "https://www.imvu.com/shop/product.php?products_id=42"].
Proof.
  intros p.
  destruct (cache_policy (fun _ _ => None)
              (fun _ => {| IMVULinkParser.productName := None;
                           IMVULinkParser.creatorName := None |})
              p (str "42") IMVULinkParser.classic) as (_ & Hold & _).
  rewrite (Hold {| IMVULinkParser.data :=
                     {| IMVULinkParser.productName := Some (str "Hat");
                        IMVULinkParser.creatorName := None |};
                   IMVULinkParser.timestamp := 0 |}); by vm_compute.
Defined.

(** X25.  [parseMultipleUrls] gives one result for each address, in the
    order of the addresses; each result carries the id and the type
    [parseProductUrl] reads from its address; an address that is not valid
    gets the failure result without a request; and the requests sent are at
    most as many as the valid addresses. *)
Theorem parse_multiple_in_order (fetch : nat -> jsstring -> option jsstring)
    (parseProductPage : jsstring -> IMVULinkParser.ProductInfo)
    (urls : list jsstring) (p : IMVULinkParser.Parser) :
  let out := IMVULinkParser.parseMultipleUrls fetch parseProductPage urls p in
  (IMVULinkParser.r_url <$> out.1) = urls
  /\ (forall r, r ∈ out.1 ->
        let parsed := IMVULinkParser.parseProductUrl (IMVULinkParser.r_url r) in
        IMVULinkParser.r_productId r = IMVULinkParser.productId parsed
        /\ IMVULinkParser.r_urlType r = IMVULinkParser.urlType parsed
        /\ (IMVULinkParser.isValid parsed = false ->
            IMVULinkParser.r_info r = IMVULinkParser.failedExtract))
  /\ exists t,
       IMVULinkParser.fetched out.2 = IMVULinkParser.fetched p ++ t
       /\ (length t <= length (List.filter IMVULinkParser.isValidIMVUUrl urls))%nat.
Proof.
  revert p. induction urls as [|url rest IH]; intros p out.
  { subst out. cbn. split; [done|]. split; [by intros r ?%elem_of_nil|].
    exists []. by rewrite app_nil_r. }
  subst out. cbn [IMVULinkParser.parseMultipleUrls]. cbv zeta.
  pose proof (parsed_shape_link url) as (Hv1 & Hv2).
  unfold IMVULinkParser.isValidIMVUUrl in *. cbn [List.filter].
  destruct (IMVULinkParser.parseProductUrl url) as [pid pty valid orig] eqn:Hparsed.
  cbn [IMVULinkParser.productId IMVULinkParser.urlType IMVULinkParser.isValid] in *.
  destruct pid as [d|]; [destruct pty as [ty|]|].
  - assert (Hval : valid = true) by (apply Hv1; eauto). subst valid.
    destruct (extract_fetches fetch parseProductPage d ty p) as (_ & t1 & Hf1 & Hl1).
    destruct (IMVULinkParser.extractProductInfo fetch parseProductPage d ty p)
      as [info p1]. cbn [snd] in Hf1.
    specialize (IH p1). cbv zeta in IH. destruct IH as (Hu & Hall & t & Hf & Hl).
    destruct (IMVULinkParser.parseMultipleUrls fetch parseProductPage rest p1)
      as [results p2]. cbn [fst snd] in *.
    split; [by rewrite fmap_cons, Hu|]. split.
    + intros r [->|Hr]%elem_of_cons; [|by apply Hall].
      cbn [IMVULinkParser.r_url IMVULinkParser.r_productId IMVULinkParser.r_urlType
           IMVULinkParser.r_info]. by rewrite Hparsed.
    + exists (t1 ++ t). rewrite Hf, Hf1, <- app_assoc. split; [done|].
      rewrite length_app. cbn [length]. lia.
  - exfalso. assert (H : is_Some (@None IMVULinkParser.UrlType))
      by (apply Hv2, Hv1; eauto). by destruct H.
  - assert (Hinv : valid = false).
    { destruct valid; [|done]. destruct (proj1 Hv1 eq_refl) as [? [=]]. }
    subst valid.
    assert (Hty : pty = None).
    { destruct pty; [|done]. assert (H : false = true) by (apply Hv2; eauto). done. }
    subst pty.
    specialize (IH p). cbv zeta in IH. destruct IH as (Hu & Hall & t & Hf & Hl).
    destruct (IMVULinkParser.parseMultipleUrls fetch parseProductPage rest p)
      as [results p2]. cbn [fst snd] in *.
    split; [by rewrite fmap_cons, Hu|]. split.
    + intros r [->|Hr]%elem_of_cons; [|by apply Hall].
      cbn [IMVULinkParser.r_url IMVULinkParser.r_productId IMVULinkParser.r_urlType
           IMVULinkParser.r_info]. by rewrite Hparsed.
    + exists t. by split.
Qed.

Lemma parse_multiple_in_order_witness :
  let urls := [str "https://www.imvu.com/shop/product.php?products_id=42";
               str "not an address";
               str "https://www.imvu.com/shop/product.php?products_id=42"] in
  let p := {| IMVULinkParser.productCache := ∅;
              IMVULinkParser.clock := fun n => Z.of_nat n;
              IMVULinkParser.ticks := 0;
              IMVULinkParser.fetched := [];
              IMVULinkParser.errors := 0 |} in
  let out := IMVULinkParser.parseMultipleUrls (fun _ _ => Some (str "page"))
               (fun _ => {| IMVULinkParser.productName := Some (str "Hat");
                            IMVULinkParser.creatorName := None |}) urls p in
  (IMVULinkParser.r_url <$> out.1) = urls
  /\ length (IMVULinkParser.fetched out.2) = 1%nat.
Proof.
  intros urls p out.
  destruct (parse_multiple_in_order (fun _ _ => Some (str "page"))
              (fun _ => {| IMVULinkParser.productName := Some (str "Hat");
                           IMVULinkParser.creatorName := None |}) urls p)
    as (Hu & _).
  split; [exact Hu|]. by vm_compute.
Defined.

(* ===================================================================== *)
(** * The stream form *)
(* ===================================================================== *)

Section FormLemmas.
Context {Remote : Type} {backend : Backend Remote} {host : Host}.


End FormLemmas.



Section ItemLemmas.

Lemma filter_id_length (l : list StreamItem) (i : Z) :
  NoDup (item_id <$> l) ->
  (length l <= S (length (filter (fun item => item_id item <> i) l)))%nat.
Proof.
  induction l as [|x l IH]; [cbn; lia|]. rewrite fmap_cons. intros [Hx Hnd]%NoDup_cons.
  destruct (decide (item_id x = i)) as [E|E].
  - rewrite filter_cons_False by (by intros ?).
    assert (Hall : filter (fun item => item_id item <> i) l = l).
    { clear IH Hnd. induction l as [|y l IHl]; [done|].
      rewrite filter_cons_True.
      - f_equal. apply IHl. intros Hin. apply Hx. rewrite fmap_cons. by right.
      - intros Ey. apply Hx. rewrite fmap_cons, E, <- Ey. by left. }
    rewrite Hall. cbn. lia.
  - rewrite filter_cons_True by done. specialize (IH Hnd). cbn. lia.
Qed.

End ItemLemmas.

(** X27.  The items of the form: [removeItem] never removes the last item,
    and with items whose ids differ it removes at most one, so a form that
    has an item keeps one.  The ids need not differ: [addItem] takes the id
    from the clock, and two items added at the same reading get the same
    id; [removeItem] then removes both, and the form can be left with no
    item at all. *)
Theorem remove_item_keeps_one (formItems : list StreamItem) (itemId : Z) :
  (length formItems <= 1)%nat \/ NoDup (item_id <$> formItems) ->
  formItems <> [] ->
  StreamForm.removeItem itemId formItems <> []
  /\ (length formItems <= S (length (StreamForm.removeItem itemId formItems)))%nat
  /\ (forall item, item ∈ StreamForm.removeItem itemId formItems -> item ∈ formItems)
  /\ (forall now, now <> 1 ->
        StreamForm.removeItem now
          (StreamForm.removeItem 1
             (StreamForm.addItem now (StreamForm.addItem now StreamForm.initialItems)))
        = []).
Proof.
  intros Hids Hne. unfold StreamForm.removeItem at 1 2 3.
  assert (Hlast : forall now, now <> 1 ->
            StreamForm.removeItem now
              (StreamForm.removeItem 1
                 (StreamForm.addItem now (StreamForm.addItem now StreamForm.initialItems)))
            = []).
  { intros now Hnow. unfold StreamForm.removeItem, StreamForm.addItem,
      StreamForm.initialItems. cbn [app length].
    rewrite !(bool_decide_eq_true_2 (1 < 3)%nat) by lia.
    rewrite filter_cons_False by (by intros ?).
    rewrite !filter_cons_True by (cbn; lia). rewrite filter_nil.
    cbn [length]. rewrite (bool_decide_eq_true_2 (1 < 2)%nat) by lia.
    rewrite !filter_cons_False by (by intros ?). done. }
  case_bool_decide as Hlen.
  - destruct Hids as [?|Hnd]; [lia|].
    pose proof (filter_id_length formItems itemId Hnd) as Hl.
    split; [intros E; rewrite E in Hl; cbn in Hl; lia|]. split; [done|].
    split; [|done]. intros item Hin. by apply list_elem_of_filter in Hin as [_ ?].
  - split; [done|]. split; [lia|]. by split.
Qed.

Lemma remove_item_keeps_one_witness :
  StreamForm.removeItem 1 StreamForm.initialItems = StreamForm.initialItems
  /\ StreamForm.removeItem 7
       (StreamForm.removeItem 1
          (StreamForm.addItem 7 (StreamForm.addItem 7 StreamForm.initialItems))) = [].
Proof.
  destruct (remove_item_keeps_one StreamForm.initialItems 1) as (_ & _ & _ & H).
  - left. cbn. lia.
  - done.
  - split; [reflexivity|]. by apply H.
Defined.

Section ParseUrlLemmas.

Lemma find_first {A} (P : A -> bool) (l : list A) (t : A) :
  List.find P l = Some t ->
  exists i, l !! i = Some t /\ P t = true
            /\ forall j y, (j < i)%nat -> l !! j = Some y -> P y = false.
Proof.
  induction l as [|x l IH]; [done|]. cbn [List.find].
  destruct (P x) eqn:Hx.
  - intros [= <-]. exists 0%nat. split; [done|]. split; [done|]. intros j y Hj. lia.
  - intros Hf. destruct (IH Hf) as (i & Hi & Ht & Hmin).
    exists (S i). split; [done|]. split; [done|].
    intros [|j] y Hj; [by intros [= <-]|]. cbn. apply Hmin. lia.
Qed.

Lemma updateItem_other (i : Z) (field : StreamForm.Field) (v : jsstring)
    (current : list StreamItem) (k : nat) (x : StreamItem) :
  current !! k = Some x -> item_id x <> i ->
  StreamForm.updateItem i field v current !! k = Some x.
Proof.
  revert k. induction current as [|c current IH]; intros k; [done|].
  destruct k as [|k]; cbn.
  - intros [= ->] Hne. by rewrite bool_decide_eq_false_2.
  - apply IH.
Qed.

Lemma updateItem_ids (i : Z) (field : StreamForm.Field) (v : jsstring)
    (current : list StreamItem) :
  item_id <$> StreamForm.updateItem i field v current = item_id <$> current.
Proof.
  induction current as [|c current IH]; [done|]. cbn. f_equal; [|exact IH].
  by case_bool_decide.
Qed.

Lemma applyResult_ids (formItems current : list StreamItem)
    (r : IMVULinkParser.UrlResult) :
  item_id <$> StreamForm.applyResult formItems current r = item_id <$> current.
Proof.
  unfold StreamForm.applyResult.
  destruct (IMVULinkParser.success _); [|done].
  destruct (List.find _ formItems) as [target|]; [|done]. cbv zeta.
  destruct (IMVULinkParser.x_creatorName _) as [[|c n]|];
    destruct (IMVULinkParser.x_productName _) as [[|c' n']|];
    by rewrite !updateItem_ids.
Qed.

(** An item that comes after another item with the same address is not
    touched by a result. *)
Lemma applyResult_shadowed (formItems current : list StreamItem)
    (r : IMVULinkParser.UrlResult) (j k : nat) (y x : StreamItem) :
  NoDup (item_id <$> formItems) ->
  (j < k)%nat -> formItems !! j = Some y -> formItems !! k = Some x ->
  product_url y = product_url x ->
  current !! k = Some x ->
  StreamForm.applyResult formItems current r !! k = Some x.
Proof.
  intros Hnd Hjk Hy Hx Hurl Hcur. unfold StreamForm.applyResult.
  destruct (IMVULinkParser.success _); [|done].
  destruct (List.find _ formItems) as [target|] eqn:Hfind; [|done]. cbv zeta.
  destruct (find_first _ _ _ Hfind) as (i & Hi & Ht & Hmin).
  assert (Hne : item_id x <> item_id target).
  { intros E.
    assert (Hik : k = i).
    { eapply (NoDup_lookup (item_id <$> formItems)); [done| |].
      - by rewrite list_lookup_fmap, Hx.
      - by rewrite list_lookup_fmap, Hi, E. }
    subst i. rewrite Hx in Hi. injection Hi as <-.
    specialize (Hmin j y Hjk Hy). rewrite Hurl in Hmin. congruence. }
  destruct (IMVULinkParser.x_creatorName _) as [[|c n]|];
    destruct (IMVULinkParser.x_productName _) as [[|c' n']|];
    repeat apply updateItem_other; done.
Qed.

End ParseUrlLemmas.

(** X28.  [parseProductUrls] of the form.  With no address to parse (no
    item with an address and without a product id) it does not show "No
    URLs to parse": that call throws, and the handler reports the failure,
    leaving the items and the link parser as they were.  Otherwise the
    items keep their number, order and ids, and a result is written to the
    first item that has its address: with items whose ids differ, an item
    that comes after another item with the same address is left as it was,
    however many results the toast counts. *)
Theorem parse_urls_fills_first_only (fetch : nat -> jsstring -> option jsstring)
    (parseProductPage : jsstring -> IMVULinkParser.ProductInfo)
    (formItems : list StreamItem) (p : IMVULinkParser.Parser) :
  let out := StreamForm.parseProductUrls fetch parseProductPage formItems p in
  (StreamForm.urlsToParse formItems = [] ->
   out = (formItems, StreamForm.ParseFailed TypeError, p))
  /\ (item_id <$> out.1.1) = (item_id <$> formItems)
  /\ (NoDup (item_id <$> formItems) ->
      forall j k y x,
        (j < k)%nat -> formItems !! j = Some y -> formItems !! k = Some x ->
        product_url y = product_url x ->
        out.1.1 !! k = Some x).
Proof.
  intros out. subst out. unfold StreamForm.parseProductUrls.
  destruct (StreamForm.urlsToParse formItems) as [|u urls]; [by repeat split|].
  destruct (IMVULinkParser.parseMultipleUrls fetch parseProductPage (u :: urls) p)
    as [results p'].
  cbn [fst snd]. split; [done|]. split.
  - assert (Hgen : forall current,
              item_id <$> fold_left (StreamForm.applyResult formItems) results current
              = item_id <$> current).
    { induction results as [|r results IH]; intros current; [done|].
      cbn [fold_left]. by rewrite IH, applyResult_ids. }
    apply Hgen.
  - intros Hnd j k y x Hjk Hy Hx Hurl.
    assert (Hgen : forall current, current !! k = Some x ->
              fold_left (StreamForm.applyResult formItems) results current !! k = Some x).
    { induction results as [|r results IH]; intros current Hcur; [done|].
      cbn [fold_left]. apply IH. by eapply applyResult_shadowed. }
    by apply Hgen.
Qed.

Lemma parse_urls_fills_first_only_witness :
  let url := str "https://www.imvu.com/shop/product.php?products_id=42" in
  let withUrl i :=
    {| item_id := i; item_name := []; creator_name := [];
       creator_id := Some []; product_url := Some url; product_id := Some [];
       item_notes := Some []; creator_imvu_avatar := None;
       creator_ig_handle := None; creator_ig_shop_handle := None |} in
  let p := {| IMVULinkParser.productCache := ∅;
              IMVULinkParser.clock := fun n => Z.of_nat n;
              IMVULinkParser.ticks := 0;
              IMVULinkParser.fetched := [];
              IMVULinkParser.errors := 0 |} in
  let out := StreamForm.parseProductUrls (fun _ _ => Some (str "page"))
               (fun _ => {| IMVULinkParser.productName := Some (str "Hat");
                            IMVULinkParser.creatorName := None |})
               [withUrl 1; withUrl 2] p in
  out.1.1 !! 1%nat = Some (withUrl 2)
  /\ (product_id <$> out.1.1) = [Some (str "42"); Some []]
  /\ out.1.2 = StreamForm.ParsedUrls 2.
Proof.
  intros url withUrl p out.
  destruct (parse_urls_fills_first_only (fun _ _ => Some (str "page"))
              (fun _ => {| IMVULinkParser.productName := Some (str "Hat");
                           IMVULinkParser.creatorName := None |})
              [withUrl 1; withUrl 2] p) as (_ & _ & H).
  split; [|split; by vm_compute].
  apply (H ltac:(apply (bool_decide_unpack _); by vm_compute) 0%nat 1%nat
           (withUrl 1) (withUrl 2)); [lia|done|done|done].
Defined.
